(** * Shotgun Spread Geocoder: the location enrichment pipeline of [app.py]

    A shallow embedding of [preprocess_locations], [assign_ids],
    [process_locations], [update_location_info], [find_place],
    [get_place_details] and [main], with the properties of the field
    normalisation, the ID assignment and the per-record enrichment. *)

From Stdlib Require Import List String Ascii Bool NArith ZArith Lia.
From Stdlib Require Import DecimalString DecimalN DecimalPos.
From Stdlib Require DecimalFacts.
Import ListNotations.

Local Open Scope string_scope.
Local Open Scope list_scope.

(** ** Python values *)

(** Python text is modelled by [string]; a character is read as one of the
    code points U+0000 to U+00FF. *)

(** The floats of the interpreter: rounding to a number of decimals,
    [repr], and truthiness are those of the Python runtime. *)
Class PyFloat := {
  num : Type;
  py_round : num -> Z -> num;
  float_repr : num -> string;
  float_truthy : num -> bool
}.

#[local] Set Warnings "-register-all".

(** What [json.load] produces, which is also what a record may hold. *)
Inductive json {F : PyFloat} : Type :=
| JNull
| JBool (b : bool)
| JInt (z : Z)
| JFloat (x : num)
| JStr (s : string)
| JList (l : list json)
| JDict (d : list (string * json)).

(** A Python [dict] with text keys, in insertion order. *)
Definition dict {F : PyFloat} : Type := list (string * json).

Inductive exn : Type :=
| TypeError
| AttributeError
| ValueError
| JSONDecodeError (msg : string)
| ApiError (msg : string)
| TransportError (msg : string)
| Timeout (msg : string)
| UnexpectedError (msg : string).

(** [str(e)] *)
Definition exn_str (e : exn) : string :=
  match e with
  | TypeError | AttributeError | ValueError => ""
  | JSONDecodeError m | ApiError m | TransportError m | Timeout m
  | UnexpectedError m => m
  end.

(** *** Text *)

(** [str.isdigit] on one character: the decimal digits and the superscripts
    U+00B2, U+00B3, U+00B9. *)
Definition isdigit_char (c : ascii) : bool :=
  let n := N_of_ascii c in
  (((48 <=? n) && (n <=? 57)) || (n =? 178) || (n =? 179) || (n =? 185))%N.

Fixpoint all_chars (p : ascii -> bool) (s : string) : bool :=
  match s with
  | EmptyString => true
  | String c s' => p c && all_chars p s'
  end.

(** [s.isdigit()] *)
Definition isdigit (s : string) : bool :=
  match s with
  | EmptyString => false
  | _ => all_chars isdigit_char s
  end.

(** [sys.int_info.default_max_str_digits]: the longest decimal numeral that
    [int] reads and that [str] writes. The program leaves the limit of the
    interpreter as it is. *)
Definition int_max_str_digits : nat := 4300.

(** [int(s)] on text that passed [isdigit]; [None] is [ValueError], which
    is raised for a character that is no decimal digit and for text of more
    than [int_max_str_digits] characters, leading zeros included. *)
Definition py_int (s : string) : option N :=
  if Nat.leb (String.length s) int_max_str_digits
  then option_map N.of_uint (NilZero.uint_of_string s)
  else None.

(** The decimal numeral of [n]. *)
Definition numeral (n : N) : string :=
  NilZero.string_of_uint (N.to_uint n).

(** [str(n)] for a non-negative [int]; [None] is [ValueError], which is
    raised when the numeral has more than [int_max_str_digits] digits. *)
Definition str_of_N (n : N) : option string :=
  let text := numeral n in
  if Nat.leb (String.length text) int_max_str_digits then Some text else None.

(** The first integer that [str] does not write and that [int] does not
    read. *)
Definition int_str_bound : N := (10 ^ N.of_nat int_max_str_digits)%N.

(** [str(n)] for a length or an index of a list, which the interpreter
    keeps below [sys.maxsize], a number of 19 digits. *)
Definition str_of_nat (n : nat) : string := numeral (N.of_nat n).

(** [str(z)] for an [int] of a record or of an answer of the service:
    [json] has read it with [int], hence within the limit of the digits. *)
Definition str_of_Z (z : Z) : string :=
  NilZero.string_of_int (Z.to_int z).

(** [sep.join(parts)] on a list of [str]. *)
Fixpoint join (sep : string) (parts : list string) : string :=
  match parts with
  | [] => ""
  | [p] => p
  | p :: rest => p ++ sep ++ join sep rest
  end.

(** [repr] of a list or a dict is left to the interpreter. *)
Class PyRepr {F : PyFloat} := {
  container_repr : json -> string
}.

Section Values.
Context {F : PyFloat} {R : PyRepr}.

(** [bool(v)] *)
Definition truthy (v : json) : bool :=
  match v with
  | JNull => false
  | JBool b => b
  | JInt z => negb (z =? 0)%Z
  | JFloat x => float_truthy x
  | JStr s => negb (s =? "")
  | JList l => match l with [] => false | _ => true end
  | JDict d => match d with [] => false | _ => true end
  end.

(** [str(v)], also what an f-string prints for [v]. *)
Definition py_str (v : json) : string :=
  match v with
  | JNull => "None"
  | JBool true => "True"
  | JBool false => "False"
  | JInt z => str_of_Z z
  | JFloat x => float_repr x
  | JStr s => s
  | JList _ | JDict _ => container_repr v
  end.

(** *** Dictionaries *)

(** [d.get(k)] *)
Fixpoint lookup (d : dict) (k : string) : option json :=
  match d with
  | [] => None
  | (k', v) :: d' => if k' =? k then Some v else lookup d' k
  end.

(** [d.get(k, default)] *)
Definition get (d : dict) (k : string) (default : json) : json :=
  match lookup d k with
  | Some v => v
  | None => default
  end.

(** [d[k] = v]: a present key keeps its place, a new key goes last. *)
Fixpoint setitem (d : dict) (k : string) (v : json) : dict :=
  match d with
  | [] => [(k, v)]
  | (k', v') :: d' =>
      if k' =? k then (k', v) :: d' else (k', v') :: setitem d' k v
  end.

Definition keys (d : dict) : list string := map fst d.

End Values.

(** ** The canonical record shape *)

Definition EXPECTED_FIELDS : list string :=
  [ "id"; "name"; "lat"; "lng"; "category"; "address"; "address2";
    "city"; "state"; "postal"; "phone"; "web"; "hours1"; "hours2";
    "hours3"; "featured"; "features"; "date" ].

(** The body of the loops of [preprocess_locations] and of the end of
    [update_location_info]: a fresh [OrderedDict] filled field by field. *)
Definition reorder {F : PyFloat} (loc_data : dict) : dict :=
  fold_left (fun location field => setitem location field (get loc_data field (JStr "")))
            EXPECTED_FIELDS [].

(** ** The mapping service *)

(** A response has the shape that the client library gives it; a key that
    may be missing is an [option]. *)

Section Responses.
Context {F : PyFloat}.

(** [geocode_result[i]['geometry']['location']] *)
Record geocode_result : Type := {
  geo_lat : num;
  geo_lng : num
}.

Record opening_hours_t : Type := {
  (** [None]: no ['weekday_text'] key; [Some None]: a value that is not a
      list; [Some (Some l)]: the list of lines. *)
  weekday_text : option (option (list string))
}.

(** One entry of ['candidates'] in a find-place response. *)
Record candidate : Type := {
  cand_place_id : option string;
  cand_formatted_address : option string;
  cand_opening_hours : option opening_hours_t
}.

Record find_place_response : Type := {
  candidates : list candidate
}.

Record address_component : Type := {
  comp_types : list string;
  comp_long_name : option string;
  comp_short_name : option string
}.

(** The ['result'] of a place-details response. *)
Record place_details : Type := {
  formatted_address : option string;
  address_components : option (list address_component);
  formatted_phone_number : option string;
  website : option string;
  opening_hours : option opening_hours_t
}.

Record place_response : Type := {
  result : option place_details
}.

(** [bool(place)] for a candidate: a dict is true when it has a key. *)
Definition candidate_truthy (c : candidate) : bool :=
  match cand_place_id c, cand_formatted_address c, cand_opening_hours c with
  | None, None, None => false
  | _, _, _ => true
  end.

(** [bool(details)] *)
Definition details_truthy (d : place_details) : bool :=
  match formatted_address d, address_components d,
        formatted_phone_number d, website d, opening_hours d with
  | None, None, None, None, None => false
  | _, _, _, _, _ => true
  end.

(** [place_details.get('result', {})] when the key is missing. *)
Definition empty_details : place_details :=
  {| formatted_address := None; address_components := None;
     formatted_phone_number := None; website := None;
     opening_hours := None |}.

End Responses.

(** The [googlemaps] client: each call answers from the state of the world
    and may change it; an answer is a response or a raised exception. *)
Class GoogleMaps {F : PyFloat} := {
  world : Type;
  remote_geocode : string -> world -> (exn + list geocode_result) * world;
  remote_find_place : string -> world -> (exn + find_place_response) * world;
  remote_place : string -> world -> (exn + place_response) * world
}.

(** ** Effects *)

Inductive level : Type := INFO | WARNING | ERROR.

Inductive outcome (A : Type) : Type :=
| Ret (a : A)
| Raise (e : exn).
Arguments Ret {A} a.
Arguments Raise {A} e.

Section Effects.
Context {F : PyFloat} {G : GoogleMaps}.

(** What a run does that can be seen from outside, in order; a call to the
    service is recorded with its answer. *)
Inductive event : Type :=
| Log (lvl : level) (msg : string)
| Sleep
| CallGeocode (address : string) (answer : exn + list geocode_result)
| CallFindPlace (query : string) (answer : exn + find_place_response)
| CallPlace (place_id : string) (answer : exn + place_response)
| StTitle (text : string)
| StWrite (text : string)
| StFileUploader (label : string)
| StInfo (text : string)
| StSuccess (text : string)
| StError (text : string)
| StButton (label : string)
| StProgress (done total : nat)
| StEmpty
| StText (text : string)
| StDownloadButton (data : list dict) (file_name : string).

(** A computation: from the world, an outcome, the world after and the
    events emitted. *)
Definition M (A : Type) : Type := world -> outcome A * world * list event.

Definition ret {A} (a : A) : M A := fun w => (Ret a, w, []).

Definition raise {A} (e : exn) : M A := fun w => (Raise e, w, []).

Definition bind {A B} (m : M A) (k : A -> M B) : M B :=
  fun w =>
    match m w with
    | (Ret a, w1, ev1) =>
        match k a w1 with
        | (r, w2, ev2) => (r, w2, ev1 ++ ev2)
        end
    | (Raise e, w1, ev1) => (Raise e, w1, ev1)
    end.

(** [try: m  except ... as e: handler e] *)
Definition try_except {A} (m : M A) (handler : exn -> M A) : M A :=
  fun w =>
    match m w with
    | (Ret a, w1, ev1) => (Ret a, w1, ev1)
    | (Raise e, w1, ev1) =>
        match handler e w1 with
        | (r, w2, ev2) => (r, w2, ev1 ++ ev2)
        end
    end.

Definition emit (e : event) : M unit := fun w => (Ret tt, w, [e]).

(** A call to the service: [record] makes the event of the answer. *)
Definition call {A} (record : exn + A -> event) (f : world -> (exn + A) * world)
  : M A :=
  fun w =>
    match f w with
    | (inl x, w') => (Raise x, w', [record (inl x)])
    | (inr a, w') => (Ret a, w', [record (inr a)])
    end.

End Effects.

Declare Scope py_scope.
Delimit Scope py_scope with py.
Notation "x <- m ;; k" := (bind m (fun x => k))
  (at level 61, m at next level, right associativity) : py_scope.
Notation "m ;; k" := (bind m (fun _ => k))
  (at level 61, right associativity) : py_scope.

(** ** The program *)

Section Program.
Context {F : PyFloat} {R : PyRepr} {G : GoogleMaps}.
Local Open Scope string_scope.
Local Open Scope py_scope.

Definition log_info (message : string) : M unit := emit (Log INFO message).
Definition log_warning (message : string) : M unit := emit (Log WARNING message).
Definition log_error (message : string) : M unit := emit (Log ERROR message).

(** [time.sleep(API_DELAY)] *)
Definition sleep : M unit := emit Sleep.

Definition lift {A} (o : outcome A) : M A :=
  match o with
  | Ret a => ret a
  | Raise e => raise e
  end.

(** [for x in v]: the items a loop over [v] visits, [TypeError] when [v]
    cannot be iterated. *)
Definition py_iter (v : json) : outcome (list json) :=
  match v with
  | JList l => Ret l
  | JDict d => Ret (map (fun kv => JStr (fst kv)) d)
  | JStr s => Ret (map (fun c => JStr (String c EmptyString)) (list_ascii_of_string s))
  | JNull | JBool _ | JInt _ | JFloat _ => Raise TypeError
  end.

(** The loop of [preprocess_locations] over the items. *)
Fixpoint preprocess_items (items : list json) : outcome (list dict) :=
  match items with
  | [] => Ret []
  | JDict loc_data :: rest =>
      match preprocess_items rest with
      | Ret locations => Ret (reorder loc_data :: locations)
      | Raise e => Raise e
      end
  | _ :: _ => Raise AttributeError
  end.

Definition preprocess_locations (locations_data : json) : outcome (list dict) :=
  match py_iter locations_data with
  | Ret items => preprocess_items items
  | Raise e => Raise e
  end.

(** First pass of [assign_ids]: the IDs seen and the largest of them.
    [existing_ids], a set in the source, is filled and never read. *)
Fixpoint collect_ids (locations : list dict) (existing_ids : list N) (max_id : N)
  : M (list N * N) :=
  match locations with
  | [] => ret (existing_ids, max_id)
  | location :: rest =>
      match get location "id" (JStr "") with
      | JStr id_str =>
          if isdigit id_str then
            match py_int id_str with
            | Some id_num =>
                collect_ids rest (id_num :: existing_ids) (N.max max_id id_num)
            | None => raise ValueError
            end
          else
            log_warning ("Non-integer or missing ID found: " ++ id_str) ;;
            collect_ids rest existing_ids max_id
      | _ => raise AttributeError
      end
  end.

(** Second pass of [assign_ids]. *)
Fixpoint assign_new_ids (locations : list dict) (next_id : N) : M (list dict) :=
  match locations with
  | [] => ret []
  | location :: rest =>
      match get location "id" (JStr "") with
      | JStr id_str =>
          if isdigit id_str then
            rest' <- assign_new_ids rest next_id ;;
            ret (location :: rest')
          else
            match str_of_N next_id with
            | Some text =>
                let location := setitem location "id" (JStr text) in
                log_info ("Assigned new ID " ++ text ++ " to location "
                          ++ py_str (get location "name" (JStr ""))) ;;
                rest' <- assign_new_ids rest (next_id + 1) ;;
                ret (location :: rest')
            | None => raise ValueError
            end
      | _ => raise AttributeError
      end
  end.

(** [assign_ids] changes the records in place; here it returns them. *)
Definition assign_ids (locations : list dict) : M (list dict) :=
  seen <- collect_ids locations [] 0%N ;;
  let max_id := snd seen in
  let next_id := (max_id + 1)%N in
  assign_new_ids locations next_id.

(** [sep.join(items)]: every item has to be a [str]. *)
Fixpoint strings_of (items : list json) : outcome (list string) :=
  match items with
  | [] => Ret []
  | JStr s :: rest =>
      match strings_of rest with
      | Ret l => Ret (s :: l)
      | Raise e => Raise e
      end
  | _ :: _ => Raise TypeError
  end.

Definition py_join (sep : string) (items : list json) : outcome string :=
  match strings_of items with
  | Ret l => Ret (join sep l)
  | Raise e => Raise e
  end.

Definition is_api_error (e : exn) : bool :=
  match e with
  | ApiError _ | TransportError _ | Timeout _ => true
  | _ => false
  end.

Definition find_place (location_name city state : json) : M (option candidate) :=
  let query := py_str location_name ++ " in " ++ py_str city ++ ", " ++ py_str state in
  try_except
    (response <- call (CallFindPlace query) (remote_find_place query) ;;
     match candidates response with
     | c :: _ => ret (Some c)
     | [] => ret None
     end)
    (fun e =>
       if is_api_error e then
         log_error ("API error during find_place for '" ++ query ++ "': " ++ exn_str e) ;;
         ret None
       else
         log_error ("Unexpected error during find_place for '" ++ query ++ "': "
                    ++ exn_str e) ;;
         ret None).

Definition get_place_details (place_id : string) : M place_details :=
  try_except
    (place_details <- call (CallPlace place_id) (remote_place place_id) ;;
     sleep ;;
     ret (match result place_details with
          | Some r => r
          | None => empty_details
          end))
    (fun e =>
       if is_api_error e then
         log_error ("API error during place_details for place_id " ++ place_id
                    ++ ": " ++ exn_str e) ;;
         ret empty_details
       else
         log_error ("Unexpected error during place_details for place_id " ++ place_id
                    ++ ": " ++ exn_str e) ;;
         ret empty_details).

(** What the loop over the address components leaves in [street_number],
    [route], [city], [state] and [postal]. *)
Record parsed_address : Type := {
  pa_street_number : string;
  pa_route : string;
  pa_city : string;
  pa_state : string;
  pa_postal : string
}.

Definition no_address : parsed_address :=
  {| pa_street_number := ""; pa_route := ""; pa_city := ""; pa_state := "";
     pa_postal := "" |}.

(** ['t' in types] *)
Definition has_type (t : string) (types : list string) : bool :=
  existsb (String.eqb t) types.

Definition text_or_empty (o : option string) : string :=
  match o with
  | Some s => s
  | None => ""
  end.

(** One turn of the loop over [address_components]. *)
Definition parse_component (acc : parsed_address) (component : address_component)
  : parsed_address :=
  let types := comp_types component in
  if has_type "street_number" types then
    {| pa_street_number := text_or_empty (comp_long_name component);
       pa_route := pa_route acc; pa_city := pa_city acc;
       pa_state := pa_state acc; pa_postal := pa_postal acc |}
  else if has_type "route" types then
    {| pa_street_number := pa_street_number acc;
       pa_route := text_or_empty (comp_long_name component);
       pa_city := pa_city acc; pa_state := pa_state acc;
       pa_postal := pa_postal acc |}
  else if has_type "locality" types then
    {| pa_street_number := pa_street_number acc; pa_route := pa_route acc;
       pa_city := text_or_empty (comp_long_name component);
       pa_state := pa_state acc; pa_postal := pa_postal acc |}
  else if has_type "administrative_area_level_1" types then
    {| pa_street_number := pa_street_number acc; pa_route := pa_route acc;
       pa_city := pa_city acc;
       pa_state := text_or_empty (comp_short_name component);
       pa_postal := pa_postal acc |}
  else if has_type "postal_code" types then
    {| pa_street_number := pa_street_number acc; pa_route := pa_route acc;
       pa_city := pa_city acc; pa_state := pa_state acc;
       pa_postal := text_or_empty (comp_long_name component) |}
  else acc.

Definition parse_components (components : list address_component) : parsed_address :=
  fold_left parse_component components no_address.

Definition nonempty (s : string) : bool := negb (s =? "").

(** [' '.join(filter(None, [street_number, route]))] *)
Definition street_address_of (p : parsed_address) : string :=
  join " " (filter nonempty [pa_street_number p; pa_route p]).

(** [s or v] for a [str] on the left. *)
Definition str_or (s : string) (v : json) : json :=
  if nonempty s then JStr s else v.

(** The merge of [update_location_info], from the parse of the address
    components to the hours: what [location] is after it. *)
Definition merge_details (location : dict) (details : place_details) : dict :=
  let address_components :=
    match address_components details with
    | Some l => l
    | None => []
    end in
  let parsed := parse_components address_components in
  let street_address := street_address_of parsed in
  let location := setitem location "address"
                    (str_or street_address (get location "address" (JStr ""))) in
  let location := setitem location "city"
                    (str_or (pa_city parsed) (get location "city" (JStr ""))) in
  let location := setitem location "state"
                    (str_or (pa_state parsed) (get location "state" (JStr ""))) in
  let location := setitem location "postal"
                    (str_or (pa_postal parsed) (get location "postal" (JStr ""))) in
  let location := setitem location "phone"
                    match formatted_phone_number details with
                    | Some v => JStr v
                    | None => get location "phone" (JStr "")
                    end in
  let location := setitem location "web"
                    match website details with
                    | Some v => JStr v
                    | None => get location "web" (JStr "")
                    end in
  let weekday_text :=
    match opening_hours details with
    | Some oh =>
        match weekday_text oh with
        | Some v => v
        | None => Some []
        end
    | None => Some []
    end in
  match weekday_text with
  | Some lines => setitem location "hours1" (JStr (join (String "010" "") lines))
  | None => setitem location "hours1" (get location "hours1" (JStr ""))
  end.

(** The geocoding of [update_location_info], run when [lat] or [lng] is
    missing or empty. *)
Definition geocode_missing (location : dict) (location_id city state postal : json)
  : M dict :=
  let country := JStr "USA" in
  if negb (truthy (get location "lat" JNull)) || negb (truthy (get location "lng" JNull))
  then
    full_address <- lift (py_join ", "
        (filter truthy [get location "address" (JStr ""); city; state; postal; country])) ;;
    try_except
      (geocode_result <- call (CallGeocode full_address) (remote_geocode full_address) ;;
       sleep ;;
       match geocode_result with
       | geocoded_location :: _ =>
           let lat := geo_lat geocoded_location in
           let lng := geo_lng geocoded_location in
           let location := setitem location "lat" (JFloat (py_round lat 10)) in
           let location := setitem location "lng" (JFloat (py_round lng 10)) in
           log_info ("Geocoded coordinates for ID " ++ py_str location_id ++ ": ("
                     ++ py_str (get location "lat" JNull) ++ ", "
                     ++ py_str (get location "lng" JNull) ++ ")") ;;
           ret location
       | [] =>
           log_warning ("Geocoding failed for location ID: " ++ py_str location_id
                        ++ ". No results returned.") ;;
           ret location
       end)
      (fun e =>
         if is_api_error e then
           log_error ("API error during geocoding for location ID "
                      ++ py_str location_id ++ ": " ++ exn_str e) ;;
           ret location
         else
           log_error ("Unexpected error during geocoding for location ID "
                      ++ py_str location_id ++ ": " ++ exn_str e) ;;
           ret location)
  else ret location.

(** The further updates of [update_location_info], from what [find_place]
    gave. *)
Definition merge_place (location : dict) (location_id : json) (place : option candidate)
  : M dict :=
  match place with
  | Some c =>
      if candidate_truthy c then
        match cand_place_id c with
        | Some place_id =>
            if nonempty place_id then
              details <- get_place_details place_id ;;
              if details_truthy details then
                let location := merge_details location details in
                log_info ("Updated location ID: " ++ py_str location_id
                          ++ " with data from Place Details API.") ;;
                ret location
              else
                log_warning ("No details found for place_id " ++ place_id
                             ++ " for location ID: " ++ py_str location_id ++ ".") ;;
                ret location
            else
              log_warning ("No place_id found in Find Place results for location ID: "
                           ++ py_str location_id ++ ".") ;;
              ret location
        | None =>
            log_warning ("No place_id found in Find Place results for location ID: "
                         ++ py_str location_id ++ ".") ;;
            ret location
        end
      else
        log_warning ("No place found using Find Place API for location ID: "
                     ++ py_str location_id ++ ".") ;;
        ret location
  | None =>
      log_warning ("No place found using Find Place API for location ID: "
                   ++ py_str location_id ++ ".") ;;
      ret location
  end.

(** The end of [update_location_info]: [lat] and [lng] as text and the
    default of [featured]. *)
Definition finish_location (location : dict) : dict :=
  let location := setitem location "lat" (JStr (py_str (get location "lat" (JStr "")))) in
  let location := setitem location "lng" (JStr (py_str (get location "lng" (JStr "")))) in
  if negb (truthy (get location "featured" JNull))
  then setitem location "featured" (JStr "no")
  else location.

(** [update_location_info] changes [location] in place and returns a fresh
    ordered record: both are returned here, the changed [location] first. *)
Definition update_location_info (location : dict) : M (dict * dict) :=
  let location_id := get location "id" (JStr "Unknown ID") in
  let name := get location "name" (JStr "") in
  let city := get location "city" (JStr "") in
  let state := get location "state" (JStr "") in
  let postal := get location "postal" (JStr "") in
  log_info ("Processing location ID: " ++ py_str location_id ++ " - " ++ py_str name) ;;
  location <- geocode_missing location location_id city state postal ;;
  place <- find_place name city state ;;
  sleep ;;
  location <- merge_place location location_id place ;;
  let location := finish_location location in
  let ordered_location := reorder location in
  ret (location, ordered_location).

(** The loop of [process_locations], from index [idx]. *)
Fixpoint process_loop (locations : list dict) (idx total_locations : nat)
  : M (list dict) :=
  match locations with
  | [] => ret []
  | location :: rest =>
      updated <- update_location_info location ;;
      let location := fst updated in
      let updated_location := snd updated in
      emit (StProgress (idx + 1) total_locations) ;;
      emit (StText ("Processing " ++ str_of_nat (idx + 1) ++ "/"
                    ++ str_of_nat total_locations ++ ": "
                    ++ py_str (get location "name" (JStr "Unknown")))) ;;
      sleep ;;
      updated_locations <- process_loop rest (S idx) total_locations ;;
      ret (updated_location :: updated_locations)
  end.

Definition process_locations (locations : list dict) : M (list dict) :=
  let total_locations := List.length locations in
  emit (StProgress 0 1) ;;
  emit StEmpty ;;
  updated_locations <- process_loop locations 0 total_locations ;;
  emit (StText "Processing complete.") ;;
  ret updated_locations.

(** An uploaded file is given by what [json.load] makes of it: the parsed
    value or the [JSONDecodeError] raised. [button] is what
    [st.button("Update Locations")] returns in this run. The typographic
    apostrophe of the introduction is written as a plain one. *)
Definition main (uploaded_file : option (outcome json)) (button : bool) : M unit :=
  emit (StTitle "Shotgun Spread Geocoder App") ;;
  emit (StWrite "Upload a JSON file with store location data, and the app will automatically retrieve each store's address details, including latitude, longitude, website, and other relevant information. It then generates a downloadable updated_locations.json file with the enhanced data for easy use.") ;;
  emit (StFileUploader "Choose a JSON file") ;;
  match uploaded_file with
  | Some file =>
      try_except
        (locations_data <- lift file ;;
         locations <- lift (preprocess_locations locations_data) ;;
         emit (StSuccess ("Loaded " ++ str_of_nat (List.length locations)
                          ++ " locations from the uploaded file.")) ;;
         locations <- assign_ids locations ;;
         emit (StButton "Update Locations") ;;
         if button then
           updated_locations <- process_locations locations ;;
           emit (StSuccess "Location data has been updated successfully.") ;;
           emit (StDownloadButton updated_locations "updated_locations.json")
         else ret tt)
        (fun e =>
           match e with
           | JSONDecodeError _ => emit (StError ("Error decoding JSON: " ++ exn_str e))
           | _ => raise e
           end)
  | None => emit (StInfo "Awaiting file upload.")
  end.

End Program.

(** ** Vocabulary of the statements *)

Section Vocabulary.
Context {F : PyFloat} {R : PyRepr} {G : GoogleMaps}.

(** A record in canonical shape: exactly the expected fields, in order. *)
Definition canonical (location : dict) : Prop := keys location = EXPECTED_FIELDS.

(** The normalisation of a record, field by field. *)
Definition normalized_from (loc_data location : dict) : Prop :=
  location = map (fun field => (field, get loc_data field (JStr ""))) EXPECTED_FIELDS.

Definition is_text (v : json) : bool :=
  match v with
  | JStr _ => true
  | _ => false
  end.

(** Every value of the mapping is text. *)
Definition string_valued (d : dict) : Prop :=
  Forall (fun kv => is_text (snd kv) = true) d.

(** The parts of the address that the geocoding joins are text. *)
Definition text_address (location : dict) : Prop :=
  is_text (get location "address" (JStr "")) = true /\
  is_text (get location "city" (JStr "")) = true /\
  is_text (get location "state" (JStr "")) = true /\
  is_text (get location "postal" (JStr "")) = true.

(** The ID of a record, when it is text. *)
Definition id_text (location : dict) : option string :=
  match get location "id" (JStr "") with
  | JStr s => Some s
  | _ => None
  end.

(** A record that [assign_ids] keeps as it is. *)
Definition has_integer_id (location : dict) : bool :=
  match id_text location with
  | Some s => isdigit s
  | None => false
  end.

(** The integer of the ID of a record. *)
Definition id_number (location : dict) : option N :=
  match id_text location with
  | Some s => if isdigit s then py_int s else None
  | None => None
  end.

(** A text ID that [assign_ids] can read: not made of digits, or a
    decimal numeral of at most [int_max_str_digits] digits. *)
Definition readable_id (location : dict) : Prop :=
  exists s, id_text location = Some s /\
            (isdigit s = true -> exists n, py_int s = Some n).

(** The integers of the records that keep their ID, in input order. *)
Definition kept_numbers (locations : list dict) : list N :=
  flat_map (fun location => match id_number location with
                            | Some n => [n]
                            | None => []
                            end) locations.

(** The largest ID that is kept, 0 when none is. *)
Definition max_kept_id (locations : list dict) : N :=
  fold_right N.max 0%N (kept_numbers locations).

(** The records that get a new ID. *)
Definition without_integer_id (locations : list dict) : list dict :=
  filter (fun location => negb (has_integer_id location)) locations.

(** The records after the second pass that starts at [next_id]. *)
Fixpoint renumbered (locations : list dict) (next_id : N) : list dict :=
  match locations with
  | [] => []
  | location :: rest =>
      if has_integer_id location then location :: renumbered rest next_id
      else setitem location "id" (JStr (numeral next_id))
             :: renumbered rest (next_id + 1)
  end.

(** The new IDs can be written: the last of them is below the bound of
    [str]. *)
Definition ids_fit (locations : list dict) : Prop :=
  (max_kept_id locations + N.of_nat (List.length (without_integer_id locations))
   < int_str_bound)%N.

Definition is_geocode_call (e : event) : bool :=
  match e with
  | CallGeocode _ _ => true
  | _ => false
  end.

Definition is_place_call (e : event) : bool :=
  match e with
  | CallPlace _ _ => true
  | _ => false
  end.

Definition is_remote_call (e : event) : bool :=
  match e with
  | CallGeocode _ _ | CallFindPlace _ _ | CallPlace _ _ => true
  | _ => false
  end.

Definition is_download (e : event) : bool :=
  match e with
  | StDownloadButton _ _ => true
  | _ => false
  end.

Definition is_error_shown (e : event) : bool :=
  match e with
  | StError _ => true
  | _ => false
  end.

(** A find-place answer with nothing to use: a failed call or no
    candidate. *)
Definition nothing_found (answer : exn + find_place_response) : Prop :=
  match answer with
  | inl _ => True
  | inr response => candidates response = []
  end.

(** An upload that is a list of objects. *)
Definition list_of_objects (upload : outcome json) : bool :=
  match upload with
  | Ret (JList l) =>
      forallb (fun v => match v with JDict _ => true | _ => false end) l
  | _ => false
  end.

End Vocabulary.

(** ** Vocabulary of the runs *)

Section RunVocabulary.
Context {F : PyFloat} {R : PyRepr} {G : GoogleMaps}.
Local Open Scope string_scope.

(** Events that are no call to the service. *)
Definition quiet (ev : list event) : Prop :=
  Forall (fun e => is_remote_call e = false) ev.

(** The query of [find_place]. *)
Definition find_place_query (location_name city state : json) : string :=
  py_str location_name ++ " in " ++ py_str city ++ ", " ++ py_str state.

Definition first_candidate (answer : exn + find_place_response) : option candidate :=
  match answer with
  | inr response => hd_error (candidates response)
  | inl _ => None
  end.

Definition details_of (answer : exn + place_response) : place_details :=
  match answer with
  | inr response =>
      match result response with
      | Some r => r
      | None => empty_details
      end
  | inl _ => empty_details
  end.

(** The place that the merge uses: a candidate with a non-empty
    identifier. *)
Definition usable_place_id (place : option candidate) : option string :=
  match place with
  | Some c =>
      if candidate_truthy c then
        match cand_place_id c with
        | Some place_id => if nonempty place_id then Some place_id else None
        | None => None
        end
      else None
  | None => None
  end.

(** The text that the geocoding sends. *)
Definition address_parts (location : dict) : list json :=
  filter truthy [ get location "address" (JStr ""); get location "city" (JStr "");
                  get location "state" (JStr ""); get location "postal" (JStr "");
                  JStr "USA" ].

Definition coordinates_missing (location : dict) : bool :=
  negb (truthy (get location "lat" JNull)) || negb (truthy (get location "lng" JNull)).

(** What the geocoding leaves in the record, from the answer. *)
Definition geocoded (location : dict) (answer : exn + list geocode_result) : dict :=
  match answer with
  | inr (c :: _) =>
      setitem (setitem location "lat" (JFloat (py_round (geo_lat c) 10)))
              "lng" (JFloat (py_round (geo_lng c) 10))
  | _ => location
  end.

(** The components of the details, [[]] when the key is missing. *)
Definition components_of (details : place_details) : list address_component :=
  match address_components details with
  | Some l => l
  | None => []
  end.

(** The value of ['weekday_text'] that the merge reads, with the defaults
    of the two [get]. *)
Definition weekday_text_of (details : place_details) : option (list string) :=
  match opening_hours details with
  | Some oh =>
      match weekday_text oh with
      | Some v => v
      | None => Some []
      end
  | None => Some []
  end.

(** The join of the address succeeds when the geocoding needs it. *)
Definition address_joins (location : dict) : Prop :=
  coordinates_missing location = true ->
  exists full_address, py_join ", " (address_parts location) = Ret full_address.

(** The geocoding stage: skipped, or one call and what it leaves. *)
Definition geocode_stage (location : dict) (w : world)
  (location1 : dict) (w1 : world) (ev : list event) : Prop :=
  (coordinates_missing location = false /\ location1 = location /\ w1 = w /\ ev = [])
  \/
  (coordinates_missing location = true /\
   exists full_address answer logs,
     py_join ", " (address_parts location) = Ret full_address /\
     remote_geocode full_address w = (answer, w1) /\
     location1 = geocoded location answer /\
     ev = CallGeocode full_address answer :: logs /\ quiet logs).

(** The place stage: skipped, or one details call and the merge. *)
Definition place_stage (location : dict) (place : option candidate) (w : world)
  (location2 : dict) (w2 : world) (ev : list event) : Prop :=
  (usable_place_id place = None /\ location2 = location /\ w2 = w /\ quiet ev)
  \/
  (exists place_id answer logs,
     usable_place_id place = Some place_id /\
     remote_place place_id w = (answer, w2) /\
     location2 = (if details_truthy (details_of answer)
                  then merge_details location (details_of answer)
                  else location) /\
     ev = CallPlace place_id answer :: logs /\ quiet logs).

(** The fields that no stage of the pipeline writes. *)
Definition carried_fields : list string :=
  ["name"; "category"; "address2"; "hours2"; "hours3"; "features"; "date"].

(** The extracted parts of the address, field by field. *)
Definition extracted_fields (parsed : parsed_address) : list (string * string) :=
  [ ("address", street_address_of parsed); ("city", pa_city parsed);
    ("state", pa_state parsed); ("postal", pa_postal parsed) ].

(** What [main] shows before it looks at the upload. *)
Definition intro_events : list event :=
  [ StTitle "Shotgun Spread Geocoder App";
    StWrite "Upload a JSON file with store location data, and the app will automatically retrieve each store's address details, including latitude, longitude, website, and other relevant information. It then generates a downloadable updated_locations.json file with the enhanced data for easy use.";
    StFileUploader "Choose a JSON file" ].

(** What [main] shows on an empty batch. *)
Definition empty_batch_events (button : bool) : list event :=
  StSuccess "Loaded 0 locations from the uploaded file."
  :: StButton "Update Locations"
  :: (if button
      then [ StProgress 0 1; StEmpty; StText "Processing complete.";
             StSuccess "Location data has been updated successfully.";
             StDownloadButton [] "updated_locations.json" ]
      else []).

End RunVocabulary.

(** ** Vocabulary of the further properties *)

Section MoreVocabulary.
Context {F : PyFloat} {R : PyRepr} {G : GoogleMaps}.

Definition is_log (e : event) : bool :=
  match e with
  | Log _ _ => true
  | _ => false
  end.

Definition is_warning (e : event) : bool :=
  match e with
  | Log WARNING _ => true
  | _ => false
  end.

Definition is_info (e : event) : bool :=
  match e with
  | Log INFO _ => true
  | _ => false
  end.

Definition is_sleep (e : event) : bool :=
  match e with
  | Sleep => true
  | _ => false
  end.

Definition is_find_place_call (e : event) : bool :=
  match e with
  | CallFindPlace _ _ => true
  | _ => false
  end.

Definition is_progress (e : event) : bool :=
  match e with
  | StProgress _ _ => true
  | _ => false
  end.

(** What [update_location_info] may emit: logs, sleeps and calls. *)
Definition backstage (e : event) : bool :=
  match e with
  | Log _ _ | Sleep | CallGeocode _ _ | CallFindPlace _ _ | CallPlace _ _ => true
  | _ => false
  end.

(** What [process_locations] may emit. *)
Definition processing (e : event) : bool :=
  match e with
  | StProgress _ _ | StEmpty | StText _ => true
  | _ => backstage e
  end.

(** A call after which the run sleeps: the find-place call, and a geocode
    or details call that answered. *)
Definition followed_by_sleep (e : event) : bool :=
  match e with
  | CallFindPlace _ _ => true
  | CallGeocode _ (inr _) => true
  | CallPlace _ (inr _) => true
  | _ => false
  end.

(** A value that makes the join of the address fail: true and no text. *)
Definition blocks_join (v : json) : bool := truthy v && negb (is_text v).

(** The four parts of the address of a record. *)
Definition address_fields (location : dict) : list json :=
  [ get location "address" (JStr ""); get location "city" (JStr "");
    get location "state" (JStr ""); get location "postal" (JStr "") ].

(** The text of a value, empty when it is no text. *)
Definition text_of (v : json) : string :=
  match v with
  | JStr s => s
  | _ => ""
  end.

(** The branch of the loop over the components that a component takes. *)
Definition sets_street_number (c : address_component) : bool :=
  has_type "street_number" (comp_types c).

Definition sets_route (c : address_component) : bool :=
  negb (has_type "street_number" (comp_types c))
  && has_type "route" (comp_types c).

Definition sets_city (c : address_component) : bool :=
  negb (has_type "street_number" (comp_types c))
  && negb (has_type "route" (comp_types c))
  && has_type "locality" (comp_types c).

Definition sets_state (c : address_component) : bool :=
  negb (has_type "street_number" (comp_types c))
  && negb (has_type "route" (comp_types c))
  && negb (has_type "locality" (comp_types c))
  && has_type "administrative_area_level_1" (comp_types c).

Definition sets_postal (c : address_component) : bool :=
  negb (has_type "street_number" (comp_types c))
  && negb (has_type "route" (comp_types c))
  && negb (has_type "locality" (comp_types c))
  && negb (has_type "administrative_area_level_1" (comp_types c))
  && has_type "postal_code" (comp_types c).

(** The name that the last component passing [test] gives, empty when
    there is none. *)
Definition last_name (test : address_component -> bool)
    (name : address_component -> option string)
    (components : list address_component) : string :=
  match find test (rev components) with
  | Some c => text_or_empty (name c)
  | None => ""
  end.

(** The fields that the merge writes. *)
Definition merged_fields : list string :=
  ["address"; "city"; "state"; "postal"; "phone"; "web"; "hours1"].

(** Every event of a computation passes [p]. *)
Definition emits {A} (p : event -> bool) (m : M A) : Prop :=
  forall w r w' ev, m w = (r, w', ev) -> Forall (fun e => p e = true) ev.

(** The first record that [assign_ids] cannot read, and the exception it
    raises on it. *)
Definition stops_at (locations : list dict) (e : exn) : Prop :=
  exists before bad after,
    locations = before ++ bad :: after /\
    Forall readable_id before /\
    ((id_text bad = None /\ e = AttributeError) \/
     (exists s, id_text bad = Some s /\ isdigit s = true /\ py_int s = None
                /\ e = ValueError)).

(** An item that is no object. *)
Definition no_object (v : json) : bool :=
  match v with
  | JDict _ => false
  | _ => true
  end.

Definition count (p : event -> bool) (ev : list event) : nat :=
  List.length (filter p ev).

(** Neither a call to the service nor a download. *)
Definition idle (e : event) : bool :=
  negb (is_remote_call e) && negb (is_download e).

(** A run whose only download, if any, is its last event, at the end of a
    run that returned after the button was pressed. *)
Definition download_at_end (button : bool) (r : outcome unit) (ev : list event)
  : Prop :=
  Forall (fun e => is_download e = false) ev \/
  (r = Ret tt /\ button = true /\
   exists before data,
     ev = before ++ [StDownloadButton data "updated_locations.json"] /\
     Forall (fun e => is_download e = false) before /\
     Forall canonical data).

End MoreVocabulary.

(** ** A concrete interpreter and service, for the examples *)

Module Demo.

(** Integers stand for the floats; rounding keeps them. *)
Definition demo_float : PyFloat :=
  {| num := Z;
     py_round := fun x _ => x;
     float_repr := str_of_Z;
     float_truthy := fun x => negb (x =? 0)%Z |}.

#[local] Existing Instance demo_float.

Definition demo_repr : PyRepr :=
  {| container_repr := fun _ => "[...]" |}.

Definition acme_details : place_details :=
  {| formatted_address := Some "1 Main St, Austin, TX 78701, USA";
     address_components := Some
       [ {| comp_types := ["street_number"]; comp_long_name := Some "1";
            comp_short_name := Some "1" |};
         {| comp_types := ["route"]; comp_long_name := Some "Main Street";
            comp_short_name := Some "Main St" |};
         {| comp_types := ["locality"; "political"]; comp_long_name := Some "Austin";
            comp_short_name := Some "Austin" |};
         {| comp_types := ["administrative_area_level_1"; "political"];
            comp_long_name := Some "Texas"; comp_short_name := Some "TX" |};
         {| comp_types := ["postal_code"]; comp_long_name := Some "78701";
            comp_short_name := Some "78701" |} ];
     formatted_phone_number := Some "(512) 555-0100";
     website := Some "https://acme.example";
     opening_hours := Some {| weekday_text := Some (Some ["Monday: 9-5"; "Tuesday: 9-5"]) |} |}.

(** A place with a website and nothing else. *)
Definition bare_details : place_details :=
  {| formatted_address := None; address_components := None;
     formatted_phone_number := None; website := Some "https://bare.example";
     opening_hours := None |}.

(** A service that knows two places and fails on everything else. *)
Definition demo_maps : GoogleMaps :=
  {| world := unit;
     remote_geocode := fun address w =>
       (if address =? "Austin, TX, USA"
        then inr [ {| geo_lat := 302672%Z : num; geo_lng := (-977431)%Z : num |} ]
        else if address =? "USA" then inr []
        else inl (Timeout "timed out"), w);
     remote_find_place := fun query w =>
       (if query =? "Acme Store in Austin, TX"
        then inr {| candidates :=
               [ {| cand_place_id := Some "acme"; cand_formatted_address := None;
                    cand_opening_hours := None |} ] |}
        else if query =? "Bare in Austin, TX"
        then inr {| candidates :=
               [ {| cand_place_id := Some "bare"; cand_formatted_address := None;
                    cand_opening_hours := None |} ] |}
        else inr {| candidates := [] |}, w);
     remote_place := fun place_id w =>
       (if place_id =? "acme" then inr {| result := Some acme_details |}
        else if place_id =? "bare" then inr {| result := Some bare_details |}
        else inl (ApiError "NOT_FOUND"), w) |}.

(** The records of the examples. *)

Definition acme_record : dict :=
  [("name", JStr "Acme Store"); ("city", JStr "Austin"); ("state", JStr "TX")].

(** A record with coordinates and opening hours, for a place whose details
    carry no opening hours. *)
Definition bare_record : dict :=
  [("id", JStr "7"); ("name", JStr "Bare"); ("lat", JStr "30.1");
   ("lng", JStr "-97.7"); ("city", JStr "Austin"); ("state", JStr "TX");
   ("hours1", JStr "Mon-Fri 9-5")].

(** A record with a longitude and an empty latitude. *)
Definition half_located_record : dict :=
  [("id", JStr "3"); ("name", JStr "Acme Store"); ("lat", JStr "");
   ("lng", JStr "-97.7"); ("city", JStr "Austin"); ("state", JStr "TX")].

(** A record that the service does not know. *)
Definition unknown_record : dict :=
  [("id", JStr "9"); ("name", JStr "Nowhere"); ("lat", JStr "1.5");
   ("lng", JStr "2.5"); ("address", JStr "9 Elm St"); ("phone", JStr "555-0199");
   ("hours1", JStr "Daily 8-8")].

(** Two batches for the ID assignment: one ID present and one missing, and
    the same ID twice. *)
Definition mixed_batch : list dict :=
  [ [("id", JStr "5"); ("name", JStr "A")]; [("name", JStr "B")] ].

Definition duplicate_batch : list dict :=
  [ [("id", JStr "5"); ("name", JStr "A")]; [("id", JStr "5"); ("name", JStr "B")] ].

End Demo.

(** Further records and a second service, for the further examples. *)

Module MoreDemo.
Import Demo.

#[local] Existing Instance demo_float.

(** A record with a name and nothing else. *)
Definition nameless_place : dict := [("name", JStr "Nowhere")].

(** A record with a longitude, an empty latitude and a city that the
    geocoder does not answer for. *)
Definition lost_record : dict :=
  [("id", JStr "4"); ("name", JStr "Nowhere"); ("lat", JStr "");
   ("lng", JStr "2.5"); ("city", JStr "Lost"); ("phone", JStr "555-0104")].

(** A batch of two records with coordinates. *)
Definition located_batch : list dict := [bare_record; unknown_record].

(** The text of [k] nines. *)
Fixpoint nines (k : nat) : string :=
  match k with
  | O => ""
  | S k => String "9" (nines k)
  end.

(** A batch whose largest ID leaves room for one new ID only: 4299 nines
    and an eight, and two records without an ID. *)
Definition crowded_batch : list dict :=
  [ [("id", JStr (nines 4299 ++ "8"))]; [("name", JStr "B")]; [("name", JStr "C")] ].

(** A service that finds a place for every query and fails on its
    details. *)
Definition failing_maps : GoogleMaps :=
  {| world := unit;
     remote_geocode := fun address w => (inr [], w);
     remote_find_place := fun query w =>
       (inr {| candidates :=
                 [ {| cand_place_id := Some "gone"; cand_formatted_address := None;
                      cand_opening_hours := None |} ] |}, w);
     remote_place := fun place_id w => (inl (ApiError "NOT_FOUND"), w) |}.

End MoreDemo.

(** ** Dictionaries *)

Section DictFacts.
Context {F : PyFloat}.

Lemma lookup_setitem_same (d : dict) k v : lookup (setitem d k v) k = Some v.
Proof.
  induction d as [|[k' v'] d IH]; simpl.
  - now rewrite String.eqb_refl.
  - destruct (k' =? k) eqn:E; simpl; rewrite E; auto.
Qed.

Lemma lookup_setitem_other (d : dict) k k' v :
  k <> k' -> lookup (setitem d k v) k' = lookup d k'.
Proof.
  intros Hne. induction d as [|[k0 v0] d IH]; simpl.
  - destruct (String.eqb_spec k k'); congruence.
  - destruct (String.eqb_spec k0 k) as [->|Hk]; simpl.
    + destruct (String.eqb_spec k k'); congruence.
    + destruct (k0 =? k'); auto.
Qed.

Lemma get_setitem_same (d : dict) k v dflt : get (setitem d k v) k dflt = v.
Proof. unfold get. now rewrite lookup_setitem_same. Qed.

Lemma get_setitem_other (d : dict) k k' v dflt :
  k <> k' -> get (setitem d k v) k' dflt = get d k' dflt.
Proof. intros H. unfold get. now rewrite lookup_setitem_other. Qed.

Lemma keys_setitem_present (d : dict) k v :
  In k (keys d) -> keys (setitem d k v) = keys d.
Proof.
  induction d as [|[k' v'] d IH]; simpl; [tauto|].
  intros [<-|Hin].
  - now rewrite String.eqb_refl.
  - destruct (k' =? k); simpl; [reflexivity|]. f_equal. now apply IH.
Qed.

Lemma reorder_eq (loc_data : dict) : normalized_from loc_data (reorder loc_data).
Proof. reflexivity. Qed.

Lemma keys_reorder (loc_data : dict) : canonical (reorder loc_data).
Proof. reflexivity. Qed.

Lemma lookup_reorder (loc_data : dict) field :
  In field EXPECTED_FIELDS ->
  lookup (reorder loc_data) field = Some (get loc_data field (JStr "")).
Proof.
  intros Hin. rewrite (reorder_eq loc_data).
  repeat (destruct Hin as [<-|Hin]; [reflexivity|]). destruct Hin.
Qed.

Lemma reorder_reorder (loc_data : dict) :
  reorder (reorder loc_data) = reorder loc_data.
Proof. reflexivity. Qed.

End DictFacts.

(** ** Numerals *)

Lemma length_string_of_uint (d : Decimal.uint) :
  String.length (NilEmpty.string_of_uint d) = Decimal.nb_digits d.
Proof. induction d; simpl; congruence. Qed.

Lemma to_uint_nonnil (n : N) : N.to_uint n <> Decimal.Nil.
Proof.
  destruct n as [|p]; simpl; [discriminate|].
  apply DecimalPos.Unsigned.to_uint_nonnil.
Qed.

Lemma length_numeral (n : N) :
  String.length (numeral n) = Decimal.nb_digits (N.to_uint n).
Proof.
  unfold numeral, NilZero.string_of_uint.
  generalize (to_uint_nonnil n). destruct (N.to_uint n) eqn:E; try congruence;
    intros _; apply length_string_of_uint.
Qed.

(** A numeral of [k] digits is below [10 ^ k]. *)
Lemma of_lu_below (d : Decimal.uint) :
  (Unsigned.of_lu d < 10 ^ N.of_nat (Decimal.nb_digits d))%N.
Proof.
  induction d; cbn [Decimal.nb_digits]; rewrite ?Nat2N.inj_succ, ?N.pow_succ_r';
    cbn [Unsigned.of_lu]; [simpl; lia|lia..].
Qed.

(** A numeral of [k] digits whose leading digit is not 0 is at least
    [10 ^ (k - 1)]. *)
Lemma of_lu_above (d : Decimal.uint) :
  DecimalFacts.nztail d = d -> d <> Decimal.Nil ->
  (10 ^ N.of_nat (Nat.pred (Decimal.nb_digits d)) <= Unsigned.of_lu d)%N.
Proof.
  assert (Hstep : forall d' (c : N),
    (d' = Decimal.Nil -> 1 <= c)%N ->
    (d' <> Decimal.Nil ->
     10 ^ N.of_nat (Nat.pred (Decimal.nb_digits d')) <= Unsigned.of_lu d')%N ->
    (10 ^ N.of_nat (Decimal.nb_digits d') <= c + 10 * Unsigned.of_lu d')%N).
  { intros d' c Hc Hd'. destruct d'; try (
      specialize (Hd' ltac:(discriminate)); cbn [Decimal.nb_digits Nat.pred] in *;
      rewrite Nat2N.inj_succ, N.pow_succ_r'; lia).
    simpl. specialize (Hc eq_refl). lia. }
  induction d; intros Hn Hne; [congruence|..]; cbn [Decimal.nb_digits Nat.pred];
    cbn [Unsigned.of_lu]; cbn [DecimalFacts.nztail] in Hn.
  - change (10 * Unsigned.of_lu d)%N with (0 + 10 * Unsigned.of_lu d)%N.
    destruct (DecimalFacts.nztail d) eqn:E; try discriminate; injection Hn as Hn;
      (apply Hstep; [intros ->; discriminate|]; intros Hd; apply IHd; congruence).
  - injection Hn as Hn. apply Hstep; [lia|auto].
  - injection Hn as Hn. apply Hstep; [lia|auto].
  - injection Hn as Hn. apply Hstep; [lia|auto].
  - injection Hn as Hn. apply Hstep; [lia|auto].
  - injection Hn as Hn. apply Hstep; [lia|auto].
  - injection Hn as Hn. apply Hstep; [lia|auto].
  - injection Hn as Hn. apply Hstep; [lia|auto].
  - injection Hn as Hn. apply Hstep; [lia|auto].
  - injection Hn as Hn. apply Hstep; [lia|auto].
Qed.

Lemma to_uint_little (n : N) :
  N.to_uint n = Decimal.rev (Unsigned.to_lu n) /\
  Unsigned.of_lu (Unsigned.to_lu n) = n /\
  (Unsigned.to_lu n = Decimal.zero \/
   (DecimalFacts.nztail (Unsigned.to_lu n) = Unsigned.to_lu n /\ Unsigned.to_lu n <> Decimal.Nil)).
Proof.
  assert (Hrev : N.to_uint n = Decimal.rev (Unsigned.to_lu n))
    by (destruct n; reflexivity).
  assert (Hval : Unsigned.of_lu (Unsigned.to_lu n) = n).
  { rewrite <- Unsigned.of_lu_rev, <- Hrev. apply DecimalN.Unsigned.of_to. }
  repeat split; trivial.
  assert (Hn := Unsigned.to_of_lu (Unsigned.to_lu n)). rewrite Hval in Hn.
  unfold DecimalFacts.lnorm in Hn. destruct (DecimalFacts.nztail (Unsigned.to_lu n)) eqn:E;
    [left; exact Hn|right; split; [congruence|rewrite Hn; discriminate]..].
Qed.

(** The numeral of [n] has at most [k] digits exactly when [n] is below
    [10 ^ k]. *)
Lemma numeral_digits (n : N) (k : nat) :
  1 <= k ->
  String.length (numeral n) <= k <-> (n < 10 ^ N.of_nat k)%N.
Proof.
  intros Hk. rewrite length_numeral.
  destruct (to_uint_little n) as (Hrev & Hval & Hnorm).
  rewrite Hrev, DecimalFacts.nb_digits_rev.
  assert (Hup := of_lu_below (Unsigned.to_lu n)). rewrite Hval in Hup.
  split.
  - intros Hle. eapply N.lt_le_trans; [exact Hup|].
    apply N.pow_le_mono_r; lia.
  - intros Hlt. destruct Hnorm as [-> | [Hnz Hne]]; [simpl; lia|].
    assert (Hlow := of_lu_above _ Hnz Hne). rewrite Hval in Hlow.
    assert (H : (10 ^ N.of_nat (Nat.pred (Decimal.nb_digits (Unsigned.to_lu n)))
                 < 10 ^ N.of_nat k)%N) by lia.
    apply N.pow_lt_mono_r_iff in H; lia.
Qed.

Lemma py_int_numeral_length (n : N) :
  String.length (numeral n) <= int_max_str_digits -> py_int (numeral n) = Some n.
Proof.
  intros H. unfold py_int. apply Nat.leb_le in H. rewrite H.
  unfold numeral. rewrite NilZero.usu by apply to_uint_nonnil. simpl.
  now rewrite DecimalN.Unsigned.of_to.
Qed.

Lemma int_max_str_digits_pos : 1 <= int_max_str_digits.
Proof. unfold int_max_str_digits. lia. Qed.

Lemma str_of_N_below (n : N) :
  (n < int_str_bound)%N -> str_of_N n = Some (numeral n).
Proof.
  intros H. apply (numeral_digits n _ int_max_str_digits_pos) in H.
  unfold str_of_N. apply Nat.leb_le in H. now rewrite H.
Qed.

Lemma str_of_N_above (n : N) : (int_str_bound <= n)%N -> str_of_N n = None.
Proof.
  intros H. unfold str_of_N.
  destruct (Nat.leb (String.length (numeral n)) int_max_str_digits) eqn:E;
    [|reflexivity].
  apply Nat.leb_le, (numeral_digits n _ int_max_str_digits_pos) in E.
  unfold int_str_bound in H. lia.
Qed.

Lemma str_of_N_inv (n : N) text :
  str_of_N n = Some text -> text = numeral n /\ (n < int_str_bound)%N.
Proof.
  intros H. destruct (N.lt_ge_cases n int_str_bound) as [Hlt|Hge].
  - rewrite (str_of_N_below n Hlt) in H. now injection H as <-.
  - rewrite (str_of_N_above n Hge) in H. discriminate.
Qed.

Lemma py_int_numeral (n : N) :
  (n < int_str_bound)%N -> py_int (numeral n) = Some n.
Proof.
  intros H. apply py_int_numeral_length.
  now apply (numeral_digits n _ int_max_str_digits_pos).
Qed.

(** What [int] reads is below the bound. *)
Lemma py_int_below (s : string) n : py_int s = Some n -> (n < int_str_bound)%N.
Proof.
  unfold py_int.
  destruct (Nat.leb (String.length s) int_max_str_digits) eqn:El; [|discriminate].
  destruct (NilZero.uint_of_string s) as [d|] eqn:Ed; [|discriminate].
  intros [= <-]. apply Nat.leb_le in El.
  assert (Hs := NilZero.sus s d Ed).
  assert (Hne : d <> Decimal.Nil).
  { intros ->. now apply (NilZero.uint_of_string_nonnil s). }
  assert (Hlen : String.length s = Decimal.nb_digits d).
  { rewrite <- Hs. unfold NilZero.string_of_uint.
    destruct d; try congruence; apply length_string_of_uint. }
  unfold N.of_uint. rewrite Unsigned.of_uint_alt.
  eapply N.lt_le_trans; [apply of_lu_below|].
  rewrite DecimalFacts.nb_digits_rev, <- Hlen. unfold int_str_bound.
  apply N.pow_le_mono_r; lia.
Qed.

(** A number whose numeral has few enough digits is below the bound. *)
Lemma below_bound_of_digits (n : N) :
  Nat.leb (String.length (numeral n)) int_max_str_digits = true ->
  (n < int_str_bound)%N.
Proof.
  intros H. apply Nat.leb_le in H.
  now apply (numeral_digits n _ int_max_str_digits_pos).
Qed.

Lemma digits_of_numeral (s : string) d :
  NilEmpty.uint_of_string s = Some d -> all_chars isdigit_char s = true.
Proof.
  revert d. induction s as [|c s IH]; simpl; intros d H; [reflexivity|].
  destruct (NilEmpty.uint_of_string s) as [d'|] eqn:E; [|discriminate].
  rewrite (IH d' eq_refl), andb_true_r.
  apply uint_of_char_spec in H.
  repeat (destruct H as [[-> _]|H]; [reflexivity|]).
  destruct H as [-> _]. reflexivity.
Qed.

Lemma isdigit_of_py_int (s : string) n : py_int s = Some n -> isdigit s = true.
Proof.
  unfold py_int, NilZero.uint_of_string, isdigit.
  destruct (Nat.leb (String.length s) int_max_str_digits); [|discriminate].
  destruct s as [|c s]; [discriminate|].
  destruct (NilEmpty.uint_of_string (String c s)) as [d|] eqn:E; [|discriminate].
  intros _. now apply digits_of_numeral with d.
Qed.

Lemma isdigit_numeral (n : N) : isdigit (numeral n) = true.
Proof.
  unfold numeral, isdigit, NilZero.string_of_uint.
  generalize (to_uint_nonnil n).
  assert (H : forall d, all_chars isdigit_char (NilEmpty.string_of_uint d) = true)
    by (induction d; simpl; auto).
  destruct (N.to_uint n) eqn:E; try congruence; intros _; rewrite <- E;
    (destruct (NilEmpty.string_of_uint (N.to_uint n)) eqn:E';
     [rewrite E in E'; discriminate|rewrite <- E'; apply H]).
Qed.

(** ** Running computations *)

Section MonadFacts.
Context {F : PyFloat} {G : GoogleMaps}.

Lemma bind_returns {A B} (m : M A) (k : A -> M B) w a w1 ev1 :
  m w = (Ret a, w1, ev1) ->
  bind m k w = (let '(r, w2, ev2) := k a w1 in (r, w2, ev1 ++ ev2)%list).
Proof. intros H. unfold bind. rewrite H. reflexivity. Qed.

Lemma bind_raises {A B} (m : M A) (k : A -> M B) w e w1 ev1 :
  m w = (Raise e, w1, ev1) -> bind m k w = (Raise e, w1, ev1).
Proof. intros H. unfold bind. rewrite H. reflexivity. Qed.

Lemma bind_inv {A B} (m : M A) (k : A -> M B) w b w2 ev :
  bind m k w = (Ret b, w2, ev) ->
  exists a w1 ev1 ev2,
    m w = (Ret a, w1, ev1) /\ k a w1 = (Ret b, w2, ev2) /\ ev = (ev1 ++ ev2)%list.
Proof.
  unfold bind. destruct (m w) as [[[a|e] w1] ev1]; [|discriminate].
  destruct (k a w1) as [[r w2'] ev2] eqn:E. intros [= -> -> <-].
  now exists a, w1, ev1, ev2.
Qed.

End MonadFacts.

(** ** ID assignment *)

Section AssignIds.
Context {F : PyFloat} {R : PyRepr} {G : GoogleMaps}.

Lemma readable_kept (location : dict) :
  readable_id location -> has_integer_id location = true ->
  exists n, id_number location = Some n.
Proof.
  intros (s & Hs & Hd). unfold has_integer_id, id_number. rewrite Hs.
  intros Hi. rewrite Hi. auto.
Qed.

Lemma not_kept_number (location : dict) :
  has_integer_id location = false -> id_number location = None.
Proof.
  unfold has_integer_id, id_number. destruct (id_text location); [|reflexivity].
  now intros ->.
Qed.

Lemma collect_ids_returns (locations : list dict) :
  Forall readable_id locations ->
  forall existing_ids max_id w,
  exists seen ev,
    collect_ids locations existing_ids max_id w
    = (Ret (seen, N.max max_id (max_kept_id locations)), w, ev).
Proof.
  induction 1 as [|location rest Hr _ IH]; intros existing_ids max_id w; simpl.
  - exists existing_ids, []. unfold max_kept_id; simpl. now rewrite N.max_0_r.
  - destruct Hr as (s & Hs & Hd). unfold max_kept_id, kept_numbers; simpl.
    unfold id_number at 1. rewrite Hs.
    unfold id_text in Hs. destruct (get location "id" (JStr "")); try discriminate.
    injection Hs as ->. destruct (isdigit s) eqn:Ed.
    + destruct (Hd eq_refl) as [n ->]. simpl.
      destruct (IH (n :: existing_ids) (N.max max_id n) w) as (seen & ev & ->).
      exists seen, ev. unfold max_kept_id, kept_numbers. now rewrite N.max_assoc.
    + simpl. destruct (IH existing_ids max_id w) as (seen & ev & E).
      eexists seen, _. unfold bind, log_warning, emit. rewrite E. reflexivity.
Qed.

Lemma without_integer_id_cons (l : dict) rest :
  without_integer_id (l :: rest)
  = if has_integer_id l then without_integer_id rest
    else l :: without_integer_id rest.
Proof. unfold without_integer_id. simpl. now destruct (has_integer_id l). Qed.

(** The second pass returns when the numbers that it hands out are below
    the bound of [str]. *)
Lemma assign_new_ids_returns (locations : list dict) :
  Forall readable_id locations ->
  forall next_id w,
  (next_id + N.of_nat (List.length (without_integer_id locations))
   <= int_str_bound)%N ->
  exists ev,
    assign_new_ids locations next_id w = (Ret (renumbered locations next_id), w, ev).
Proof.
  induction 1 as [|location rest Hr _ IH]; intros next_id w Hfit; simpl.
  - now exists [].
  - rewrite without_integer_id_cons in Hfit.
    destruct Hr as (s & Hs & _). unfold has_integer_id in *. rewrite Hs in *.
    unfold id_text in Hs. destruct (get location "id" (JStr "")); try discriminate.
    injection Hs as ->. destruct (isdigit s).
    + destruct (IH next_id w Hfit) as (ev & E). eexists.
      unfold bind, ret. rewrite E. reflexivity.
    + simpl List.length in Hfit.
      rewrite str_of_N_below by lia.
      destruct (IH (next_id + 1)%N w) as (ev & E); [lia|]. eexists.
      unfold bind, ret, log_info, emit. rewrite E. reflexivity.
Qed.

(** The largest kept ID is one that [int] has read. *)
Lemma max_kept_id_below (locations : list dict) :
  (max_kept_id locations < int_str_bound)%N.
Proof.
  assert (Hpos : (0 < int_str_bound)%N).
  { unfold int_str_bound. apply N.neq_0_lt_0, N.pow_nonzero. discriminate. }
  unfold max_kept_id, kept_numbers.
  induction locations as [|l rest IH]; simpl; [exact Hpos|].
  unfold id_number at 1. destruct (id_text l) as [s|]; [|exact IH].
  destruct (isdigit s); [|exact IH].
  destruct (py_int s) as [n|] eqn:E; [|exact IH].
  apply py_int_below in E. simpl. lia.
Qed.

Lemma assign_ids_returns (locations : list dict) w :
  Forall readable_id locations -> ids_fit locations ->
  exists ev,
    assign_ids locations w
    = (Ret (renumbered locations (max_kept_id locations + 1)), w, ev).
Proof.
  intros Hr Hfit. unfold assign_ids.
  destruct (collect_ids_returns locations Hr [] 0%N w) as (seen & ev1 & E1).
  destruct (assign_new_ids_returns locations Hr (max_kept_id locations + 1)%N w)
    as (ev2 & E2); [unfold ids_fit in Hfit; lia|].
  exists (ev1 ++ ev2)%list. rewrite (bind_returns _ _ _ _ _ _ E1). simpl.
  rewrite N.max_0_l, E2. reflexivity.
Qed.

End AssignIds.

Section Renumbering.
Context {F : PyFloat}.

Lemma id_text_setitem (location : dict) n :
  id_text (setitem location "id" (JStr (numeral n))) = Some (numeral n).
Proof. unfold id_text. now rewrite get_setitem_same. Qed.

Lemma id_number_setitem_N (location : dict) n :
  (n < int_str_bound)%N ->
  id_number (setitem location "id" (JStr (numeral n))) = Some n.
Proof.
  intros Hn. unfold id_number. rewrite id_text_setitem, isdigit_numeral.
  now apply py_int_numeral.
Qed.

Lemma id_number_of_text (a b : dict) :
  id_text a = id_text b -> id_number a = id_number b.
Proof. unfold id_number. now intros ->. Qed.

Lemma length_renumbered (locations : list dict) next_id :
  List.length (renumbered locations next_id) = List.length locations.
Proof.
  revert next_id. induction locations as [|l rest IH]; intros; simpl; [reflexivity|].
  destruct (has_integer_id l); simpl; now rewrite IH.
Qed.

Lemma nth_renumbered (locations : list dict) :
  forall next_id i location,
  nth_error locations i = Some location ->
  nth_error (renumbered locations next_id) i
  = Some (if has_integer_id location then location
          else setitem location "id"
                 (JStr (numeral (next_id
                    + N.of_nat (List.length (without_integer_id (firstn i locations))))))).
Proof.
  induction locations as [|l rest IH]; intros next_id [|i] location; simpl;
    try discriminate.
  - intros [= ->]. destruct (has_integer_id location); simpl; [reflexivity|].
    now rewrite N.add_0_r.
  - intros H. destruct (has_integer_id l) eqn:E; simpl.
    + now rewrite (IH next_id i location H).
    + rewrite (IH (next_id + 1)%N i location H).
      destruct (has_integer_id location); [reflexivity|].
      do 4 f_equal. lia.
Qed.

(** The records without an integer ID before one of them are fewer than
    those of the batch. *)
Lemma without_integer_id_before (locations : list dict) :
  forall i location,
  nth_error locations i = Some location -> has_integer_id location = false ->
  List.length (without_integer_id (firstn i locations))
  < List.length (without_integer_id locations).
Proof.
  induction locations as [|l rest IH]; intros [|i] location; simpl firstn;
    simpl nth_error; try discriminate.
  - intros [= ->] Hno. rewrite without_integer_id_cons, Hno. simpl. lia.
  - intros Hnth Hno. specialize (IH i location Hnth Hno).
    rewrite !without_integer_id_cons. destruct (has_integer_id l); simpl; lia.
Qed.

(** A record of the result is a kept record of the batch or carries a
    number from [next_id] on, which [int] reads back when the numbers
    handed out are below the bound. *)
Lemma in_renumbered (locations : list dict) :
  forall next_id location',
  (next_id + N.of_nat (List.length (without_integer_id locations))
   <= int_str_bound)%N ->
  In location' (renumbered locations next_id) ->
  (In location' locations /\ has_integer_id location' = true) \/
  (exists n, (next_id <= n)%N /\ id_text location' = Some (numeral n)
             /\ id_number location' = Some n).
Proof.
  induction locations as [|l rest IH]; intros next_id location' Hfit; simpl; [tauto|].
  rewrite without_integer_id_cons in Hfit.
  destruct (has_integer_id l) eqn:E; simpl.
  - intros [<-|Hin]; [left; auto|].
    destruct (IH _ _ Hfit Hin) as [[? ?]|?]; [left|right]; auto.
  - simpl List.length in Hfit. intros [<-|Hin].
    + right. exists next_id. split; [lia|].
      split; [apply id_text_setitem|].
      apply id_number_setitem_N. lia.
    + destruct (IH (next_id + 1)%N location') as [[? ?]|(n & Hn & Ht & Hi)];
        [lia|exact Hin|left; auto|].
      right. exists n. split; [lia|auto].
Qed.

Lemma kept_number_le_max (locations : list dict) n :
  In n (kept_numbers locations) -> (n <= max_kept_id locations)%N.
Proof.
  unfold max_kept_id. induction (kept_numbers locations) as [|m l IH]; simpl; [tauto|].
  intros [->|Hin]; [lia|]. specialize (IH Hin). lia.
Qed.

Lemma in_kept_numbers (locations : list dict) location n :
  In location locations -> id_number location = Some n ->
  In n (kept_numbers locations).
Proof.
  intros Hin Hn. unfold kept_numbers. apply in_flat_map.
  exists location. split; [assumption|]. rewrite Hn. now left.
Qed.

Lemma kept_numbers_cons (l : dict) rest :
  kept_numbers (l :: rest)
  = (match id_number l with Some n => [n] | None => [] end ++ kept_numbers rest)%list.
Proof. reflexivity. Qed.

(** Uniqueness of the IDs, as text and as numbers, when the kept IDs are
    below [next_id] and distinct. *)
Lemma NoDup_renumbered {K} (key : dict -> K) (locations : list dict) :
  (forall a b, key a = key b -> id_number a = id_number b) ->
  forall next_id,
  (next_id + N.of_nat (List.length (without_integer_id locations))
   <= int_str_bound)%N ->
  (forall l n, In l locations -> id_number l = Some n -> (n < next_id)%N) ->
  Forall (fun l => has_integer_id l = true -> exists n, id_number l = Some n) locations ->
  NoDup (map key (filter has_integer_id locations)) ->
  NoDup (map key (renumbered locations next_id)).
Proof.
  intros Hkey.
  induction locations as [|l rest IH]; intros next_id Hfit Hlt Hread Hnd; simpl.
  - constructor.
  - inversion Hread as [|? ? Hl Hrest]; subst.
    rewrite without_integer_id_cons in Hfit.
    simpl in Hnd. destruct (has_integer_id l) eqn:E; simpl.
    + inversion Hnd as [|? ? Hnotin Hnd']; subst. constructor.
      * intros Hin. apply in_map_iff in Hin. destruct Hin as (l' & Hk & Hin).
        destruct (in_renumbered _ _ _ Hfit Hin) as [[Hin' Hi]|(n & Hn & _ & Hnum)].
        -- apply Hnotin. apply in_map_iff. exists l'. split; [assumption|].
           apply filter_In. auto.
        -- destruct (Hl eq_refl) as [m Hm].
           assert (Hlm := Hlt l m (or_introl eq_refl) Hm).
           apply Hkey in Hk. rewrite Hnum, Hm in Hk. injection Hk as ->. lia.
      * apply IH; auto. intros l0 n Hin. apply Hlt. now right.
    + simpl List.length in Hfit.
      assert (Hfit' : (next_id + 1
                       + N.of_nat (List.length (without_integer_id rest))
                       <= int_str_bound)%N) by lia.
      constructor.
      * intros Hin. apply in_map_iff in Hin. destruct Hin as (l' & Hk & Hin).
        apply Hkey in Hk. rewrite id_number_setitem_N in Hk by lia.
        destruct (in_renumbered _ _ _ Hfit' Hin) as [[Hin' Hi]|(n & Hn & _ & Hnum)].
        -- inversion Hread; subst.
           assert (Hr : exists m, id_number l' = Some m).
           { rewrite Forall_forall in Hrest. now apply Hrest. }
           destruct Hr as [m Hm]. assert (Hlm := Hlt l' m (or_intror Hin') Hm).
           rewrite Hm in Hk. injection Hk as ->. lia.
        -- rewrite Hnum in Hk. injection Hk as ->. lia.
      * apply IH; auto. intros l0 n Hin Hn.
        assert (Hlm := Hlt l0 n (or_intror Hin) Hn). lia.
Qed.

End Renumbering.

Section AssignIdsSpec.
Context {F : PyFloat} {R : PyRepr} {G : GoogleMaps}.

(** [assign_ids] returns only on batches whose IDs it can read. *)
Lemma collect_ids_readable (locations : list dict) :
  forall existing_ids max_id w seen w' ev,
  collect_ids locations existing_ids max_id w = (Ret seen, w', ev) ->
  Forall readable_id locations.
Proof.
  induction locations as [|l rest IH]; intros existing_ids max_id w seen w' ev;
    simpl; [constructor|].
  destruct (get l "id" (JStr "")) as [| | | |s| |] eqn:Eg; try discriminate.
  assert (Ht : id_text l = Some s) by (unfold id_text; now rewrite Eg).
  destruct (isdigit s) eqn:Ed.
  - destruct (py_int s) as [n|] eqn:Ei; [|discriminate].
    intros H. constructor; [|eapply IH; eassumption].
    exists s. split; [assumption|]. intros _. now exists n.
  - intros H. apply bind_inv in H. destruct H as (? & ? & ? & ? & _ & H & _).
    constructor; [|eapply IH; eassumption].
    exists s. split; [assumption|]. congruence.
Qed.

Lemma assign_ids_readable (locations : list dict) w out w' ev :
  assign_ids locations w = (Ret out, w', ev) -> Forall readable_id locations.
Proof.
  unfold assign_ids. intros H. apply bind_inv in H.
  destruct H as (seen & w1 & ev1 & ev2 & H & _). eapply collect_ids_readable, H.
Qed.

(** The second pass returns only when the numbers it hands out are below
    the bound of [str]. *)
Lemma assign_new_ids_fit (locations : list dict) :
  forall next_id w out w' ev,
  assign_new_ids locations next_id w = (Ret out, w', ev) ->
  (next_id <= int_str_bound)%N ->
  (next_id + N.of_nat (List.length (without_integer_id locations))
   <= int_str_bound)%N.
Proof.
  induction locations as [|l rest IH]; intros next_id w out w' ev; [simpl; lia|].
  cbn [assign_new_ids]. rewrite without_integer_id_cons.
  unfold has_integer_id, id_text.
  destruct (get l "id" (JStr "")) as [| | | |s| |]; try discriminate.
  destruct (isdigit s).
  - intros H Hle. apply bind_inv in H.
    destruct H as (? & ? & ? & ? & H & _). eapply IH; eassumption.
  - destruct (str_of_N next_id) as [text|] eqn:Et; [|discriminate].
    apply str_of_N_inv in Et. destruct Et as [_ Hlt].
    intros H Hle. apply bind_inv in H. destruct H as (? & ? & ? & ? & _ & H & _).
    apply bind_inv in H. destruct H as (? & ? & ? & ? & H & _).
    apply IH in H; [|lia]. simpl List.length. lia.
Qed.

Lemma collect_ids_max (locations : list dict) :
  forall existing_ids max_id w seen w' ev,
  collect_ids locations existing_ids max_id w = (Ret seen, w', ev) ->
  snd seen = N.max max_id (max_kept_id locations).
Proof.
  intros existing_ids max_id w seen w' ev H.
  destruct (collect_ids_returns locations (collect_ids_readable _ _ _ _ _ _ _ H)
              existing_ids max_id w) as (seen' & ev' & E).
  rewrite E in H. now injection H as <- _ _.
Qed.

Lemma assign_ids_fit (locations : list dict) w out w' ev :
  assign_ids locations w = (Ret out, w', ev) -> ids_fit locations.
Proof.
  unfold assign_ids. intros H. apply bind_inv in H.
  destruct H as (seen & w1 & ev1 & ev2 & H1 & H2 & _).
  apply collect_ids_max in H1. rewrite H1, N.max_0_l in H2.
  apply assign_new_ids_fit in H2.
  - unfold ids_fit. lia.
  - assert (Hm := max_kept_id_below locations). lia.
Qed.

(** C2 (as amended): on a batch whose IDs can be read and whose new IDs
    stay within the digits that [str] writes, [assign_ids] returns; a record
    with a digit-only ID is kept as it is; every other record gets, in input
    order, the numbers from one more than the largest kept ID on, from 1
    when no ID is kept; every record then has an integer ID, every new ID is
    above every kept one, and the IDs of the batch are pairwise distinct
    provided the kept ones were. *)
Theorem assign_ids_spec (locations : list dict) (w : world) :
  Forall readable_id locations -> ids_fit locations ->
  exists out ev,
    assign_ids locations w = (Ret out, w, ev) /\
    List.length out = List.length locations /\
    (forall i location,
        nth_error locations i = Some location ->
        nth_error out i
        = Some (if has_integer_id location then location
                else setitem location "id"
                       (JStr (numeral
                          (max_kept_id locations + 1
                           + N.of_nat (List.length
                               (without_integer_id (firstn i locations)))))))) /\
    (kept_numbers locations = [] -> max_kept_id locations + 1 = 1)%N /\
    Forall (fun location => exists n, id_number location = Some n) out /\
    (forall i location location',
        nth_error locations i = Some location ->
        has_integer_id location = false ->
        nth_error out i = Some location' ->
        exists n, id_number location' = Some n /\
                  forall m, In m (kept_numbers locations) -> (m < n)%N) /\
    (NoDup (map id_text (filter has_integer_id locations)) ->
     NoDup (map id_text out)) /\
    (NoDup (map id_number (filter has_integer_id locations)) ->
     NoDup (map id_number out)).
Proof.
  intros Hr Hfit. destruct (assign_ids_returns locations w Hr Hfit) as (ev & E).
  exists (renumbered locations (max_kept_id locations + 1)), ev.
  assert (Hfit' : (max_kept_id locations + 1
                   + N.of_nat (List.length (without_integer_id locations))
                   <= int_str_bound)%N) by (unfold ids_fit in Hfit; lia).
  assert (Hlt : forall l n, In l locations -> id_number l = Some n ->
                            (n < max_kept_id locations + 1)%N).
  { intros l n Hin Hn.
    assert (Hle := kept_number_le_max _ _ (in_kept_numbers _ _ _ Hin Hn)). lia. }
  assert (Hread : Forall (fun l => has_integer_id l = true ->
                                   exists n, id_number l = Some n) locations).
  { eapply Forall_impl; [|exact Hr]. intros l. apply readable_kept. }
  split; [exact E|]. split; [apply length_renumbered|].
  split; [intros i location; apply nth_renumbered|].
  split; [unfold max_kept_id; now intros ->|].
  split.
  { apply Forall_forall. intros l' Hin.
    destruct (in_renumbered _ _ _ Hfit' Hin) as [[Hin' Hi]|(n & _ & _ & Hn)].
    - rewrite Forall_forall in Hread. now apply Hread.
    - now exists n. }
  split.
  { intros i location location' Hnth Hno Hout.
    rewrite (nth_renumbered _ _ _ _ Hnth), Hno in Hout. injection Hout as <-.
    eexists. split.
    { apply id_number_setitem_N.
      assert (Hbefore := without_integer_id_before locations i location Hnth Hno).
      lia. }
    intros m Hm. apply kept_number_le_max in Hm. lia. }
  split.
  - apply NoDup_renumbered; auto. apply id_number_of_text.
  - apply NoDup_renumbered; auto.
Qed.

End AssignIdsSpec.

(** ** The stages of the enrichment *)

Section Stages.
Context {F : PyFloat} {R : PyRepr} {G : GoogleMaps}.

Lemma quiet_app ev1 ev2 : quiet ev1 -> quiet ev2 -> quiet (ev1 ++ ev2).
Proof. intros H1 H2. apply Forall_app. now split. Qed.

Lemma quiet_not_in ev e : quiet ev -> is_remote_call e = true -> ~ In e ev.
Proof.
  intros Hq He Hin. unfold quiet in Hq. rewrite Forall_forall in Hq.
  specialize (Hq e Hin). congruence.
Qed.

Local Ltac quiet_tac :=
  repeat (apply Forall_cons; [reflexivity|]); try apply Forall_nil.

Lemma find_place_run (location_name city state : json) w answer w1 :
  remote_find_place (find_place_query location_name city state) w = (answer, w1) ->
  exists logs,
    find_place location_name city state w
    = (Ret (first_candidate answer), w1,
       CallFindPlace (find_place_query location_name city state) answer :: logs)
    /\ quiet logs.
Proof.
  intros E. unfold find_place, try_except, bind, call.
  fold (find_place_query location_name city state). rewrite E.
  destruct answer as [e|response]; simpl.
  - destruct (is_api_error e); simpl; eexists; split; try reflexivity; quiet_tac.
  - destruct (candidates response); simpl; eexists; split; try reflexivity; quiet_tac.
Qed.

Lemma get_place_details_run (place_id : string) w answer w1 :
  remote_place place_id w = (answer, w1) ->
  exists logs,
    get_place_details place_id w
    = (Ret (details_of answer), w1, CallPlace place_id answer :: logs)
    /\ quiet logs.
Proof.
  intros E. unfold get_place_details, try_except, bind, call. rewrite E.
  destruct answer as [e|response]; simpl.
  - destruct (is_api_error e); simpl; eexists; split; try reflexivity; quiet_tac.
  - eexists; split; try reflexivity; quiet_tac.
Qed.

Lemma merge_place_skipped (location : dict) location_id place w :
  usable_place_id place = None ->
  exists logs,
    merge_place location location_id place w = (Ret location, w, logs) /\ quiet logs.
Proof.
  unfold usable_place_id, merge_place. intros H.
  destruct place as [c|]; [destruct (candidate_truthy c);
    [destruct (cand_place_id c) as [p|]; [destruct (nonempty p); [discriminate|]|]|]|];
  eexists; (split; [reflexivity|quiet_tac]).
Qed.

Lemma merge_place_run (location : dict) location_id place place_id w answer w1 :
  usable_place_id place = Some place_id ->
  remote_place place_id w = (answer, w1) ->
  exists logs,
    merge_place location location_id place w
    = (Ret (if details_truthy (details_of answer)
            then merge_details location (details_of answer)
            else location),
       w1, CallPlace place_id answer :: logs)
    /\ quiet logs.
Proof.
  unfold usable_place_id, merge_place. intros H E.
  destruct place as [c|]; [|discriminate].
  destruct (candidate_truthy c); [|discriminate].
  destruct (cand_place_id c) as [p|]; [|discriminate].
  destruct (nonempty p); [|discriminate]. injection H as ->.
  destruct (get_place_details_run place_id w answer w1 E) as (logs & Eg & Hq).
  unfold bind. rewrite Eg.
  destruct (details_truthy (details_of answer)); simpl;
    eexists; (split; [reflexivity|]); apply quiet_app; auto; quiet_tac.
Qed.

Lemma geocode_missing_skipped (location : dict) location_id w :
  coordinates_missing location = false ->
  geocode_missing location location_id (get location "city" (JStr ""))
    (get location "state" (JStr "")) (get location "postal" (JStr "")) w
  = (Ret location, w, []).
Proof.
  unfold coordinates_missing, geocode_missing. now intros ->.
Qed.

Lemma geocode_missing_run (location : dict) location_id w full_address answer w1 :
  coordinates_missing location = true ->
  py_join ", " (address_parts location) = Ret full_address ->
  remote_geocode full_address w = (answer, w1) ->
  exists logs,
    geocode_missing location location_id (get location "city" (JStr ""))
      (get location "state" (JStr "")) (get location "postal" (JStr "")) w
    = (Ret (geocoded location answer), w1, CallGeocode full_address answer :: logs)
    /\ quiet logs.
Proof.
  unfold coordinates_missing, geocode_missing, address_parts. intros -> Ej E.
  unfold bind at 1. rewrite Ej. simpl lift. unfold ret at 1.
  unfold try_except, bind, call. rewrite E.
  destruct answer as [e|[|c rest]]; simpl.
  - destruct (is_api_error e); simpl; eexists; split; try reflexivity; quiet_tac.
  - eexists; split; try reflexivity; quiet_tac.
  - eexists; split; try reflexivity; quiet_tac.
Qed.

Lemma geocode_missing_raises (location : dict) location_id w e :
  coordinates_missing location = true ->
  py_join ", " (address_parts location) = Raise e ->
  geocode_missing location location_id (get location "city" (JStr ""))
    (get location "state" (JStr "")) (get location "postal" (JStr "")) w
  = (Raise e, w, []).
Proof.
  unfold coordinates_missing, geocode_missing, address_parts. intros -> Ej.
  unfold bind at 1. rewrite Ej. reflexivity.
Qed.

End Stages.

(** ** What each stage writes *)

Section Frames.
Context {F : PyFloat} {R : PyRepr}.

Local Ltac dict_tac :=
  repeat first
    [ rewrite lookup_setitem_same
    | (rewrite lookup_setitem_other by (try discriminate; congruence))
    | rewrite get_setitem_same
    | (rewrite get_setitem_other by (try discriminate; congruence)) ].

Lemma lookup_geocoded (location : dict) answer k :
  k <> "lat" -> k <> "lng" ->
  lookup (geocoded location answer) k = lookup location k.
Proof.
  intros H1 H2. destruct answer as [e|[|c rest]]; simpl; auto. now dict_tac.
Qed.

Lemma get_geocoded (location : dict) answer k dflt :
  k <> "lat" -> k <> "lng" ->
  get (geocoded location answer) k dflt = get location k dflt.
Proof. intros H1 H2. unfold get. now rewrite lookup_geocoded. Qed.

Lemma lookup_merge_details_other (location : dict) details k :
  k <> "address" -> k <> "city" -> k <> "state" -> k <> "postal" ->
  k <> "phone" -> k <> "web" -> k <> "hours1" ->
  lookup (merge_details location details) k = lookup location k.
Proof.
  intros. unfold merge_details.
  destruct (match opening_hours details with
            | Some oh => match weekday_text oh with Some v => v | None => Some [] end
            | None => Some []
            end); now dict_tac.
Qed.

Lemma get_merge_details_other (location : dict) details k dflt :
  k <> "address" -> k <> "city" -> k <> "state" -> k <> "postal" ->
  k <> "phone" -> k <> "web" -> k <> "hours1" ->
  get (merge_details location details) k dflt = get location k dflt.
Proof. intros. unfold get. now rewrite lookup_merge_details_other. Qed.

Lemma lookup_merge_details_address (location : dict) details :
  let parsed := parse_components (components_of details) in
  lookup (merge_details location details) "address"
  = Some (str_or (street_address_of parsed) (get location "address" (JStr ""))) /\
  lookup (merge_details location details) "city"
  = Some (str_or (pa_city parsed) (get location "city" (JStr ""))) /\
  lookup (merge_details location details) "state"
  = Some (str_or (pa_state parsed) (get location "state" (JStr ""))) /\
  lookup (merge_details location details) "postal"
  = Some (str_or (pa_postal parsed) (get location "postal" (JStr ""))).
Proof.
  unfold merge_details. fold (components_of details).
  destruct (match opening_hours details with
            | Some oh => match weekday_text oh with Some v => v | None => Some [] end
            | None => Some []
            end); cbv zeta; repeat split; now dict_tac.
Qed.

Lemma lookup_merge_details_contact (location : dict) details :
  lookup (merge_details location details) "phone"
  = Some (match formatted_phone_number details with
          | Some v => JStr v
          | None => get location "phone" (JStr "")
          end) /\
  lookup (merge_details location details) "web"
  = Some (match website details with
          | Some v => JStr v
          | None => get location "web" (JStr "")
          end).
Proof.
  unfold merge_details.
  destruct (match opening_hours details with
            | Some oh => match weekday_text oh with Some v => v | None => Some [] end
            | None => Some []
            end); cbv zeta; repeat split; now dict_tac.
Qed.

Lemma lookup_merge_details_hours1 (location : dict) details :
  lookup (merge_details location details) "hours1"
  = Some (match weekday_text_of details with
          | Some lines => JStr (join (String "010" "") lines)
          | None => get location "hours1" (JStr "")
          end).
Proof.
  unfold merge_details. fold (weekday_text_of details).
  destruct (weekday_text_of details); cbv zeta; now dict_tac.
Qed.

Lemma lookup_finish_location_other (location : dict) k :
  k <> "lat" -> k <> "lng" -> k <> "featured" ->
  lookup (finish_location location) k = lookup location k.
Proof.
  intros. unfold finish_location.
  match goal with |- context [if ?b then _ else _] => destruct b end; now dict_tac.
Qed.

Lemma lookup_finish_location_coordinates (location : dict) :
  lookup (finish_location location) "lat"
  = Some (JStr (py_str (get location "lat" (JStr "")))) /\
  lookup (finish_location location) "lng"
  = Some (JStr (py_str (get location "lng" (JStr "")))).
Proof.
  unfold finish_location.
  match goal with |- context [if ?b then _ else _] => destruct b end;
    split; now dict_tac.
Qed.

Lemma lookup_finish_location_featured (location : dict) :
  lookup (finish_location location) "featured"
  = if truthy (get location "featured" JNull)
    then lookup location "featured"
    else Some (JStr "no").
Proof.
  unfold finish_location. dict_tac.
  destruct (truthy (get location "featured" JNull)); simpl; now dict_tac.
Qed.

End Frames.

(** ** Field normalisation *)

Section Normalisation.
Context {F : PyFloat}.

Lemma reorder_canonical (location : dict) :
  canonical location -> reorder location = location.
Proof.
  unfold canonical, keys, EXPECTED_FIELDS. intros H.
  repeat (destruct location as [|[? ?] location]; [discriminate H|];
          simpl in H; injection H as -> H).
  destruct location; [reflexivity|discriminate H].
Qed.

Lemma preprocess_items_dicts (locations : list dict) :
  preprocess_items (map JDict locations) = Ret (map reorder locations).
Proof.
  induction locations as [|l rest IH]; simpl; [reflexivity|]. now rewrite IH.
Qed.

Lemma map_reorder_canonical (locations : list dict) :
  Forall canonical locations -> map reorder locations = locations.
Proof.
  induction 1 as [|l rest Hl _ IH]; simpl; [reflexivity|].
  now rewrite (reorder_canonical l Hl), IH.
Qed.

(** C9: the field normalisation is idempotent: on a record in canonical
    shape, so on any record it has produced, it changes nothing, and
    [preprocess_locations] gives back a list of such records as it is. *)
Theorem normalization_idempotent (loc_data : dict) (locations : list dict) :
  reorder (reorder loc_data) = reorder loc_data /\
  (canonical loc_data -> reorder loc_data = loc_data) /\
  (Forall canonical locations ->
   preprocess_locations (JList (map JDict locations)) = Ret locations) /\
  (forall locations_data normalized,
      preprocess_locations locations_data = Ret normalized ->
      preprocess_locations (JList (map JDict normalized)) = Ret normalized).
Proof.
  split; [apply reorder_reorder|]. split; [apply reorder_canonical|].
  assert (Hlist : forall ls, Forall canonical ls ->
                  preprocess_locations (JList (map JDict ls)) = Ret ls).
  { intros ls H. unfold preprocess_locations. simpl.
    now rewrite preprocess_items_dicts, map_reorder_canonical. }
  split; [apply Hlist|].
  intros locations_data normalized H. apply Hlist.
  unfold preprocess_locations in H.
  destruct (py_iter locations_data) as [items|e]; [|discriminate].
  clear locations_data. revert normalized H.
  induction items as [|v items IH]; simpl; intros normalized H.
  - injection H as <-. constructor.
  - destruct v; try discriminate.
    destruct (preprocess_items items) as [ls|e]; [|discriminate].
    injection H as <-. constructor; [apply keys_reorder|now apply IH].
Qed.

End Normalisation.

(** ** One record through [update_location_info] *)

Section Enrichment.
Context {F : PyFloat} {R : PyRepr} {G : GoogleMaps}.

Lemma text_address_joins (location : dict) :
  text_address location -> address_joins location.
Proof.
  intros (Ha & Hc & Hs & Hp) _. unfold address_parts, py_join.
  destruct (get location "address" (JStr "")) as [| | | |a| |]; try discriminate.
  destruct (get location "city" (JStr "")) as [| | | |c| |]; try discriminate.
  destruct (get location "state" (JStr "")) as [| | | |s| |]; try discriminate.
  destruct (get location "postal" (JStr "")) as [| | | |p| |]; try discriminate.
  simpl. destruct (negb (a =? "")), (negb (c =? "")), (negb (s =? "")),
    (negb (p =? "")); simpl; eauto.
Qed.

Lemma update_location_info_run (location : dict) (w : world) :
  address_joins location ->
  exists location1 w1 ev1 answer w2 logs location2 w3 ev3 start,
    geocode_stage location w location1 w1 ev1 /\
    remote_find_place
      (find_place_query (get location "name" (JStr "")) (get location "city" (JStr ""))
         (get location "state" (JStr ""))) w1 = (answer, w2) /\
    quiet logs /\ quiet start /\
    place_stage location1 (first_candidate answer) w2 location2 w3 ev3 /\
    update_location_info location w
    = (Ret (finish_location location2, reorder (finish_location location2)), w3,
       start ++ ev1
       ++ CallFindPlace
            (find_place_query (get location "name" (JStr ""))
               (get location "city" (JStr "")) (get location "state" (JStr "")))
            answer :: logs ++ ev3)%list.
Proof.
  intros Hj. unfold update_location_info.
  set (location_id := get location "id" (JStr "Unknown ID")).
  set (name := get location "name" (JStr "")).
  set (city := get location "city" (JStr "")).
  set (state := get location "state" (JStr "")).
  set (postal := get location "postal" (JStr "")).
  assert (Hg : exists location1 w1 ev1,
             geocode_stage location w location1 w1 ev1 /\
             geocode_missing location location_id city state postal w
             = (Ret location1, w1, ev1)).
  { destruct (coordinates_missing location) eqn:Ec.
    - destruct (Hj Ec) as [full_address Ea].
      destruct (remote_geocode full_address w) as [answer w1] eqn:Er.
      destruct (geocode_missing_run location location_id w _ _ _ Ec Ea Er)
        as (logs & E & Hq).
      exists (geocoded location answer), w1, (CallGeocode full_address answer :: logs).
      split; [|exact E]. right. split; [assumption|].
      exists full_address, answer, logs. auto.
    - exists location, w, []. split; [left; auto|].
      now apply geocode_missing_skipped. }
  destruct Hg as (location1 & w1 & ev1 & Hstage & Eg).
  destruct (remote_find_place (find_place_query name city state) w1)
    as [answer w2] eqn:Ef.
  destruct (find_place_run name city state w1 answer w2 Ef) as (logs & Efp & Hq).
  assert (Hp : exists location2 w3 ev3,
             place_stage location1 (first_candidate answer) w2 location2 w3 ev3 /\
             merge_place location1 location_id (first_candidate answer) w2
             = (Ret location2, w3, ev3)).
  { destruct (usable_place_id (first_candidate answer)) as [place_id|] eqn:Eu.
    - destruct (remote_place place_id w2) as [panswer w3] eqn:Ep.
      destruct (merge_place_run location1 location_id _ _ _ _ _ Eu Ep)
        as (plogs & E & Hpq).
      eexists _, w3, _. split; [|exact E]. right.
      exists place_id, panswer, plogs. auto.
    - destruct (merge_place_skipped location1 location_id _ w2 Eu) as (plogs & E & Hpq).
      exists location1, w2, plogs. split; [left; auto|exact E]. }
  destruct Hp as (location2 & w3 & ev3 & Hpstage & Em).
  exists location1, w1, ev1, answer, w2, (logs ++ [Sleep])%list, location2, w3, ev3.
  eexists. split; [exact Hstage|]. split; [exact Ef|].
  split; [apply quiet_app; [exact Hq|repeat constructor]|].
  split; [|split; [exact Hpstage|]].
  2:{ unfold bind at 1. unfold log_info at 1, emit at 1.
      rewrite (bind_returns _ _ _ _ _ _ Eg).
      rewrite (bind_returns _ _ _ _ _ _ Efp).
      unfold bind at 1, sleep at 1, emit at 1.
      rewrite (bind_returns _ _ _ _ _ _ Em). unfold ret.
      rewrite !app_nil_r. f_equal. f_equal. f_equal.
      rewrite <- app_comm_cons. f_equal. apply app_assoc. }
  repeat constructor.
Qed.

(** [update_location_info] returns exactly when the join of the address
    succeeds. *)
Lemma update_location_info_joins (location : dict) w res w' ev :
  update_location_info location w = (Ret res, w', ev) -> address_joins location.
Proof.
  intros H Hc.
  destruct (py_join ", " (address_parts location)) as [a|e] eqn:Ej; [now exists a|].
  exfalso. unfold update_location_info in H.
  unfold bind at 1 in H. unfold log_info at 1, emit at 1 in H.
  rewrite (bind_raises _ _ _ _ _ _ (geocode_missing_raises location _ w e Hc Ej)) in H.
  discriminate.
Qed.

Lemma get_present (d : dict) k dflt :
  truthy (get d k JNull) = true -> get d k dflt = get d k JNull.
Proof.
  unfold get. destruct (lookup d k); [reflexivity|discriminate].
Qed.

Lemma geocode_stage_frame location w location1 w1 ev k :
  geocode_stage location w location1 w1 ev ->
  k <> "lat" -> k <> "lng" -> lookup location1 k = lookup location k.
Proof.
  intros [(_ & -> & _)|(_ & a & answer & logs & _ & _ & -> & _)] H1 H2;
    [reflexivity|]. now apply lookup_geocoded.
Qed.

Lemma place_stage_frame location place w location2 w2 ev k :
  place_stage location place w location2 w2 ev ->
  k <> "address" -> k <> "city" -> k <> "state" -> k <> "postal" ->
  k <> "phone" -> k <> "web" -> k <> "hours1" ->
  lookup location2 k = lookup location k.
Proof.
  intros [(_ & -> & _)|(p & answer & logs & _ & _ & -> & _)]; [reflexivity|].
  intros. destruct (details_truthy (details_of answer)); [|reflexivity].
  now apply lookup_merge_details_other.
Qed.

Lemma place_stage_events location place w location2 w2 ev e :
  place_stage location place w location2 w2 ev -> In e ev ->
  is_geocode_call e = false /\ (forall q a, e <> CallFindPlace q a).
Proof.
  intros [(_ & _ & _ & Hq)|(p & answer & logs & _ & _ & _ & -> & Hq)] Hin.
  - unfold quiet in Hq. rewrite Forall_forall in Hq. specialize (Hq e Hin).
    destruct e; try discriminate; split; try reflexivity; discriminate.
  - destruct Hin as [<-|Hin]; [split; [reflexivity|discriminate]|].
    unfold quiet in Hq. rewrite Forall_forall in Hq. specialize (Hq e Hin).
    destruct e; try discriminate; split; try reflexivity; discriminate.
Qed.

Lemma quiet_event ev e :
  quiet ev -> In e ev ->
  is_geocode_call e = false /\ is_place_call e = false
  /\ (forall q a, e <> CallFindPlace q a).
Proof.
  intros Hq Hin. unfold quiet in Hq. rewrite Forall_forall in Hq.
  specialize (Hq e Hin).
  destruct e; try discriminate; repeat split; try reflexivity; discriminate.
Qed.

Lemma lookup_some_get (d : dict) k (dflt : json) :
  In k (keys d) -> lookup d k = Some (get d k dflt).
Proof.
  unfold get, keys. induction d as [|[k' v] d IH]; simpl; [tauto|].
  destruct (String.eqb_spec k' k) as [->|Hne]; [reflexivity|].
  intros [H|H]; [congruence|]. now apply IH.
Qed.

Lemma get_of_lookup (a b : dict) k dflt :
  lookup a k = lookup b k -> get a k dflt = get b k dflt.
Proof. unfold get. now intros ->. Qed.

Lemma out_coordinates (location2 : dict) :
  lookup (reorder (finish_location location2)) "lat"
  = Some (JStr (py_str (get location2 "lat" (JStr "")))) /\
  lookup (reorder (finish_location location2)) "lng"
  = Some (JStr (py_str (get location2 "lng" (JStr "")))).
Proof.
  rewrite !lookup_reorder by (simpl; tauto). unfold get at 1 3.
  destruct (lookup_finish_location_coordinates location2) as [-> ->]. auto.
Qed.

Lemma out_other (location2 : dict) k :
  In k EXPECTED_FIELDS -> k <> "lat" -> k <> "lng" -> k <> "featured" ->
  lookup (reorder (finish_location location2)) k
  = Some (get location2 k (JStr "")).
Proof.
  intros Hin H1 H2 H3. rewrite lookup_reorder by assumption. f_equal.
  apply get_of_lookup. now apply lookup_finish_location_other.
Qed.

(** Totality: on a record whose address parts are text, the enrichment
    returns. *)
Lemma update_location_info_returns (location : dict) w :
  text_address location ->
  exists location' out w' ev,
    update_location_info location w = (Ret (location', out), w', ev).
Proof.
  intros Ht.
  destruct (update_location_info_run location w (text_address_joins _ Ht))
    as (l1 & w1 & ev1 & a & w2 & logs & l2 & w3 & ev3 & start & _ & _ & _ & _ & _ & E).
  rewrite E. eauto.
Qed.

(** C6: a record whose [lat] and [lng] are both non-empty goes through the
    enrichment without any geocode call, and the result carries the two
    values, as text. *)
Theorem coordinates_present_no_geocode (location : dict) (w : world) :
  truthy (get location "lat" JNull) = true ->
  truthy (get location "lng" JNull) = true ->
  exists location' out w' ev,
    update_location_info location w = (Ret (location', out), w', ev) /\
    Forall (fun e => is_geocode_call e = false) ev /\
    lookup out "lat" = Some (JStr (py_str (get location "lat" JNull))) /\
    lookup out "lng" = Some (JStr (py_str (get location "lng" JNull))).
Proof.
  intros Hlat Hlng.
  assert (Hc : coordinates_missing location = false).
  { unfold coordinates_missing. now rewrite Hlat, Hlng. }
  assert (Hj : address_joins location) by (intros H; congruence).
  destruct (update_location_info_run location w Hj)
    as (l1 & w1 & ev1 & a & w2 & logs & l2 & w3 & ev3 & start
        & Hg & _ & Hq & Hs & Hp & E).
  rewrite E. do 4 eexists. split; [reflexivity|].
  destruct Hg as [(_ & -> & -> & ->)|(Hc' & _)]; [|congruence].
  split.
  - apply Forall_forall. intros e Hin.
    apply in_app_or in Hin. destruct Hin as [Hin|Hin];
      [now apply (quiet_event _ _ Hs Hin)|].
    simpl in Hin. destruct Hin as [<-|Hin]; [reflexivity|].
    apply in_app_or in Hin. destruct Hin as [Hin|Hin];
      [now apply (quiet_event _ _ Hq Hin)|].
    now apply (place_stage_events _ _ _ _ _ _ _ Hp Hin).
  - destruct (out_coordinates l2) as [-> ->].
    rewrite (get_of_lookup l2 location "lat"), (get_of_lookup l2 location "lng")
      by (apply (place_stage_frame _ _ _ _ _ _ _ Hp); discriminate).
    rewrite (get_present _ _ _ Hlat), (get_present _ _ _ Hlng). auto.
Qed.

(** The events of a run, sorted by stage. *)
Lemma run_events start ev1 q answer logs ev3 e
      location1 place w2 location2 w3 :
  quiet start -> quiet logs ->
  place_stage location1 place w2 location2 w3 ev3 ->
  In e (start ++ ev1 ++ CallFindPlace q answer :: logs ++ ev3)%list ->
  In e ev1 \/ e = CallFindPlace q answer \/
  (is_geocode_call e = false /\ forall q' a', e <> CallFindPlace q' a').
Proof.
  intros Hs Hq Hp Hin.
  apply in_app_or in Hin. destruct Hin as [Hin|Hin].
  { right; right. destruct (quiet_event _ _ Hs Hin) as (? & _ & ?). auto. }
  apply in_app_or in Hin. destruct Hin as [Hin|Hin]; [now left|].
  simpl in Hin. destruct Hin as [<-|Hin]; [right; now left|].
  right; right. apply in_app_or in Hin. destruct Hin as [Hin|Hin].
  - destruct (quiet_event _ _ Hq Hin) as (? & _ & ?). auto.
  - apply (place_stage_events _ _ _ _ _ _ _ Hp Hin).
Qed.

(** C10: when [lat] or [lng] is missing or empty, so also when exactly one
    of them is, one geocode call is made, and when it answers with a
    result both [lat] and [lng] of the output are the rounded coordinates
    of the first candidate, whatever the record held. *)
Theorem geocode_overwrites_both (location : dict) (w : world) :
  text_address location ->
  truthy (get location "lat" JNull) = false \/
  truthy (get location "lng" JNull) = false ->
  exists location' out w' ev full_address answer,
    update_location_info location w = (Ret (location', out), w', ev) /\
    In (CallGeocode full_address answer) ev /\
    (forall address' answer',
        In (CallGeocode address' answer') ev ->
        address' = full_address /\ answer' = answer) /\
    (forall c rest,
        answer = inr (c :: rest) ->
        lookup out "lat" = Some (JStr (float_repr (py_round (geo_lat c) 10))) /\
        lookup out "lng" = Some (JStr (float_repr (py_round (geo_lng c) 10)))).
Proof.
  intros Ht Hm.
  assert (Hc : coordinates_missing location = true).
  { unfold coordinates_missing. destruct Hm as [-> | ->]; simpl;
      [reflexivity|apply orb_true_r]. }
  destruct (update_location_info_run location w (text_address_joins _ Ht))
    as (l1 & w1 & ev1 & a & w2 & logs & l2 & w3 & ev3 & start
        & Hg & _ & Hq & Hs & Hp & E).
  destruct Hg as [(Hc' & _)|(_ & full_address & answer & glogs & _ & _ & -> & -> & Hgq)];
    [congruence|].
  rewrite E. exists (finish_location l2), (reorder (finish_location l2)), w3.
  eexists. exists full_address, answer. split; [reflexivity|]. split; [|split].
  - apply in_or_app. right. apply in_or_app. left. now left.
  - intros address' answer' Hin.
    destruct (run_events _ _ _ _ _ _ _ _ _ _ _ _ Hs Hq Hp Hin) as [H|[H|[H _]]];
      try discriminate.
    destruct H as [[= -> ->]|H]; [auto|].
    now destruct (quiet_event _ _ Hgq H) as [? _].
  - intros c rest ->. destruct (out_coordinates l2) as [-> ->].
    rewrite (get_of_lookup l2 (geocoded location (inr (c :: rest))) "lat"),
            (get_of_lookup l2 (geocoded location (inr (c :: rest))) "lng")
      by (apply (place_stage_frame _ _ _ _ _ _ _ Hp); discriminate).
    simpl geocoded.
    rewrite get_setitem_other by discriminate.
    now rewrite !get_setitem_same.
Qed.

(** C5: when the find-place call of a run fails or gives no candidate, no
    details are fetched and the seven fields of the output are those of the
    record before the enrichment. *)
Theorem nothing_found_keeps_fields (location : dict) (w : world)
    location' out w' ev :
  update_location_info location w = (Ret (location', out), w', ev) ->
  (forall query answer, In (CallFindPlace query answer) ev -> nothing_found answer) ->
  Forall (fun e => is_place_call e = false) ev /\
  forall field,
    In field ["address"; "city"; "state"; "postal"; "phone"; "web"; "hours1"] ->
    lookup out field = Some (get location field (JStr "")).
Proof.
  intros Hrun Hnone.
  destruct (update_location_info_run location w (update_location_info_joins _ _ _ _ _ Hrun))
    as (l1 & w1 & ev1 & a & w2 & logs & l2 & w3 & ev3 & start
        & Hg & _ & Hq & Hs & Hp & E).
  rewrite E in Hrun. injection Hrun as <- <- <- <-.
  assert (Ha : nothing_found a).
  { apply (Hnone (find_place_query (get location "name" (JStr ""))
                    (get location "city" (JStr "")) (get location "state" (JStr "")))).
    apply in_or_app. right. apply in_or_app. right. now left. }
  assert (Hu : usable_place_id (first_candidate a) = None).
  { destruct a as [e|response]; simpl in *; [reflexivity|]. now rewrite Ha. }
  destruct Hp as [(_ & -> & -> & Hq3)|(p & pa & plogs & Hu' & _)]; [|congruence].
  split.
  - apply Forall_forall. intros e Hin.
    apply in_app_or in Hin. destruct Hin as [Hin|Hin];
      [now apply (quiet_event _ _ Hs Hin)|].
    apply in_app_or in Hin. destruct Hin as [Hin|Hin].
    + destruct Hg as [(_ & _ & _ & ->)|(_ & fa & ga & glogs & _ & _ & _ & -> & Hgq)];
        [destruct Hin|].
      destruct Hin as [<-|Hin]; [reflexivity|]. now apply (quiet_event _ _ Hgq Hin).
    + destruct Hin as [<-|Hin]; [reflexivity|].
      apply in_app_or in Hin. destruct Hin as [Hin|Hin].
      * now apply (quiet_event _ _ Hq Hin).
      * now apply (quiet_event _ _ Hq3 Hin).
  - intros field Hin.
    assert (Hf : field <> "lat" /\ field <> "lng" /\ field <> "featured"
                 /\ In field EXPECTED_FIELDS).
    { simpl in Hin. simpl.
      repeat (destruct Hin as [<-|Hin];
              [repeat split; try discriminate; tauto|]). destruct Hin. }
    destruct Hf as (H1 & H2 & H3 & H4).
    rewrite out_other by assumption. f_equal. apply get_of_lookup.
    now apply (geocode_stage_frame _ _ _ _ _ _ Hg).
Qed.

(** C8: in every record that the enrichment returns, [lat] and [lng] are
    text, the empty text when the coordinate was missing or empty and no
    geocoding result came, and [featured] is "no" when it was missing or
    empty before, and what it was otherwise. *)
Theorem enrichment_postconditions (location : dict) (w : world)
    location' out w' ev :
  update_location_info location w = (Ret (location', out), w', ev) ->
  (exists s, lookup out "lat" = Some (JStr s)) /\
  (exists s, lookup out "lng" = Some (JStr s)) /\
  ((forall address c rest, ~ In (CallGeocode address (inr (c :: rest))) ev) ->
   (lookup location "lat" = None \/ lookup location "lat" = Some (JStr "") ->
    lookup out "lat" = Some (JStr "")) /\
   (lookup location "lng" = None \/ lookup location "lng" = Some (JStr "") ->
    lookup out "lng" = Some (JStr ""))) /\
  (lookup location "featured" = None \/ lookup location "featured" = Some (JStr "") ->
   lookup out "featured" = Some (JStr "no")) /\
  lookup out "featured"
  = Some (if truthy (get location "featured" JNull)
          then get location "featured" JNull
          else JStr "no").
Proof.
  intros Hrun.
  destruct (update_location_info_run location w (update_location_info_joins _ _ _ _ _ Hrun))
    as (l1 & w1 & ev1 & a & w2 & logs & l2 & w3 & ev3 & start
        & Hg & _ & Hq & Hs & Hp & E).
  rewrite E in Hrun. injection Hrun as <- <- <- <-.
  assert (Hfeat : lookup (reorder (finish_location l2)) "featured"
                  = Some (if truthy (get location "featured" JNull)
                          then get location "featured" JNull
                          else JStr "no")).
  { rewrite lookup_reorder by (simpl; tauto). f_equal.
    unfold get at 1. rewrite lookup_finish_location_featured.
    assert (Hl : lookup l2 "featured" = lookup location "featured").
    { rewrite (place_stage_frame _ _ _ _ _ _ _ Hp) by discriminate.
      apply (geocode_stage_frame _ _ _ _ _ _ Hg); discriminate. }
    rewrite (get_of_lookup _ _ _ _ Hl), Hl. unfold get.
    destruct (lookup location "featured") as [v|]; simpl; [|reflexivity].
    now destruct (truthy v). }
  destruct (out_coordinates l2) as [Elat Elng].
  split; [eexists; exact Elat|]. split; [eexists; exact Elng|].
  split; [|split; [|exact Hfeat]].
  - intros Hno.
    assert (Hl1 : l1 = location).
    { destruct Hg as [(_ & -> & _)|(_ & fa & ga & glogs & _ & _ & -> & -> & _)];
        [reflexivity|].
      destruct ga as [e|[|c rest]]; try reflexivity.
      exfalso. apply (Hno fa c rest).
      apply in_or_app. right. apply in_or_app. left. now left. }
    subst l1. rewrite Elat, Elng.
    rewrite (get_of_lookup l2 location "lat"), (get_of_lookup l2 location "lng")
      by (apply (place_stage_frame _ _ _ _ _ _ _ Hp); discriminate).
    unfold get. split; intros [-> | ->]; reflexivity.
  - rewrite Hfeat. unfold get. intros [-> | ->]; reflexivity.
Qed.

End Enrichment.

(** ** The whole pipeline *)

Section Pipeline.
Context {F : PyFloat} {R : PyRepr} {G : GoogleMaps}.

Lemma update_location_info_shape (location : dict) w location' out w' ev :
  update_location_info location w = (Ret (location', out), w', ev) ->
  canonical out /\
  forall field, In field carried_fields ->
                lookup out field = Some (get location field (JStr "")).
Proof.
  intros Hrun.
  destruct (update_location_info_run location w (update_location_info_joins _ _ _ _ _ Hrun))
    as (l1 & w1 & ev1 & a & w2 & logs & l2 & w3 & ev3 & start
        & Hg & _ & Hq & Hs & Hp & E).
  rewrite E in Hrun. injection Hrun as <- <- <- <-.
  split; [apply keys_reorder|]. intros field Hin.
  assert (Hf : In field EXPECTED_FIELDS /\ field <> "lat" /\ field <> "lng"
               /\ field <> "featured" /\ field <> "address" /\ field <> "city"
               /\ field <> "state" /\ field <> "postal" /\ field <> "phone"
               /\ field <> "web" /\ field <> "hours1").
  { unfold carried_fields in Hin. simpl in Hin. simpl.
    repeat (destruct Hin as [<-|Hin];
            [repeat split; try discriminate; tauto|]). destruct Hin. }
  destruct Hf as (H0 & H1 & H2 & H3 & H4 & H5 & H6 & H7 & H8 & H9 & H10).
  rewrite out_other by assumption. f_equal. apply get_of_lookup.
  rewrite (place_stage_frame _ _ _ _ _ _ _ Hp) by assumption.
  now apply (geocode_stage_frame _ _ _ _ _ _ Hg).
Qed.

Lemma process_loop_inv (locations : list dict) :
  forall idx total w out w' ev,
  process_loop locations idx total w = (Ret out, w', ev) ->
  Forall2 (fun location o =>
             exists w1 location' w2 ev',
               update_location_info location w1 = (Ret (location', o), w2, ev'))
          locations out.
Proof.
  induction locations as [|l rest IH]; intros idx total w out w' ev; simpl.
  - intros [= <- _ _]. constructor.
  - intros H. apply bind_inv in H.
    destruct H as ([l' o] & w1 & ev1 & ev2 & Hu & H & _).
    apply bind_inv in H. destruct H as (? & ? & ? & ? & Hpr & H & _).
    apply bind_inv in H. destruct H as (? & ? & ? & ? & Htx & H & _).
    apply bind_inv in H. destruct H as (? & ? & ? & ? & Hsl & H & _).
    apply bind_inv in H. destruct H as (outs & ? & ? & ? & Hrest & H & _).
    injection Hpr as <- _. injection Htx as <- _. injection Hsl as <- _.
    injection H as <- _ _. constructor; [|eapply IH; eassumption].
    now exists w, l', w1, ev1.
Qed.

Lemma bind_total {A B} (m : M A) (k : A -> M B) w a w1 ev1 :
  m w = (Ret a, w1, ev1) ->
  (exists b w2 ev2, k a w1 = (Ret b, w2, ev2)) ->
  exists b w2 ev, bind m k w = (Ret b, w2, ev).
Proof.
  intros Hm (b & w2 & ev2 & Hk). unfold bind. rewrite Hm, Hk. eauto.
Qed.

Lemma process_loop_returns (locations : list dict) :
  Forall text_address locations ->
  forall idx total w, exists out w' ev,
    process_loop locations idx total w = (Ret out, w', ev).
Proof.
  induction 1 as [|l rest Hl _ IH]; intros idx total w; simpl.
  - now exists [], w, [].
  - destruct (update_location_info_returns l w Hl) as (l' & o & w1 & ev1 & E).
    eapply bind_total; [exact E|]. cbv beta.
    eapply bind_total; [reflexivity|].
    eapply bind_total; [reflexivity|].
    eapply bind_total; [reflexivity|].
    destruct (IH (S idx) total w1) as (outs & w2 & ev2 & E2).
    eapply bind_total; [exact E2|]. unfold ret. eauto.
Qed.

Lemma process_locations_inv (locations : list dict) w out w' ev :
  process_locations locations w = (Ret out, w', ev) ->
  Forall2 (fun location o =>
             exists w1 location' w2 ev',
               update_location_info location w1 = (Ret (location', o), w2, ev'))
          locations out.
Proof.
  unfold process_locations. intros H.
  apply bind_inv in H. destruct H as (? & ? & ? & ? & H1 & H & _).
  apply bind_inv in H. destruct H as (? & ? & ? & ? & H2 & H & _).
  apply bind_inv in H. destruct H as (outs & ? & ? & ? & Hl & H & _).
  apply bind_inv in H. destruct H as (? & ? & ? & ? & H3 & H & _).
  injection H as <- _ _. eapply process_loop_inv, Hl.
Qed.

Lemma process_locations_returns (locations : list dict) w :
  Forall text_address locations ->
  exists out w' ev, process_locations locations w = (Ret out, w', ev).
Proof.
  intros H. unfold process_locations.
  destruct (process_loop_returns locations H 0 (List.length locations) w)
    as (out & w' & ev & E).
  eapply bind_total; [reflexivity|].
  eapply bind_total; [reflexivity|].
  eapply bind_total; [exact E|].
  eapply bind_total; [reflexivity|]. unfold ret. eauto.
Qed.

Lemma string_valued_get (d : dict) k :
  string_valued d -> is_text (get d k (JStr "")) = true.
Proof.
  unfold string_valued, get. induction 1 as [|[k' v] d Hv _ IH]; simpl; [reflexivity|].
  destruct (k' =? k); [exact Hv|exact IH].
Qed.

Lemma get_reorder (d : dict) k :
  In k EXPECTED_FIELDS -> get (reorder d) k (JStr "") = get d k (JStr "").
Proof.
  intros Hin. unfold get at 1. now rewrite lookup_reorder.
Qed.

Lemma text_address_reorder (d : dict) :
  string_valued d -> text_address (reorder d).
Proof.
  intros H. unfold text_address.
  rewrite !get_reorder by (simpl; tauto).
  repeat split; now apply string_valued_get.
Qed.

Lemma readable_id_reorder (d : dict) : readable_id d -> readable_id (reorder d).
Proof.
  unfold readable_id, id_text. now rewrite get_reorder by (simpl; tauto).
Qed.

Lemma renumbered_frame (locations : list dict) :
  forall next_id,
  Forall2 (fun l i => (In "id" (keys l) -> keys i = keys l) /\
                      forall k, k <> "id" -> lookup i k = lookup l k)
          locations (renumbered locations next_id).
Proof.
  induction locations as [|l rest IH]; intros next_id; simpl; [constructor|].
  destruct (has_integer_id l); (constructor; [|apply IH]).
  - auto.
  - split; [apply keys_setitem_present|].
    intros k Hk. apply lookup_setitem_other. congruence.
Qed.

Lemma text_address_renumbered (locations : list dict) next_id :
  Forall text_address locations ->
  Forall text_address (renumbered locations next_id).
Proof.
  intros H. revert next_id. induction H as [|l rest Hl _ IH]; intros next_id; simpl;
    [constructor|].
  destruct (has_integer_id l); (constructor; [|apply IH]); [assumption|].
  unfold text_address. now rewrite !get_setitem_other by discriminate.
Qed.

Lemma assign_ids_result (locations : list dict) w ids w1 ev1 :
  assign_ids locations w = (Ret ids, w1, ev1) ->
  ids = renumbered locations (max_kept_id locations + 1).
Proof.
  intros H.
  destruct (assign_ids_returns locations w (assign_ids_readable _ _ _ _ _ H)
              (assign_ids_fit _ _ _ _ _ H)) as (ev & E).
  rewrite E in H. congruence.
Qed.

Lemma id_text_reorder (d : dict) : id_text (reorder d) = id_text d.
Proof. unfold id_text. now rewrite get_reorder by (simpl; tauto). Qed.

(** The normalisation changes neither the kept IDs nor the number of the
    records without one. *)
Lemma ids_fit_reorder (records : list dict) :
  ids_fit records -> ids_fit (map reorder records).
Proof.
  unfold ids_fit, max_kept_id, kept_numbers.
  assert (Hk : flat_map (fun location => match id_number location with
                                         | Some n => [n]
                                         | None => []
                                         end) (map reorder records)
               = flat_map (fun location => match id_number location with
                                           | Some n => [n]
                                           | None => []
                                           end) records).
  { induction records as [|r rest IH]; simpl; [reflexivity|].
    now rewrite IH, (id_number_of_text (reorder r) r (id_text_reorder r)). }
  assert (Hw : List.length (without_integer_id (map reorder records))
               = List.length (without_integer_id records)).
  { clear Hk. induction records as [|r rest IH]; [reflexivity|].
    cbn [map]. rewrite !without_integer_id_cons.
    assert (Hi : has_integer_id (reorder r) = has_integer_id r)
      by (unfold has_integer_id; now rewrite id_text_reorder).
    rewrite Hi. destruct (has_integer_id r); [exact IH|].
    cbn [List.length]. now rewrite IH. }
  now rewrite Hk, Hw.
Qed.

(** C1 (as amended): the normalisation gives every record exactly the
    expected fields in the canonical order, with the empty text for a field
    that the input lacks; whatever the pipeline then outputs has one record
    per input record, each with exactly the expected fields in the canonical
    order, the fields that no stage writes holding the input value or the
    empty text, and nothing being said of the fields that the ID assignment
    and the enrichment write; and on text-valued records with readable IDs,
    whose new IDs stay within the digits that [str] writes, the pipeline
    does produce its output. *)
Theorem pipeline_output_canonical (records : list dict) (w : world) :
  exists locations,
    preprocess_locations (JList (map JDict records)) = Ret locations /\
    Forall2 normalized_from records locations /\
    Forall canonical locations /\
    (forall ids w1 ev1 out w2 ev2,
        assign_ids locations w = (Ret ids, w1, ev1) ->
        process_locations ids w1 = (Ret out, w2, ev2) ->
        List.length out = List.length records /\
        Forall canonical out /\
        Forall2 (fun record o =>
                   forall field, In field carried_fields ->
                                 lookup o field = Some (get record field (JStr "")))
                records out) /\
    (Forall string_valued records -> Forall readable_id records ->
     ids_fit records ->
     exists ids w1 ev1 out w2 ev2,
       assign_ids locations w = (Ret ids, w1, ev1) /\
       process_locations ids w1 = (Ret out, w2, ev2)).
Proof.
  exists (map reorder records).
  split; [unfold preprocess_locations; simpl; apply preprocess_items_dicts|].
  split.
  { induction records as [|r rest IH]; simpl; constructor; [apply reorder_eq|apply IH]. }
  split.
  { apply Forall_forall. intros l Hin. apply in_map_iff in Hin.
    destruct Hin as (r & <- & _). apply keys_reorder. }
  split.
  - intros ids w1 ev1 out w2 ev2 Ha Hp.
    apply assign_ids_result in Ha. apply process_locations_inv in Hp. subst ids.
    assert (Hfr := renumbered_frame (map reorder records)
                     (max_kept_id (map reorder records) + 1)).
    revert Hfr Hp.
    generalize (renumbered (map reorder records)
                  (max_kept_id (map reorder records) + 1)).
    intros ids Hfr. revert out.
    remember (map reorder records) as locations eqn:El.
    revert records El.
    induction Hfr as [|l i locations ids [_ Hli] _ IH]; intros records El out Hp.
    + inversion Hp; subst. destruct records; [|discriminate].
      repeat split; constructor.
    + inversion Hp as [|? o ? outs (w3 & l' & w4 & ev' & Hu) Hrest]; subst.
      destruct records as [|r rest]; [discriminate|]. injection El as -> ->.
      destruct (IH rest eq_refl outs Hrest) as (Hlen & Hcan & Hcar).
      destruct (update_location_info_shape _ _ _ _ _ _ Hu) as (Hc & Hf).
      split; [simpl; now rewrite Hlen|]. split; [now constructor|].
      constructor; [|exact Hcar].
      intros field Hin. rewrite (Hf field Hin). f_equal.
      assert (Hne : field <> "id").
      { unfold carried_fields in Hin. simpl in Hin.
        repeat (destruct Hin as [<-|Hin]; [discriminate|]). destruct Hin. }
      rewrite (get_of_lookup i (reorder r) field (JStr "") (Hli field Hne)).
      apply get_reorder. unfold carried_fields in Hin. simpl in Hin. simpl.
      repeat (destruct Hin as [<-|Hin]; [tauto|]). destruct Hin.
  - intros Hs Hr Hfit.
    assert (Hr' : Forall readable_id (map reorder records)).
    { apply Forall_forall. intros l Hin. apply in_map_iff in Hin.
      destruct Hin as (r & <- & Hin). apply readable_id_reorder.
      rewrite Forall_forall in Hr. now apply Hr. }
    destruct (assign_ids_returns (map reorder records) w Hr'
                (ids_fit_reorder records Hfit)) as (ev1 & E1).
    assert (Ht : Forall text_address
                   (renumbered (map reorder records)
                      (max_kept_id (map reorder records) + 1))).
    { apply text_address_renumbered. apply Forall_forall. intros l Hin.
      apply in_map_iff in Hin. destruct Hin as (r & <- & Hin).
      apply text_address_reorder. rewrite Forall_forall in Hs. now apply Hs. }
    destruct (process_locations_returns _ w Ht) as (out & w2 & ev2 & E2).
    do 6 eexists. split; [exact E1|exact E2].
Qed.

End Pipeline.

(** ** The field merge *)

Section Merge.
Context {F : PyFloat} {R : PyRepr}.

Lemma str_or_nonempty s (v : json) : s <> "" -> str_or s v = JStr s.
Proof.
  intros H. unfold str_or, nonempty. destruct (String.eqb_spec s ""); [contradiction|].
  reflexivity.
Qed.

Lemma str_or_empty (v : json) : str_or "" v = v.
Proof. reflexivity. Qed.

(** C3: in the merge, each of [address], [city], [state] and [postal]
    takes the extracted value when it is not empty and keeps the prior
    value when it is; the street address is the street number and the
    route joined by one space, an empty part left out. *)
Theorem merge_precedence (location : dict) (details : place_details) :
  let parsed := parse_components (components_of details) in
  let merged := merge_details location details in
  street_address_of parsed
  = (match pa_street_number parsed, pa_route parsed with
     | "", route => route
     | street_number, "" => street_number
     | street_number, route => (street_number ++ " " ++ route)%string
     end) /\
  forall field extracted,
    In (field, extracted) (extracted_fields parsed) ->
    (extracted <> "" -> lookup merged field = Some (JStr extracted)) /\
    (extracted = "" -> lookup merged field = Some (get location field (JStr ""))).
Proof.
  intros parsed merged. split.
  - unfold street_address_of. simpl.
    destruct (pa_street_number parsed), (pa_route parsed); reflexivity.
  - destruct (lookup_merge_details_address location details) as (Ha & Hc & Hs & Hp).
    fold parsed in Ha, Hc, Hs, Hp. fold merged in Ha, Hc, Hs, Hp.
    intros field extracted Hin. unfold extracted_fields in Hin. simpl in Hin.
    destruct Hin as [[= <- <-]|[[= <- <-]|[[= <- <-]|[[= <- <-]|[]]]]];
      (split; [intros Hne|intros He]);
      first [ rewrite Ha | rewrite Hc | rewrite Hs | rewrite Hp ]; f_equal;
      first [ now apply str_or_nonempty | rewrite He; apply str_or_empty ].
Qed.

(** X19: what the merge does to the contact fields and to the hours:
    [phone] and [web] take the value of the details when the key is
    present, whatever the value, and keep the prior value when it is
    missing; [hours1] takes the lines joined by a newline when the weekday
    text is a list, a missing key counting as the empty list, and keeps the
    prior value when it is a value that is no list; [hours2] and [hours3]
    are not written. *)
Lemma merge_contact_and_hours (location : dict) (details : place_details) :
  let merged := merge_details location details in
  (forall v, formatted_phone_number details = Some v ->
             lookup merged "phone" = Some (JStr v)) /\
  (formatted_phone_number details = None ->
   lookup merged "phone" = Some (get location "phone" (JStr ""))) /\
  (forall v, website details = Some v -> lookup merged "web" = Some (JStr v)) /\
  (website details = None ->
   lookup merged "web" = Some (get location "web" (JStr ""))) /\
  (forall lines, weekday_text_of details = Some lines ->
                 lookup merged "hours1" = Some (JStr (join (String "010" "") lines))) /\
  (weekday_text_of details = None ->
   lookup merged "hours1" = Some (get location "hours1" (JStr ""))) /\
  lookup merged "hours2" = lookup location "hours2" /\
  lookup merged "hours3" = lookup location "hours3".
Proof.
  intros merged. unfold merged.
  destruct (lookup_merge_details_contact location details) as (Hp & Hw).
  rewrite Hp, Hw, lookup_merge_details_hours1.
  rewrite !lookup_merge_details_other by discriminate.
  repeat split; try (intros v ->; reflexivity); intros ->; reflexivity.
Qed.

(** Without a list of weekday lines in the details, the merge empties
    [hours1]. *)
Lemma merge_details_without_hours (location : dict) (details : place_details) :
  opening_hours details = None \/
  (exists oh, opening_hours details = Some oh /\ weekday_text oh = None) ->
  lookup (merge_details location details) "hours1" = Some (JStr "").
Proof.
  intros H. rewrite lookup_merge_details_hours1. unfold weekday_text_of.
  destruct H as [-> | (oh & -> & ->)]; reflexivity.
Qed.

End Merge.

(** ** The run of [main] *)

Section Main.
Context {F : PyFloat} {R : PyRepr} {G : GoogleMaps}.

Lemma preprocess_items_not_dicts (items : list json) :
  forallb (fun v => match v with JDict _ => true | _ => false end) items = false ->
  preprocess_items items = Raise AttributeError.
Proof.
  induction items as [|v items IH]; simpl; [discriminate|].
  destruct v; try reflexivity. simpl. intros H. now rewrite (IH H).
Qed.

Lemma main_preprocess_raises (locations_data : json) e button w :
  preprocess_locations locations_data = Raise e ->
  (forall msg, e <> JSONDecodeError msg) ->
  main (Some (Ret locations_data)) button w = (Raise e, w, intro_events).
Proof.
  intros H Hne. unfold main, bind, try_except, emit, lift, ret, raise.
  rewrite H. destruct e; try reflexivity. now destruct (Hne msg).
Qed.

Lemma main_empty_batch (locations_data : json) button w :
  preprocess_locations locations_data = Ret [] ->
  main (Some (Ret locations_data)) button w
  = (Ret tt, w, intro_events ++ empty_batch_events button).
Proof.
  intros H. unfold main, bind, try_except, emit, lift, ret, raise.
  rewrite H. destruct button; reflexivity.
Qed.

Lemma main_upload_raises e button w :
  main (Some (Raise e)) button w
  = match e with
    | JSONDecodeError msg =>
        (Ret tt, w, intro_events ++ [StError ("Error decoding JSON: " ++ msg)])
    | _ => (Raise e, w, intro_events)
    end.
Proof. destruct e; reflexivity. Qed.

Lemma no_object_of_forallb (items : list json) :
  forallb (fun v => match v with JDict _ => true | _ => false end) items = false ->
  existsb no_object items = true.
Proof.
  induction items as [|v items IH]; simpl; [discriminate|].
  destruct v; simpl; auto.
Qed.

(** C7 (as amended): on an upload that is not a list of objects no call to
    the service is made, and what the run does is fixed by the upload. When
    the upload does not parse, the error is shown and nothing else happens.
    When reading it raises another exception, the run stops on it, and
    nothing more is shown. The empty object and the empty text are handled
    as an empty batch, whose download holds the empty list. On any other
    parsed value the run stops before anything more is shown: on a
    [TypeError] when the value cannot be iterated, on an [AttributeError]
    when one of its items is no object. A download is offered for the empty
    batch only. *)
Theorem malformed_upload_run (upload : outcome json) (button : bool) (w : world) :
  list_of_objects upload = false ->
  exists r ev,
    main (Some upload) button w = (r, w, intro_events ++ ev) /\
    Forall (fun e => is_remote_call e = false) (intro_events ++ ev) /\
    (forall msg, upload = Raise (JSONDecodeError msg) ->
                 r = Ret tt /\ ev = [StError ("Error decoding JSON: " ++ msg)]) /\
    (forall e, upload = Raise e -> (forall msg, e <> JSONDecodeError msg) ->
               r = Raise e /\ ev = []) /\
    (upload = Ret (JDict []) \/ upload = Ret (JStr "") ->
     r = Ret tt /\ ev = empty_batch_events button) /\
    (forall data, upload = Ret data -> data <> JDict [] -> data <> JStr "" ->
                  ev = [] /\
                  ((py_iter data = Raise TypeError /\ r = Raise TypeError) \/
                   (exists items, py_iter data = Ret items /\
                                  existsb no_object items = true /\
                                  r = Raise AttributeError))) /\
    (forall data file_name,
        In (StDownloadButton data file_name) ev ->
        data = [] /\ button = true /\
        (upload = Ret (JDict []) \/ upload = Ret (JStr ""))).
Proof.
  intros Hbad.
  assert (Hraise : forall data e,
             upload = Ret data -> preprocess_locations data = Raise e ->
             data <> JDict [] -> data <> JStr "" ->
             (py_iter data = Raise TypeError /\ e = TypeError) \/
             (exists items, py_iter data = Ret items /\
                            existsb no_object items = true /\
                            e = AttributeError) ->
             exists r ev,
               main (Some upload) button w = (r, w, intro_events ++ ev) /\
               Forall (fun e => is_remote_call e = false) (intro_events ++ ev) /\
               (forall msg, upload = Raise (JSONDecodeError msg) ->
                            r = Ret tt /\
                            ev = [StError ("Error decoding JSON: " ++ msg)]) /\
               (forall e, upload = Raise e -> (forall msg, e <> JSONDecodeError msg) ->
                          r = Raise e /\ ev = []) /\
               (upload = Ret (JDict []) \/ upload = Ret (JStr "") ->
                r = Ret tt /\ ev = empty_batch_events button) /\
               (forall data, upload = Ret data -> data <> JDict [] ->
                             data <> JStr "" ->
                             ev = [] /\
                             ((py_iter data = Raise TypeError /\ r = Raise TypeError) \/
                              (exists items, py_iter data = Ret items /\
                                             existsb no_object items = true /\
                                             r = Raise AttributeError))) /\
               (forall data file_name,
                   In (StDownloadButton data file_name) ev ->
                   data = [] /\ button = true /\
                   (upload = Ret (JDict []) \/ upload = Ret (JStr "")))).
  { intros data e Hu Hp Hd Hs He. exists (Raise e), [].
    assert (Hne : forall msg, e <> JSONDecodeError msg).
    { destruct He as [[_ ->] | (items & _ & _ & ->)]; discriminate. }
    rewrite Hu, (main_preprocess_raises data e button w Hp Hne), app_nil_r.
    split; [reflexivity|]. split; [repeat constructor|].
    split; [discriminate|]. split; [discriminate|].
    split; [intros [[= E] | [= E]]; congruence|].
    split; [|intros ? ? []].
    intros data' [= <-] _ _. split; [reflexivity|].
    destruct He as [[Hi ->] | (items & Hi & Hn & ->)]; [left; auto|].
    right. exists items. auto. }
  assert (Hempty : forall data,
             upload = Ret data -> preprocess_locations data = Ret [] ->
             (data = JDict [] \/ data = JStr "") ->
             exists r ev,
               main (Some upload) button w = (r, w, intro_events ++ ev) /\
               Forall (fun e => is_remote_call e = false) (intro_events ++ ev) /\
               (forall msg, upload = Raise (JSONDecodeError msg) ->
                            r = Ret tt /\
                            ev = [StError ("Error decoding JSON: " ++ msg)]) /\
               (forall e, upload = Raise e -> (forall msg, e <> JSONDecodeError msg) ->
                          r = Raise e /\ ev = []) /\
               (upload = Ret (JDict []) \/ upload = Ret (JStr "") ->
                r = Ret tt /\ ev = empty_batch_events button) /\
               (forall data, upload = Ret data -> data <> JDict [] ->
                             data <> JStr "" ->
                             ev = [] /\
                             ((py_iter data = Raise TypeError /\ r = Raise TypeError) \/
                              (exists items, py_iter data = Ret items /\
                                             existsb no_object items = true /\
                                             r = Raise AttributeError))) /\
               (forall data file_name,
                   In (StDownloadButton data file_name) ev ->
                   data = [] /\ button = true /\
                   (upload = Ret (JDict []) \/ upload = Ret (JStr "")))).
  { intros data Hu Hp Hd. exists (Ret tt), (empty_batch_events button).
    rewrite Hu at 1. rewrite (main_empty_batch data button w Hp).
    split; [reflexivity|]. split; [destruct button; repeat constructor|].
    split; [rewrite Hu; discriminate|]. split; [rewrite Hu; discriminate|].
    split; [auto|].
    assert (Hup : upload = Ret (JDict []) \/ upload = Ret (JStr ""))
      by (rewrite Hu; destruct Hd as [-> | ->]; auto).
    split.
    - intros data' Hu' Hd' Hs'. rewrite Hu in Hu'. injection Hu' as <-.
      destruct Hd; contradiction.
    - intros data' file_name Hin. unfold empty_batch_events in Hin.
      destruct button; simpl in Hin;
        repeat (destruct Hin as [Hin|Hin]; [try discriminate|]);
        try contradiction.
      injection Hin as <- _. auto. }
  destruct upload as [data|e] eqn:Eu.
  - destruct data as [| b | z | x | s | l | d].
    + apply (Hraise JNull TypeError); auto; discriminate.
    + apply (Hraise (JBool b) TypeError); auto; discriminate.
    + apply (Hraise (JInt z) TypeError); auto; discriminate.
    + apply (Hraise (JFloat x) TypeError); auto; discriminate.
    + destruct s as [|c s].
      * apply (Hempty (JStr "")); auto.
      * apply (Hraise (JStr (String c s)) AttributeError); auto; try discriminate.
        right. eexists. split; [reflexivity|]. auto.
    + assert (Hl : forallb (fun v => match v with JDict _ => true | _ => false end) l
                   = false) by exact Hbad.
      apply (Hraise (JList l) AttributeError); auto; try discriminate.
      * unfold preprocess_locations. simpl py_iter.
        now apply preprocess_items_not_dicts.
      * right. exists l. split; [reflexivity|].
        split; [now apply no_object_of_forallb|reflexivity].
    + destruct d as [|[k v] d].
      * apply (Hempty (JDict [])); auto.
      * apply (Hraise (JDict ((k, v) :: d)) AttributeError); auto; try discriminate.
        right. eexists. split; [reflexivity|]. auto.
  - rewrite main_upload_raises. destruct e;
      try (eexists (Raise _), []; rewrite app_nil_r;
           split; [reflexivity|]; split; [repeat constructor|];
           split; [discriminate|]; split; [intros e' [= <-] _; auto|];
           split; [intros [[=]|[=]]|]; split; [discriminate|intros ? ? []]).
    exists (Ret tt), [StError ("Error decoding JSON: " ++ msg)].
    split; [reflexivity|]. split; [repeat constructor|].
    split; [intros msg' [= <-]; auto|].
    split; [intros e' [= <-] Hne; now destruct (Hne msg)|].
    split; [intros [[=]|[=]]|]. split; [discriminate|].
    intros data file_name [[=]|[]].
Qed.

End Main.

(** ** The wrappers of the service calls *)

Section Wrappers.
Context {F : PyFloat} {R : PyRepr} {G : GoogleMaps}.

(** X1: [find_place] never raises, whatever the service does: it makes one
    call, with the query made of name, city and state, returns the first
    candidate of the answer, [None] when the answer has no candidate or the
    call raised, and logs one error in the latter case only. *)
Theorem find_place_never_raises (location_name city state : json) (w : world) :
  let query := find_place_query location_name city state in
  let answer := fst (remote_find_place query w) in
  exists logs,
    find_place location_name city state w
    = (Ret (first_candidate answer), snd (remote_find_place query w),
       CallFindPlace query answer :: logs) /\
    (forall response, answer = inr response -> logs = []) /\
    (forall e, answer = inl e ->
               first_candidate answer = None /\ exists msg, logs = [Log ERROR msg]).
Proof.
  intros query answer. subst answer query.
  unfold find_place_query, find_place, try_except, bind, call. cbv zeta.
  destruct (remote_find_place _ w) as [[e|response] w1]; simpl.
  - destruct (is_api_error e); simpl; eexists; (split; [reflexivity|]);
      (split; [discriminate|]); intros e' _; (split; [reflexivity|]); eexists; reflexivity.
  - destruct (candidates response); simpl; eexists; (split; [reflexivity|]);
      (split; [reflexivity|discriminate]).
Qed.

(** X2: [get_place_details] never raises: it makes one details call and
    returns the result of the answer; when the call raised or the answer
    has no result it returns the empty details, which the caller takes as
    no details; it sleeps after a call that answered and logs one error
    after a call that raised. *)
Theorem get_place_details_never_raises (place_id : string) (w : world) :
  let answer := fst (remote_place place_id w) in
  exists rest,
    get_place_details place_id w
    = (Ret (details_of answer), snd (remote_place place_id w),
       CallPlace place_id answer :: rest) /\
    (forall response, answer = inr response -> rest = [Sleep]) /\
    (forall e, answer = inl e -> exists msg, rest = [Log ERROR msg]) /\
    ((forall details, answer <> inr {| result := Some details |}) ->
     details_of answer = empty_details /\
     details_truthy (details_of answer) = false).
Proof.
  intros answer. subst answer.
  unfold get_place_details, try_except, bind, call.
  destruct (remote_place place_id w) as [[e|response] w1]; simpl.
  - destruct (is_api_error e); simpl; eexists; (split; [reflexivity|]);
      (split; [discriminate|]); (split; [intros e' _; eexists; reflexivity|]);
      intros _; split; reflexivity.
  - eexists. split; [reflexivity|]. split; [reflexivity|]. split; [discriminate|].
    intros Hno. destruct response as [[details|]]; simpl.
    + now destruct (Hno details).
    + split; reflexivity.
Qed.

End Wrappers.

(** ** More on one record *)

Section MoreEnrichment.
Context {F : PyFloat} {R : PyRepr} {G : GoogleMaps}.

Lemma strings_of_filter (items : list json) :
  strings_of (filter truthy items)
  = if existsb blocks_join items then Raise TypeError
    else Ret (filter nonempty (map text_of items)).
Proof.
  induction items as [|v items IH]; [reflexivity|].
  cbn [filter existsb map]. unfold blocks_join at 1.
  destruct v as [| b | z | x | s | l | d]; cbn [truthy is_text text_of negb].
  - exact IH.
  - destruct b; [reflexivity|exact IH].
  - destruct (negb (z =? 0)%Z); [reflexivity|exact IH].
  - destruct (float_truthy x); [reflexivity|exact IH].
  - rewrite andb_false_r. cbn [orb]. unfold nonempty at 1.
    destruct (negb (s =? "")); [|exact IH].
    cbn [strings_of]. rewrite IH. now destruct (existsb blocks_join items).
  - destruct l; [exact IH|reflexivity].
  - destruct d; [exact IH|reflexivity].
Qed.

Lemma address_parts_fields (location : dict) :
  address_parts location = filter truthy (address_fields location ++ [JStr "USA"]).
Proof. reflexivity. Qed.

(** The text that the join of the address gives. *)
Lemma py_join_address (location : dict) :
  py_join ", " (address_parts location)
  = if existsb blocks_join (address_fields location) then Raise TypeError
    else Ret (join ", " (filter nonempty (map text_of (address_fields location))
                         ++ ["USA"])).
Proof.
  unfold py_join. rewrite address_parts_fields, strings_of_filter, existsb_app.
  change (existsb blocks_join [JStr "USA"]) with false. rewrite orb_false_r.
  destruct (existsb blocks_join (address_fields location)); [reflexivity|].
  rewrite map_app, filter_app. reflexivity.
Qed.

Lemma update_location_info_raise_run (location : dict) w :
  coordinates_missing location = true ->
  existsb blocks_join (address_fields location) = true ->
  exists msg, update_location_info location w = (Raise TypeError, w, [Log INFO msg]).
Proof.
  intros Hc Hb. assert (Hj := py_join_address location). rewrite Hb in Hj.
  eexists. unfold update_location_info.
  unfold bind at 1. unfold log_info at 1, emit at 1.
  rewrite (bind_raises _ _ _ _ _ _ (geocode_missing_raises location _ w _ Hc Hj)).
  reflexivity.
Qed.

Lemma address_joins_unblocked (location : dict) :
  coordinates_missing location && existsb blocks_join (address_fields location) = false ->
  address_joins location.
Proof.
  intros H Hc. rewrite Hc, andb_true_l in H.
  rewrite py_join_address, H. eauto.
Qed.

(** X3: [update_location_info] raises in one case only: a coordinate is
    missing or empty and one of address, city, state and postal is a true
    value that is no text. It then raises [TypeError] before any call to
    the service. In every other case it returns, whatever the service
    does. *)
Theorem update_location_info_raises_before_calls (location : dict) (w : world) :
  if coordinates_missing location && existsb blocks_join (address_fields location)
  then exists msg,
         update_location_info location w = (Raise TypeError, w, [Log INFO msg])
  else exists location' out w' ev,
         update_location_info location w = (Ret (location', out), w', ev).
Proof.
  destruct (coordinates_missing location && existsb blocks_join (address_fields location))
    eqn:E.
  - apply andb_true_iff in E. destruct E as [Hc Hb].
    now apply update_location_info_raise_run.
  - destruct (update_location_info_run location w (address_joins_unblocked _ E))
      as (l1 & w1 & ev1 & a & w2 & logs & l2 & w3 & ev3 & start & _ & _ & _ & _ & _ & Er).
    rewrite Er. eauto.
Qed.

Lemma quiet_no_calls (ev : list event) : quiet ev -> filter is_remote_call ev = [].
Proof.
  induction 1 as [|e ev He _ IH]; simpl; [reflexivity|]. now rewrite He.
Qed.

(** X4: the calls of one record come in a fixed order: at most one geocode
    call, made exactly when a coordinate is missing or empty, then one
    find-place call, then at most one details call, made exactly when the
    first candidate has a non-empty identifier. *)
Theorem calls_of_one_record (location : dict) (w : world) location' out w' ev :
  update_location_info location w = (Ret (location', out), w', ev) ->
  exists geo answer details,
    filter is_remote_call ev
    = geo ++ CallFindPlace
               (find_place_query (get location "name" (JStr ""))
                  (get location "city" (JStr "")) (get location "state" (JStr "")))
               answer :: details /\
    (coordinates_missing location = false -> geo = []) /\
    (coordinates_missing location = true ->
     exists address result, geo = [CallGeocode address result]) /\
    (usable_place_id (first_candidate answer) = None -> details = []) /\
    (forall place_id, usable_place_id (first_candidate answer) = Some place_id ->
                      exists result, details = [CallPlace place_id result]).
Proof.
  intros Hrun.
  destruct (update_location_info_run location w (update_location_info_joins _ _ _ _ _ Hrun))
    as (l1 & w1 & ev1 & a & w2 & logs & l2 & w3 & ev3 & start
        & Hg & _ & Hq & Hs & Hp & E).
  rewrite E in Hrun. injection Hrun as <- <- <- <-.
  exists (filter is_remote_call ev1), a, (filter is_remote_call ev3).
  split.
  { rewrite !filter_app. simpl. rewrite filter_app.
    now rewrite (quiet_no_calls _ Hs), (quiet_no_calls _ Hq). }
  split; [|split; [|split]].
  - intros Hc. destruct Hg as [(_ & _ & _ & ->)|(Hc' & _)]; [reflexivity|congruence].
  - intros Hc.
    destruct Hg as [(Hc' & _)|(_ & fa & ga & glogs & _ & _ & _ & -> & Hgq)];
      [congruence|].
    exists fa, ga. simpl. now rewrite (quiet_no_calls _ Hgq).
  - intros Hu. destruct Hp as [(_ & _ & _ & Hq3)|(p & pa & plogs & Hu' & _)];
      [now apply quiet_no_calls|congruence].
  - intros place_id Hu.
    destruct Hp as [(Hu' & _)|(p & pa & plogs & Hu' & _ & _ & -> & Hpq)]; [congruence|].
    rewrite Hu in Hu'. injection Hu' as <-.
    exists pa. simpl. now rewrite (quiet_no_calls _ Hpq).
Qed.

End MoreEnrichment.

Section MoreEnrichment2.
Context {F : PyFloat} {R : PyRepr} {G : GoogleMaps}.

(** The geocode call of a run, when there is one. *)
Lemma geocode_event_of_run (location : dict) w r w' ev address answer :
  update_location_info location w = (r, w', ev) ->
  In (CallGeocode address answer) ev ->
  coordinates_missing location = true /\
  py_join ", " (address_parts location) = Ret address.
Proof.
  intros Hrun Hin.
  destruct (coordinates_missing location && existsb blocks_join (address_fields location))
    eqn:Eb.
  - apply andb_true_iff in Eb. destruct Eb as [Hc Hb].
    destruct (update_location_info_raise_run location w Hc Hb) as [msg E].
    rewrite E in Hrun. injection Hrun as _ _ <-.
    destruct Hin as [Hin|[]]. discriminate.
  - destruct (update_location_info_run location w (address_joins_unblocked _ Eb))
      as (l1 & w1 & ev1 & a & w2 & logs & l2 & w3 & ev3 & start
          & Hg & _ & Hq & Hs & Hp & E).
    rewrite E in Hrun. injection Hrun as _ _ <-.
    destruct (run_events _ _ _ _ _ _ _ _ _ _ _ _ Hs Hq Hp Hin) as [H|[H|[H _]]];
      try discriminate.
    destruct Hg as [(_ & _ & _ & ->)|(Hc & fa & ga & glogs & Hj & _ & _ & -> & Hgq)];
      [destruct H|].
    destruct H as [[= <- <-]|H]; [auto|].
    now destruct (quiet_event _ _ Hgq H) as [? _].
Qed.

(** X5: the address sent to the geocoder is made of the address, the city,
    the state and the postal code of the record, the empty ones left out,
    and of the country, joined by a comma and a space: a record with none
    of the four is geocoded as "USA". *)
Theorem geocode_address_composition (location : dict) (w : world) r w' ev
    address answer :
  update_location_info location w = (r, w', ev) ->
  In (CallGeocode address answer) ev ->
  address = join ", " (filter nonempty (map text_of (address_fields location))
                       ++ ["USA"]) /\
  (filter nonempty (map text_of (address_fields location)) = [] ->
   address = "USA").
Proof.
  intros Hrun Hin.
  destruct (geocode_event_of_run _ _ _ _ _ _ _ Hrun Hin) as [_ Hj].
  rewrite py_join_address in Hj.
  destruct (existsb blocks_join (address_fields location)); [discriminate|].
  assert (Ha : address
               = join ", " (filter nonempty (map text_of (address_fields location))
                            ++ ["USA"])) by congruence.
  split; [exact Ha|]. intros H. rewrite Ha, H. reflexivity.
Qed.

(** X6: when the geocoding gives no result, because the call raised or
    found nothing, [lat] and [lng] of the output are those of the record,
    as text; a coordinate that was present is not lost. *)
Theorem coordinates_kept_without_result (location : dict) (w : world)
    location' out w' ev :
  update_location_info location w = (Ret (location', out), w', ev) ->
  (forall address c rest, ~ In (CallGeocode address (inr (c :: rest))) ev) ->
  lookup out "lat" = Some (JStr (py_str (get location "lat" (JStr "")))) /\
  lookup out "lng" = Some (JStr (py_str (get location "lng" (JStr "")))).
Proof.
  intros Hrun Hno.
  destruct (update_location_info_run location w (update_location_info_joins _ _ _ _ _ Hrun))
    as (l1 & w1 & ev1 & a & w2 & logs & l2 & w3 & ev3 & start
        & Hg & _ & Hq & Hs & Hp & E).
  rewrite E in Hrun. injection Hrun as <- <- <- <-.
  assert (Hl1 : l1 = location).
  { destruct Hg as [(_ & -> & _)|(_ & fa & ga & glogs & _ & _ & -> & -> & _)];
      [reflexivity|].
    destruct ga as [e|[|c rest]]; try reflexivity.
    exfalso. apply (Hno fa c rest).
    apply in_or_app. right. apply in_or_app. left. now left. }
  subst l1. destruct (out_coordinates l2) as [-> ->].
  rewrite (get_of_lookup l2 location "lat"), (get_of_lookup l2 location "lng")
    by (apply (place_stage_frame _ _ _ _ _ _ _ Hp); discriminate).
  auto.
Qed.

(** The details call of a run, when there is one. *)
Lemma details_event_of_run (location : dict) w location' out w' ev :
  update_location_info location w = (Ret (location', out), w', ev) ->
  exists location1 location2,
    out = reorder (finish_location location2) /\
    (forall k, k <> "lat" -> k <> "lng" -> lookup location1 k = lookup location k) /\
    ((location2 = location1 /\ forall place_id answer, ~ In (CallPlace place_id answer) ev)
     \/
     (exists place_id answer,
        In (CallPlace place_id answer) ev /\
        (forall place_id' answer', In (CallPlace place_id' answer') ev ->
                                   place_id' = place_id /\ answer' = answer) /\
        location2 = if details_truthy (details_of answer)
                    then merge_details location1 (details_of answer)
                    else location1)).
Proof.
  intros Hrun.
  destruct (update_location_info_run location w (update_location_info_joins _ _ _ _ _ Hrun))
    as (l1 & w1 & ev1 & a & w2 & logs & l2 & w3 & ev3 & start
        & Hg & _ & Hq & Hs & Hp & E).
  rewrite E in Hrun. injection Hrun as <- <- <- <-.
  exists l1, l2. split; [reflexivity|].
  split; [intros k H1 H2; now apply (geocode_stage_frame _ _ _ _ _ _ Hg)|].
  assert (Hother : forall p pa,
             In (CallPlace p pa)
                (start ++ ev1 ++ CallFindPlace
                   (find_place_query (get location "name" (JStr ""))
                      (get location "city" (JStr "")) (get location "state" (JStr "")))
                   a :: logs ++ ev3) ->
             In (CallPlace p pa) ev3).
  { intros p pa Hin.
    apply in_app_or in Hin. destruct Hin as [Hin|Hin];
      [now destruct (quiet_event _ _ Hs Hin) as (_ & ? & _)|].
    apply in_app_or in Hin. destruct Hin as [Hin|Hin].
    { destruct Hg as [(_ & _ & _ & ->)|(_ & fa & ga & glogs & _ & _ & _ & -> & Hgq)];
        [destruct Hin|].
      destruct Hin as [Hin|Hin]; [discriminate|].
      now destruct (quiet_event _ _ Hgq Hin) as (_ & ? & _). }
    destruct Hin as [Hin|Hin]; [discriminate|].
    apply in_app_or in Hin. destruct Hin as [Hin|Hin]; [|assumption].
    now destruct (quiet_event _ _ Hq Hin) as (_ & ? & _). }
  destruct Hp as [(_ & -> & _ & Hq3)|(p & pa & plogs & _ & _ & -> & -> & Hpq)].
  - left. split; [reflexivity|]. intros p pa Hin. apply Hother in Hin.
    now destruct (quiet_event _ _ Hq3 Hin) as (_ & ? & _).
  - right. exists p, pa. split; [|split; [|reflexivity]].
    + apply in_or_app. right. apply in_or_app. right. right.
      apply in_or_app. right. now left.
    + intros p' pa' Hin. apply Hother in Hin.
      destruct Hin as [[= <- <-]|Hin]; [auto|].
      now destruct (quiet_event _ _ Hpq Hin) as (_ & ? & _).
Qed.

Lemma merged_fields_facts field :
  In field merged_fields ->
  In field EXPECTED_FIELDS /\ field <> "lat" /\ field <> "lng" /\ field <> "featured".
Proof.
  unfold merged_fields. simpl. intros Hin.
  repeat (destruct Hin as [<-|Hin]; [repeat split; try discriminate; tauto|]).
  destruct Hin.
Qed.

(** X7: when no details come, because no details call is made, or it
    raised, or its answer has no result or an empty one, the enrichment
    leaves address, city, state, postal, phone, web and hours1 as they
    were. *)
Theorem no_details_keeps_fields (location : dict) (w : world) location' out w' ev :
  update_location_info location w = (Ret (location', out), w', ev) ->
  (forall place_id answer,
      In (CallPlace place_id answer) ev ->
      details_truthy (details_of answer) = false) ->
  forall field, In field merged_fields ->
                lookup out field = Some (get location field (JStr "")).
Proof.
  intros Hrun Hno field Hin.
  destruct (details_event_of_run _ _ _ _ _ _ Hrun)
    as (l1 & l2 & -> & Hfr & Hcases).
  destruct (merged_fields_facts _ Hin) as (H0 & H1 & H2 & H3).
  rewrite out_other by assumption. f_equal.
  assert (Hl2 : l2 = l1).
  { destruct Hcases as [[-> _]|(p & pa & Hinp & _ & ->)]; [reflexivity|].
    now rewrite (Hno p pa Hinp). }
  subst l2. apply get_of_lookup. now apply Hfr.
Qed.

(** The seven fields after the merge depend on the seven fields before. *)
Lemma merge_details_fields (a b : dict) details field :
  (forall k, k <> "lat" -> k <> "lng" -> lookup a k = lookup b k) ->
  In field merged_fields ->
  lookup (merge_details a details) field = lookup (merge_details b details) field.
Proof.
  intros Hab Hin.
  assert (Hget : forall k, k <> "lat" -> k <> "lng" ->
                           get a k (JStr "") = get b k (JStr "")).
  { intros k H1 H2. apply get_of_lookup. now apply Hab. }
  destruct (lookup_merge_details_address a details) as (Ha1 & Ha2 & Ha3 & Ha4).
  destruct (lookup_merge_details_address b details) as (Hb1 & Hb2 & Hb3 & Hb4).
  destruct (lookup_merge_details_contact a details) as (Ha5 & Ha6).
  destruct (lookup_merge_details_contact b details) as (Hb5 & Hb6).
  assert (Ha7 := lookup_merge_details_hours1 a details).
  assert (Hb7 := lookup_merge_details_hours1 b details).
  cbv zeta in Ha1, Ha2, Ha3, Ha4, Hb1, Hb2, Hb3, Hb4.
  unfold merged_fields in Hin. simpl in Hin.
  destruct Hin as [<-|[<-|[<-|[<-|[<-|[<-|[<-|[]]]]]]]].
  - rewrite Ha1, Hb1, Hget by discriminate. reflexivity.
  - rewrite Ha2, Hb2, Hget by discriminate. reflexivity.
  - rewrite Ha3, Hb3, Hget by discriminate. reflexivity.
  - rewrite Ha4, Hb4, Hget by discriminate. reflexivity.
  - rewrite Ha5, Hb5, Hget by discriminate. reflexivity.
  - rewrite Ha6, Hb6, Hget by discriminate. reflexivity.
  - rewrite Ha7, Hb7, Hget by discriminate. reflexivity.
Qed.

(** X8: when the details call answers with details that are not empty,
    the seven fields of the output are those of the merge of these details
    into the record: what the merge writes reaches the output whatever the
    geocoding did. *)
Theorem details_reach_output (location : dict) (w : world) location' out w' ev
    place_id answer :
  update_location_info location w = (Ret (location', out), w', ev) ->
  In (CallPlace place_id answer) ev ->
  details_truthy (details_of answer) = true ->
  forall field, In field merged_fields ->
                lookup out field
                = lookup (merge_details location (details_of answer)) field.
Proof.
  intros Hrun Hinp Ht field Hin.
  destruct (details_event_of_run _ _ _ _ _ _ Hrun)
    as (l1 & l2 & -> & Hfr & Hcases).
  destruct (merged_fields_facts _ Hin) as (H0 & H1 & H2 & H3).
  destruct Hcases as [[_ Hnone]|(p & pa & _ & Huniq & ->)];
    [now destruct (Hnone place_id answer)|].
  destruct (Huniq _ _ Hinp) as [-> ->]. rewrite Ht.
  rewrite out_other by assumption.
  rewrite <- (merge_details_fields l1 location _ field Hfr Hin).
  unfold get. destruct (lookup (merge_details l1 (details_of pa)) field) eqn:El;
    [reflexivity|].
  exfalso. revert El.
  destruct (lookup_merge_details_address l1 (details_of pa)) as (A1 & A2 & A3 & A4).
  destruct (lookup_merge_details_contact l1 (details_of pa)) as (A5 & A6).
  assert (A7 := lookup_merge_details_hours1 l1 (details_of pa)).
  cbv zeta in A1, A2, A3, A4.
  unfold merged_fields in Hin. simpl in Hin.
  destruct Hin as [<-|[<-|[<-|[<-|[<-|[<-|[<-|[]]]]]]]]; congruence.
Qed.

End MoreEnrichment2.

(** ** More on the ID assignment *)

Section MoreAssignIds.
Context {F : PyFloat} {R : PyRepr} {G : GoogleMaps}.

Lemma stops_at_cons (l : dict) rest e :
  readable_id l -> stops_at rest e -> stops_at (l :: rest) e.
Proof.
  intros Hl (before & bad & after & -> & Hb & He).
  exists (l :: before), bad, after. split; [reflexivity|]. split; [now constructor|auto].
Qed.

Lemma stops_at_unreadable (locations : list dict) e :
  stops_at locations e -> ~ Forall readable_id locations.
Proof.
  intros (before & bad & after & -> & _ & He) Hall.
  apply Forall_app in Hall. destruct Hall as [_ Hall].
  inversion Hall as [|? ? (s & Hs & Hd) _]; subst.
  destruct He as [[Hn _]|(s' & Hs' & Hdig & Hint & _)]; [congruence|].
  rewrite Hs in Hs'. injection Hs' as ->. destruct (Hd Hdig). congruence.
Qed.

Lemma collect_ids_outcome (locations : list dict) :
  forall existing_ids max_id w,
  exists r ev,
    collect_ids locations existing_ids max_id w = (r, w, ev) /\
    Forall (fun e => is_warning e = true) ev /\
    match r with
    | Ret _ => Forall readable_id locations /\
               List.length ev = List.length (without_integer_id locations)
    | Raise e => stops_at locations e
    end.
Proof.
  induction locations as [|l rest IH]; intros existing_ids max_id w; simpl.
  - exists (Ret (existing_ids, max_id)), []. repeat split; constructor.
  - unfold has_integer_id, id_text.
    destruct (get l "id" (JStr "")) as [| | | |s| |] eqn:Eg;
      try (exists (Raise AttributeError), []; split; [reflexivity|];
           split; [constructor|]; exists [], l, rest; split; [reflexivity|];
           split; [constructor|]; left; unfold id_text; rewrite Eg; auto).
    assert (Ht : id_text l = Some s) by (unfold id_text; now rewrite Eg).
    destruct (isdigit s) eqn:Ed.
    + destruct (py_int s) as [n|] eqn:Ei.
      * destruct (IH (n :: existing_ids) (N.max max_id n) w) as (r & ev & E & Hw & Hr).
        exists r, ev. split; [exact E|]. split; [exact Hw|].
        assert (Hl : readable_id l) by (exists s; split; [exact Ht|]; eauto).
        destruct r as [seen|e]; [|now apply stops_at_cons].
        destruct Hr as [Hall Hlen]. split; [now constructor|exact Hlen].
      * exists (Raise ValueError), []. split; [reflexivity|]. split; [constructor|].
        exists [], l, rest. split; [reflexivity|]. split; [constructor|].
        right. exists s. auto.
    + destruct (IH existing_ids max_id w) as (r & ev & E & Hw & Hr).
      exists r, (Log WARNING ("Non-integer or missing ID found: " ++ s) :: ev).
      split; [unfold bind, log_warning, emit; now rewrite E|].
      split; [now constructor|].
      assert (Hl : readable_id l) by (exists s; split; [exact Ht|]; congruence).
      destruct r as [seen|e]; [|now apply stops_at_cons].
      destruct Hr as [Hall Hlen]. split; [now constructor|]. simpl. now rewrite Hlen.
Qed.

(** The second pass: it returns when the numbers that it hands out stay
    below the bound of [str], and raises at the first one that does not. *)
Lemma assign_new_ids_outcome (locations : list dict) :
  Forall readable_id locations ->
  forall next_id w,
  (next_id <= int_str_bound)%N ->
  exists r ev,
    assign_new_ids locations next_id w = (r, w, ev) /\
    Forall (fun e => is_info e = true) ev /\
    match r with
    | Ret out =>
        out = renumbered locations next_id /\
        (next_id + N.of_nat (List.length (without_integer_id locations))
         <= int_str_bound)%N /\
        List.length ev = List.length (without_integer_id locations)
    | Raise e =>
        e = ValueError /\
        (int_str_bound
         < next_id + N.of_nat (List.length (without_integer_id locations)))%N /\
        N.of_nat (List.length ev) = (int_str_bound - next_id)%N
    end.
Proof.
  induction 1 as [|location rest Hr _ IH]; intros next_id w Hle.
  - exists (Ret []), []. simpl. repeat split; [constructor|lia].
  - cbn [assign_new_ids renumbered]. rewrite without_integer_id_cons.
    destruct Hr as (s & Hs & _). unfold has_integer_id. rewrite Hs.
    unfold id_text in Hs. destruct (get location "id" (JStr "")); try discriminate.
    injection Hs as ->. destruct (isdigit s).
    + destruct (IH next_id w Hle) as (r & ev & E & Hi & Hcase). exists
        (match r with Ret out => Ret (location :: out) | Raise e => Raise e end), ev.
      split; [unfold bind, ret; rewrite E; destruct r; now rewrite ?app_nil_r|].
      split; [exact Hi|]. destruct r as [out|e]; [|exact Hcase].
      destruct Hcase as (-> & Hfit & Hlen). auto.
    + destruct (N.lt_ge_cases next_id int_str_bound) as [Hlt|Hge].
      * rewrite (str_of_N_below next_id Hlt).
        destruct (IH (next_id + 1)%N w) as (r & ev & E & Hi & Hcase); [lia|].
        exists (match r with
                | Ret out =>
                    Ret (setitem location "id" (JStr (numeral next_id)) :: out)
                | Raise e => Raise e
                end),
               (Log INFO ("Assigned new ID " ++ numeral next_id ++ " to location "
                          ++ py_str (get (setitem location "id"
                                            (JStr (numeral next_id)))
                                       "name" (JStr ""))) :: ev).
        split; [unfold bind, ret, log_info, emit; rewrite E; destruct r;
                now rewrite ?app_nil_r|].
        split; [now constructor|]. cbn [List.length].
        destruct r as [out|e].
        -- destruct Hcase as (-> & Hfit & Hlen). repeat split; [lia|now rewrite Hlen].
        -- destruct Hcase as (-> & Hfit & Hlen). repeat split; lia.
      * rewrite (str_of_N_above next_id Hge).
        exists (Raise ValueError), []. split; [reflexivity|].
        split; [constructor|]. cbn [List.length]. repeat split; lia.
Qed.

(** X9: [assign_ids] never calls the service and only logs. It returns
    exactly on a batch whose IDs it can read and whose new IDs stay within
    the digits that [str] writes, with one warning and then one assignment
    log for each record without an integer ID. Otherwise it raises: in the
    first pass at the first record that it cannot read, before any ID is
    assigned, [AttributeError] for an ID that is no text and [ValueError]
    for an ID of digit characters that [int] does not read; or in the
    second pass, [ValueError] when the next ID has more digits than [str]
    writes, after the IDs below that bound have been assigned. *)
Theorem assign_ids_outcome (locations : list dict) (w : world) :
  exists r ev,
    assign_ids locations w = (r, w, ev) /\
    Forall (fun e => is_log e = true) ev /\
    match r with
    | Ret out =>
        Forall readable_id locations /\ ids_fit locations /\
        exists warnings assignments,
          ev = warnings ++ assignments /\
          Forall (fun e => is_warning e = true) warnings /\
          Forall (fun e => is_info e = true) assignments /\
          List.length warnings = List.length (without_integer_id locations) /\
          List.length assignments = List.length (without_integer_id locations)
    | Raise e =>
        (stops_at locations e /\ ~ Forall readable_id locations /\
         Forall (fun e => is_warning e = true) ev) \/
        (e = ValueError /\ Forall readable_id locations /\ ~ ids_fit locations /\
         exists warnings assignments,
           ev = warnings ++ assignments /\
           Forall (fun e => is_warning e = true) warnings /\
           Forall (fun e => is_info e = true) assignments /\
           List.length warnings = List.length (without_integer_id locations) /\
           N.of_nat (List.length assignments)
           = (int_str_bound - (max_kept_id locations + 1))%N)
    end.
Proof.
  unfold assign_ids.
  destruct (collect_ids_outcome locations [] 0%N w) as (r & ev1 & E1 & Hw & Hr).
  assert (Hwl : Forall (fun e => is_log e = true) ev1).
  { eapply Forall_impl; [|exact Hw]. intros [[]| | | | | | | | | | | | | | |]; simpl; auto;
      discriminate. }
  destruct r as [seen|e].
  - destruct Hr as [Hall Hlen].
    assert (Hmax : snd seen = max_kept_id locations).
    { rewrite (collect_ids_max _ _ _ _ _ _ _ E1). apply N.max_0_l. }
    assert (Hbelow := max_kept_id_below locations).
    destruct (assign_new_ids_outcome locations Hall (snd seen + 1)%N w)
      as (r & ev2 & E2 & Hi & Hcase); [lia|].
    exists r, (ev1 ++ ev2).
    split; [rewrite (bind_returns _ _ _ _ _ _ E1); cbv beta zeta; now rewrite E2|].
    split.
    { apply Forall_app. split; [exact Hwl|].
      eapply Forall_impl; [|exact Hi].
      intros [[]| | | | | | | | | | | | | | |]; simpl; auto; discriminate. }
    rewrite Hmax in Hcase. destruct r as [out|e].
    + destruct Hcase as (_ & Hfit & Hl2).
      split; [exact Hall|]. split; [unfold ids_fit; lia|]. exists ev1, ev2. auto.
    + destruct Hcase as (-> & Hfit & Hl2). right.
      split; [reflexivity|]. split; [exact Hall|].
      split; [unfold ids_fit; lia|]. exists ev1, ev2. auto.
  - exists (Raise e), ev1. split; [now rewrite (bind_raises _ _ _ _ _ _ E1)|].
    split; [exact Hwl|]. left. split; [exact Hr|]. split; [|exact Hw].
    now apply stops_at_unreadable with e.
Qed.

End MoreAssignIds.

Section MoreAssignIds2.
Context {F : PyFloat} {R : PyRepr} {G : GoogleMaps}.

Lemma keys_setitem_absent (d : dict) k v :
  ~ In k (keys d) -> keys (setitem d k v) = keys d ++ [k].
Proof.
  induction d as [|[k' v'] d IH]; simpl; [reflexivity|].
  intros Hn. destruct (String.eqb_spec k' k) as [->|Hne]; [tauto|].
  simpl. f_equal. apply IH. tauto.
Qed.

Lemma renumbered_keys (locations : list dict) :
  forall next_id,
  Forall2 (fun l o =>
             (forall k, k <> "id" -> lookup o k = lookup l k) /\
             (In "id" (keys l) -> keys o = keys l) /\
             (~ In "id" (keys l) -> keys o = keys l ++ ["id"]))
          locations (renumbered locations next_id).
Proof.
  induction locations as [|l rest IH]; intros next_id; simpl; [constructor|].
  destruct (has_integer_id l) eqn:E; (constructor; [|apply IH]).
  - split; [auto|]. split; [auto|]. intros Hn. exfalso.
    unfold has_integer_id, id_text, get in E.
    assert (Hl : lookup l "id" = None).
    { clear E. unfold keys in Hn. induction l as [|[k v] l IHl]; simpl; [reflexivity|].
      simpl in Hn. destruct (String.eqb_spec k "id"); [tauto|]. apply IHl. tauto. }
    rewrite Hl in E. discriminate.
  - split; [intros k Hk; apply lookup_setitem_other; congruence|].
    split; [apply keys_setitem_present|apply keys_setitem_absent].
Qed.

(** X10: [assign_ids] writes nothing but the ID: every other field of every
    record keeps its value, a record that had an [id] key keeps its keys in
    their order, so a normalised record stays normalised, and a record
    without one gets it as its last key. *)
Theorem assign_ids_frame (locations : list dict) (w : world) out w' ev :
  assign_ids locations w = (Ret out, w', ev) ->
  Forall2 (fun l o =>
             (forall k, k <> "id" -> lookup o k = lookup l k) /\
             (In "id" (keys l) -> keys o = keys l) /\
             (~ In "id" (keys l) -> keys o = keys l ++ ["id"]) /\
             (canonical l -> canonical o))
          locations out.
Proof.
  intros H. apply assign_ids_result in H. subst out.
  eapply Forall2_impl; [|apply renumbered_keys].
  intros l o (Hf & Hk & Ha). repeat split; auto.
  unfold canonical. intros Hc. rewrite Hk; [exact Hc|]. rewrite Hc. simpl. tauto.
Qed.

Lemma kept_all_runs (locations : list dict) :
  Forall (fun l => has_integer_id l = true /\ exists n, id_number l = Some n) locations ->
  (forall existing_ids max_id w,
      exists seen, collect_ids locations existing_ids max_id w = (Ret seen, w, [])) /\
  (forall next_id w, assign_new_ids locations next_id w = (Ret locations, w, [])).
Proof.
  induction 1 as [|l rest [Hk [n Hn]] _ [IH1 IH2]]; split; intros; simpl;
    try (eexists; reflexivity); try reflexivity.
  - unfold has_integer_id, id_number, id_text in Hk, Hn.
    destruct (get l "id" (JStr "")); try discriminate.
    rewrite Hk in Hn |- *. rewrite Hn. apply IH1.
  - unfold has_integer_id, id_text in Hk.
    destruct (get l "id" (JStr "")); try discriminate.
    rewrite Hk. unfold bind, ret. now rewrite IH2.
Qed.

(** X11: [assign_ids] is idempotent: on a batch that it has returned it
    returns the same batch, and logs nothing. *)
Theorem assign_ids_idempotent (locations : list dict) (w : world) out w' ev :
  assign_ids locations w = (Ret out, w', ev) ->
  assign_ids out w' = (Ret out, w', []).
Proof.
  intros H.
  assert (Hr := assign_ids_readable _ _ _ _ _ H).
  assert (Hfit : (max_kept_id locations + 1
                  + N.of_nat (List.length (without_integer_id locations))
                  <= int_str_bound)%N).
  { assert (Hf := assign_ids_fit _ _ _ _ _ H). unfold ids_fit in Hf. lia. }
  apply assign_ids_result in H. subst out.
  assert (Hall : Forall (fun l => has_integer_id l = true /\
                                  exists n, id_number l = Some n)
                        (renumbered locations (max_kept_id locations + 1))).
  { apply Forall_forall. intros l Hin.
    destruct (in_renumbered _ _ _ Hfit Hin) as [[Hin' Hi]|(n & _ & Ht & Hn)].
    - split; [exact Hi|]. apply readable_kept; [|exact Hi].
      rewrite Forall_forall in Hr. now apply Hr.
    - split; [|now exists n]. unfold has_integer_id. rewrite Ht.
      apply isdigit_numeral. }
  destruct (kept_all_runs _ Hall) as [H1 H2].
  unfold assign_ids.
  destruct (H1 [] 0%N w') as [seen E1].
  rewrite (bind_returns _ _ _ _ _ _ E1). cbv beta zeta. now rewrite H2.
Qed.

(** The ID of a record goes through the enrichment. *)
Lemma update_location_info_id (location : dict) w location' out w' ev :
  update_location_info location w = (Ret (location', out), w', ev) ->
  id_text out = id_text location.
Proof.
  intros Hrun.
  destruct (details_event_of_run _ _ _ _ _ _ Hrun) as (l1 & l2 & -> & Hfr & Hcases).
  unfold id_text. unfold get at 1.
  rewrite out_other by (simpl; try discriminate; tauto).
  assert (Hl2 : lookup l2 "id" = lookup l1 "id").
  { destruct Hcases as [[-> _]|(p & pa & _ & _ & ->)]; [reflexivity|].
    destruct (details_truthy (details_of pa)); [|reflexivity].
    apply lookup_merge_details_other; discriminate. }
  rewrite (get_of_lookup l2 location "id" (JStr ""));
    [reflexivity|]. rewrite Hl2. apply Hfr; discriminate.
Qed.

(** X12: the enrichment never touches an ID: the records that
    [process_locations] returns carry, in order, the IDs of the records it
    was given, so IDs that are distinct after the assignment are distinct
    in the output. *)
Theorem process_locations_keeps_ids (locations : list dict) (w : world) out w' ev :
  process_locations locations w = (Ret out, w', ev) ->
  map id_text out = map id_text locations /\
  (NoDup (map id_text locations) -> NoDup (map id_text out)).
Proof.
  intros H. apply process_locations_inv in H.
  assert (Hm : map id_text out = map id_text locations).
  { induction H as [|l o ls os (w1 & l' & w2 & ev' & Hu) _ IH]; simpl; [reflexivity|].
    now rewrite IH, (update_location_info_id _ _ _ _ _ _ Hu). }
  split; [exact Hm|]. now rewrite Hm.
Qed.

End MoreAssignIds2.

Section MorePreprocess.
Context {F : PyFloat}.

Lemma preprocess_items_outcome (items : list json) :
  match preprocess_items items with
  | Ret locations =>
      exists records, items = map JDict records /\ locations = map reorder records
  | Raise e => e = AttributeError /\ existsb no_object items = true
  end.
Proof.
  induction items as [|v items IH]; simpl.
  - now exists [].
  - destruct v; simpl; auto.
    destruct (preprocess_items items) as [locations|e].
    + destruct IH as (records & -> & ->). now exists (d :: records).
    + exact IH.
Qed.

(** X13: [preprocess_locations] returns exactly on what can be iterated
    into objects: on a list of objects, with one normalised record for each,
    in order, and on the empty object and the empty text, which it takes
    for an empty list. On a value that cannot be iterated it raises
    [TypeError], and on one with an item that is no object
    [AttributeError]. *)
Theorem preprocess_locations_outcome (locations_data : json) :
  match preprocess_locations locations_data with
  | Ret locations =>
      (exists records, locations_data = JList (map JDict records) /\
                       locations = map reorder records) \/
      ((locations_data = JDict [] \/ locations_data = JStr "") /\ locations = [])
  | Raise e =>
      (e = TypeError /\ py_iter locations_data = Raise TypeError) \/
      (e = AttributeError /\
       exists items, py_iter locations_data = Ret items /\
                     existsb no_object items = true)
  end.
Proof.
  unfold preprocess_locations.
  destruct locations_data as [| b | z | x | s | l | d]; simpl; auto.
  - destruct s as [|c s]; simpl; [right; auto|].
    right. split; [reflexivity|]. eexists. split; reflexivity.
  - assert (H := preprocess_items_outcome l).
    destruct (preprocess_items l) as [locations|e].
    + destruct H as (records & -> & ->). left. now exists records.
    + destruct H as [-> H]. right. split; [reflexivity|]. now exists l.
  - destruct d as [|[k v] d]; simpl; [right; auto|].
    right. split; [reflexivity|]. eexists. split; reflexivity.
Qed.

End MorePreprocess.

(** ** What a computation emits *)

Section Emits.
Context {F : PyFloat} {R : PyRepr} {G : GoogleMaps}.

Lemma bind_inv_any {A B} (m : M A) (k : A -> M B) w r w' ev :
  bind m k w = (r, w', ev) ->
  (exists e, m w = (Raise e, w', ev) /\ r = Raise e) \/
  (exists a w1 ev1 ev2,
      m w = (Ret a, w1, ev1) /\ k a w1 = (r, w', ev2) /\ ev = ev1 ++ ev2).
Proof.
  unfold bind. destruct (m w) as [[[a|e] w1] ev1].
  - destruct (k a w1) as [[r2 w2] ev2] eqn:E. intros [= <- <- <-].
    right. now exists a, w1, ev1, ev2.
  - intros [= <- <- <-]. left. now exists e.
Qed.

Lemma try_except_inv {A} (m : M A) (h : exn -> M A) w r w' ev :
  try_except m h w = (r, w', ev) ->
  (exists a, m w = (Ret a, w', ev) /\ r = Ret a) \/
  (exists e w1 ev1 ev2,
      m w = (Raise e, w1, ev1) /\ h e w1 = (r, w', ev2) /\ ev = ev1 ++ ev2).
Proof.
  unfold try_except. destruct (m w) as [[[a|e] w1] ev1].
  - intros [= <- <- <-]. left. now exists a.
  - destruct (h e w1) as [[r2 w2] ev2] eqn:E. intros [= <- <- <-].
    right. now exists e, w1, ev1, ev2.
Qed.

Lemma emits_ret {A} p (a : A) : emits p (ret a).
Proof. intros w r w' ev [= _ _ <-]. constructor. Qed.

Lemma emits_raise {A} p e : emits p (@raise _ _ A e).
Proof. intros w r w' ev [= _ _ <-]. constructor. Qed.

Lemma emits_lift {A} p (o : outcome A) : emits p (lift o).
Proof. destruct o; [apply emits_ret|apply emits_raise]. Qed.

Lemma emits_emit p e : p e = true -> emits p (emit e).
Proof. intros H w r w' ev [= _ _ <-]. now repeat constructor. Qed.

Lemma emits_call {A} p (record : exn + A -> event) f :
  (forall answer, p (record answer) = true) -> emits p (call record f).
Proof.
  intros H w r w' ev. unfold call. destruct (f w) as [[e|a] w1];
    intros [= _ _ <-]; now repeat constructor.
Qed.

Lemma emits_bind {A B} p (m : M A) (k : A -> M B) :
  emits p m -> (forall a, emits p (k a)) -> emits p (bind m k).
Proof.
  intros Hm Hk w r w' ev H. apply bind_inv_any in H.
  destruct H as [(e & H & _)|(a & w1 & ev1 & ev2 & H1 & H2 & ->)].
  - eapply Hm, H.
  - apply Forall_app. split; [eapply Hm, H1|eapply Hk, H2].
Qed.

Lemma emits_try_except {A} p (m : M A) (h : exn -> M A) :
  emits p m -> (forall e, emits p (h e)) -> emits p (try_except m h).
Proof.
  intros Hm Hh w r w' ev H. apply try_except_inv in H.
  destruct H as [(a & H & _)|(e & w1 & ev1 & ev2 & H1 & H2 & ->)].
  - eapply Hm, H.
  - apply Forall_app. split; [eapply Hm, H1|eapply Hh, H2].
Qed.

Lemma emits_weaken {A} (p q : event -> bool) (m : M A) :
  (forall e, p e = true -> q e = true) -> emits p m -> emits q m.
Proof.
  intros Hpq Hm w r w' ev H. eapply Forall_impl; [|eapply Hm, H]. exact Hpq.
Qed.

Local Ltac emits_step :=
  first
    [ apply emits_ret
    | apply emits_raise
    | apply emits_lift
    | apply emits_emit; reflexivity
    | apply emits_call; intros; reflexivity
    | apply emits_bind; [|intros]
    | apply emits_try_except; [|intros]
    | match goal with
      | |- emits _ (if ?b then _ else _) => destruct b
      | |- emits _ (match ?x with _ => _ end) => destruct x
      end ].

Lemma find_place_backstage (location_name city state : json) :
  emits backstage (find_place location_name city state).
Proof. unfold find_place, log_error. repeat emits_step. Qed.

Lemma get_place_details_backstage (place_id : string) :
  emits backstage (get_place_details place_id).
Proof. unfold get_place_details, log_error, sleep. repeat emits_step. Qed.

Lemma geocode_missing_backstage (location : dict) location_id city state postal :
  emits backstage (geocode_missing location location_id city state postal).
Proof.
  unfold geocode_missing, log_error, log_warning, log_info, sleep. repeat emits_step.
Qed.

Lemma merge_place_backstage (location : dict) location_id place :
  emits backstage (merge_place location location_id place).
Proof.
  unfold merge_place, log_warning, log_info.
  repeat first [ apply get_place_details_backstage | emits_step ].
Qed.

Lemma update_location_info_backstage (location : dict) :
  emits backstage (update_location_info location).
Proof.
  unfold update_location_info, log_info, sleep.
  repeat first [ apply geocode_missing_backstage | apply find_place_backstage
               | apply merge_place_backstage | emits_step ].
Qed.

Lemma process_loop_processing (locations : list dict) :
  forall idx total, emits processing (process_loop locations idx total).
Proof.
  induction locations as [|l rest IH]; intros idx total; simpl.
  - apply emits_ret.
  - unfold sleep.
    repeat first
      [ apply IH
      | apply (emits_weaken backstage processing);
        [intros [] H; try discriminate; reflexivity
        |apply update_location_info_backstage]
      | emits_step ].
Qed.

Lemma process_locations_processing (locations : list dict) :
  emits processing (process_locations locations).
Proof.
  unfold process_locations.
  repeat first [ apply process_loop_processing | emits_step ].
Qed.

Lemma collect_ids_logs (locations : list dict) :
  forall existing_ids max_id, emits is_log (collect_ids locations existing_ids max_id).
Proof.
  induction locations as [|l rest IH]; intros existing_ids max_id; simpl.
  - apply emits_ret.
  - unfold log_warning. repeat first [ apply IH | emits_step ].
Qed.

Lemma assign_new_ids_is_log (locations : list dict) :
  forall next_id, emits is_log (assign_new_ids locations next_id).
Proof.
  induction locations as [|l rest IH]; intros next_id; simpl.
  - apply emits_ret.
  - unfold log_info. repeat first [ apply IH | emits_step ].
Qed.

Lemma assign_ids_is_log (locations : list dict) : emits is_log (assign_ids locations).
Proof.
  unfold assign_ids.
  repeat first [ apply collect_ids_logs | apply assign_new_ids_is_log | emits_step ].
Qed.

End Emits.

(** ** The address components *)

Section Components.

Lemma last_name_snoc test name components c :
  last_name test name (components ++ [c])
  = if test c then text_or_empty (name c) else last_name test name components.
Proof.
  unfold last_name. rewrite rev_app_distr. simpl. now destruct (test c).
Qed.

Lemma parse_components_snoc components c :
  parse_components (components ++ [c])
  = parse_component (parse_components components) c.
Proof. unfold parse_components. now rewrite fold_left_app. Qed.

(** X14: each part of the parsed address comes from the last component
    that takes the branch of that part, and is empty when none does; a
    component takes the first branch, in the order street number, route,
    locality, administrative area, postal code, whose type it carries, and
    a component with none of these types is ignored. The state is the short
    name of its component, the other parts are long names. *)
Theorem parse_components_last_wins (components : list address_component) :
  let parsed := parse_components components in
  pa_street_number parsed = last_name sets_street_number comp_long_name components /\
  pa_route parsed = last_name sets_route comp_long_name components /\
  pa_city parsed = last_name sets_city comp_long_name components /\
  pa_state parsed = last_name sets_state comp_short_name components /\
  pa_postal parsed = last_name sets_postal comp_long_name components.
Proof.
  induction components as [|c components IH] using rev_ind.
  - repeat split.
  - cbv zeta in IH |- *. destruct IH as (H1 & H2 & H3 & H4 & H5).
    rewrite parse_components_snoc, !last_name_snoc.
    unfold parse_component, sets_street_number, sets_route, sets_city, sets_state,
      sets_postal.
    destruct (has_type "street_number" (comp_types c)); [simpl; auto|].
    destruct (has_type "route" (comp_types c)); [simpl; auto|].
    destruct (has_type "locality" (comp_types c)); [simpl; auto|].
    destruct (has_type "administrative_area_level_1" (comp_types c)); [simpl; auto|].
    destruct (has_type "postal_code" (comp_types c)); simpl; auto.
Qed.

End Components.

(** ** Sleeps, progress and the run of [main] *)

Section Batch.
Context {F : PyFloat} {R : PyRepr} {G : GoogleMaps}.

Lemma count_app p ev1 ev2 : count p (ev1 ++ ev2) = count p ev1 + count p ev2.
Proof. unfold count. now rewrite filter_app, length_app. Qed.

Lemma count_none p q ev :
  (forall e, q e = true -> p e = false) ->
  Forall (fun e => q e = true) ev -> count p ev = 0.
Proof.
  intros Hpq. unfold count. induction 1 as [|e ev He _ IH]; simpl; [reflexivity|].
  now rewrite (Hpq e He).
Qed.

Lemma geocode_missing_sleeps (location : dict) location_id city state postal
    w r w' ev :
  geocode_missing location location_id city state postal w = (r, w', ev) ->
  count is_sleep ev = count followed_by_sleep ev.
Proof.
  unfold geocode_missing.
  destruct (negb (truthy (get location "lat" JNull))
            || negb (truthy (get location "lng" JNull)));
    [|intros [= _ _ <-]; reflexivity].
  destruct (py_join ", " _) as [a|e]; [|intros [= _ _ <-]; reflexivity].
  unfold bind at 1. simpl lift. unfold ret at 1.
  unfold try_except, bind, call.
  destruct (remote_geocode a w) as [[e|[|c rest]] w1]; simpl.
  - destruct (is_api_error e); simpl; intros [= _ _ <-]; reflexivity.
  - intros [= _ _ <-]; reflexivity.
  - intros [= _ _ <-]; reflexivity.
Qed.

Lemma find_place_counts (location_name city state : json) w r w' ev :
  find_place location_name city state w = (r, w', ev) ->
  count is_sleep ev = 0 /\ count followed_by_sleep ev = 1 /\
  count is_find_place_call ev = 1.
Proof.
  unfold find_place, try_except, bind, call. cbv zeta.
  destruct (remote_find_place _ w) as [[e|response] w1]; simpl.
  - destruct (is_api_error e); simpl; intros [= _ _ <-]; repeat split.
  - destruct (candidates response); simpl; intros [= _ _ <-]; repeat split.
Qed.

Lemma get_place_details_sleeps (place_id : string) w r w' ev :
  get_place_details place_id w = (r, w', ev) ->
  count is_sleep ev = count followed_by_sleep ev /\ count is_find_place_call ev = 0.
Proof.
  unfold get_place_details, try_except, bind, call.
  destruct (remote_place place_id w) as [[e|response] w1]; simpl.
  - destruct (is_api_error e); simpl; intros [= _ _ <-]; split; reflexivity.
  - intros [= _ _ <-]; split; reflexivity.
Qed.

Lemma merge_place_sleeps (location : dict) location_id place w r w' ev :
  merge_place location location_id place w = (r, w', ev) ->
  count is_sleep ev = count followed_by_sleep ev /\ count is_find_place_call ev = 0.
Proof.
  unfold merge_place.
  destruct place as [c|]; [|intros [= _ _ <-]; split; reflexivity].
  destruct (candidate_truthy c); [|intros [= _ _ <-]; split; reflexivity].
  destruct (cand_place_id c) as [p|]; [|intros [= _ _ <-]; split; reflexivity].
  destruct (nonempty p); [|intros [= _ _ <-]; split; reflexivity].
  intros H. apply bind_inv_any in H.
  destruct H as [(e & H & _)|(d & w1 & ev1 & ev2 & H1 & H2 & ->)].
  - now apply get_place_details_sleeps in H.
  - apply get_place_details_sleeps in H1. destruct H1 as [Hs Hf].
    rewrite !count_app, Hs, Hf.
    destruct (details_truthy d); injection H2 as _ _ <-; split; reflexivity.
Qed.

Lemma geocode_missing_no_find_place (location : dict) location_id city state postal
    w r w' ev :
  geocode_missing location location_id city state postal w = (r, w', ev) ->
  count is_find_place_call ev = 0.
Proof.
  unfold geocode_missing.
  destruct (negb (truthy (get location "lat" JNull))
            || negb (truthy (get location "lng" JNull)));
    [|intros [= _ _ <-]; reflexivity].
  destruct (py_join ", " _) as [a|e]; [|intros [= _ _ <-]; reflexivity].
  unfold bind at 1. simpl lift. unfold ret at 1.
  unfold try_except, bind, call.
  destruct (remote_geocode a w) as [[e|[|c rest]] w1]; simpl.
  - destruct (is_api_error e); simpl; intros [= _ _ <-]; reflexivity.
  - intros [= _ _ <-]; reflexivity.
  - intros [= _ _ <-]; reflexivity.
Qed.

(** The counts of one record. *)
Lemma record_counts (location : dict) w res w' ev :
  update_location_info location w = (Ret res, w', ev) ->
  count is_sleep ev = count followed_by_sleep ev /\
  count is_find_place_call ev = 1 /\
  count is_progress ev = 0.
Proof.
  intros H.
  assert (Hp : count is_progress ev = 0).
  { apply (count_none _ backstage); [|eapply update_location_info_backstage, H].
    intros [] He; try discriminate; reflexivity. }
  unfold update_location_info in H.
  apply bind_inv in H. destruct H as (? & ? & ? & ev0 & Hl & H & ->).
  injection Hl as _ <- <-.
  apply bind_inv in H. destruct H as (l1 & w1 & evg & ev1 & Hg & H & ->).
  apply bind_inv in H. destruct H as (place & w2 & evf & ev2 & Hf & H & ->).
  apply bind_inv in H. destruct H as (? & ? & ? & ev3 & Hs & H & ->).
  injection Hs as _ <- <-.
  apply bind_inv in H. destruct H as (l2 & w3 & evm & ev4 & Hm & H & ->).
  injection H as _ _ <-.
  assert (Hg2 := geocode_missing_no_find_place _ _ _ _ _ _ _ _ _ Hg).
  apply geocode_missing_sleeps in Hg.
  apply find_place_counts in Hf. destruct Hf as (Hf1 & Hf2 & Hf3).
  apply merge_place_sleeps in Hm. destruct Hm as (Hm1 & Hm2).
  split; [|split; [|exact Hp]].
  - rewrite !count_app. change (count is_sleep [Log INFO _]) with 0.
    change (count followed_by_sleep [Log INFO _]) with 0.
    change (count is_sleep [Sleep]) with 1.
    change (count followed_by_sleep [Sleep]) with 0.
    change (count is_sleep []) with 0. change (count followed_by_sleep []) with 0.
    lia.
  - rewrite !count_app. change (count is_find_place_call [Log INFO _]) with 0.
    change (count is_find_place_call [Sleep]) with 0.
    change (count is_find_place_call []) with 0. lia.
Qed.

End Batch.

Section Batch2.
Context {F : PyFloat} {R : PyRepr} {G : GoogleMaps}.

Lemma process_loop_counts (locations : list dict) :
  forall idx total w out w' ev,
  process_loop locations idx total w = (Ret out, w', ev) ->
  List.length out = List.length locations /\
  filter is_progress ev
  = map (fun i => StProgress (i + 1) total) (seq idx (List.length locations)) /\
  count is_find_place_call ev = List.length locations /\
  count is_sleep ev = List.length locations + count followed_by_sleep ev.
Proof.
  induction locations as [|l rest IH]; intros idx total w out w' ev; simpl.
  - intros [= <- _ <-]. repeat split.
  - intros H. apply bind_inv in H.
    destruct H as ([l' o] & w1 & ev1 & ev2 & Hu & H & ->).
    apply bind_inv in H. destruct H as (? & ? & ? & ? & Hpr & H & ->).
    injection Hpr as _ <- <-.
    apply bind_inv in H. destruct H as (? & ? & ? & ? & Htx & H & ->).
    injection Htx as _ <- <-.
    apply bind_inv in H. destruct H as (? & ? & ? & ? & Hsl & H & ->).
    injection Hsl as _ <- <-.
    apply bind_inv in H. destruct H as (outs & w2 & ev3 & ? & Hrest & H & ->).
    injection H as <- _ <-.
    destruct (IH _ _ _ _ _ _ Hrest) as (Hlen & Hprog & Hfind & Hsleep).
    destruct (record_counts _ _ _ _ _ Hu) as (Hs1 & Hf1 & Hp1).
    split; [simpl; now rewrite Hlen|]. split; [|split].
    + rewrite !filter_app. unfold count in Hp1.
      apply length_zero_iff_nil in Hp1. rewrite Hp1. simpl.
      rewrite app_nil_r. now rewrite Hprog.
    + rewrite !count_app, Hf1, Hfind.
      change (count is_find_place_call [StProgress _ _]) with 0.
      change (count is_find_place_call [StText _]) with 0.
      change (count is_find_place_call [Sleep]) with 0.
      change (count is_find_place_call []) with 0. lia.
    + rewrite !count_app, Hs1, Hsleep.
      change (count is_sleep [StProgress _ _]) with 0.
      change (count is_sleep [StText _]) with 0.
      change (count is_sleep [Sleep]) with 1.
      change (count is_sleep []) with 0.
      change (count followed_by_sleep [StProgress _ _]) with 0.
      change (count followed_by_sleep [StText _]) with 0.
      change (count followed_by_sleep [Sleep]) with 0.
      change (count followed_by_sleep []) with 0. lia.
Qed.

(** X15: [process_locations] handles the records one after the other: it
    returns one record for each, looks each up with exactly one find-place
    call, shows the progress 1/N, 2/N, ..., N/N in this order after an
    initial 0, and ends on the status "Processing complete.". *)
Theorem process_locations_progress (locations : list dict) (w : world) out w' ev :
  process_locations locations w = (Ret out, w', ev) ->
  let n := List.length locations in
  List.length out = n /\
  filter is_progress ev
  = StProgress 0 1 :: map (fun i => StProgress (i + 1) n) (seq 0 n) /\
  count is_find_place_call ev = n /\
  last ev StEmpty = StText "Processing complete.".
Proof.
  unfold process_locations. intros H.
  apply bind_inv in H. destruct H as (? & ? & ? & ? & H1 & H & ->).
  injection H1 as _ <- <-.
  apply bind_inv in H. destruct H as (? & ? & ? & ? & H2 & H & ->).
  injection H2 as _ <- <-.
  apply bind_inv in H. destruct H as (outs & w1 & evl & ? & Hl & H & ->).
  apply bind_inv in H. destruct H as (? & ? & ? & ? & H3 & H & ->).
  injection H3 as _ <- <-. injection H as <- _ <-.
  destruct (process_loop_counts _ _ _ _ _ _ _ Hl) as (Hlen & Hprog & Hfind & _).
  cbv zeta. split; [exact Hlen|]. split; [|split].
  - simpl. rewrite !filter_app, Hprog. simpl. now rewrite app_nil_r.
  - change ([StProgress 0 1] ++ [StEmpty] ++ evl ++ [StText "Processing complete."] ++ [])
      with ([StProgress 0 1; StEmpty] ++ evl ++ [StText "Processing complete."]).
    rewrite !count_app, Hfind.
    change (count is_find_place_call [StProgress 0 1; StEmpty]) with 0.
    change (count is_find_place_call [StText "Processing complete."]) with 0. lia.
  - change ([StProgress 0 1] ++ [StEmpty] ++ evl ++ [StText "Processing complete."] ++ [])
      with (([StProgress 0 1; StEmpty] ++ evl) ++ [StText "Processing complete."]).
    apply last_last.
Qed.

(** X16: the pauses of the rate limiting: in the run of one record there
    is one sleep for the find-place call and one for each geocode or
    details call that answered, and none for a geocode or details call that
    raised; [process_locations] adds one sleep for each record. *)
Theorem sleeps_follow_calls :
  (forall (location : dict) (w : world) res w' ev,
      update_location_info location w = (Ret res, w', ev) ->
      count is_sleep ev = count followed_by_sleep ev) /\
  (forall (locations : list dict) (w : world) out w' ev,
      process_locations locations w = (Ret out, w', ev) ->
      count is_sleep ev = List.length locations + count followed_by_sleep ev).
Proof.
  split.
  - intros location w res w' ev H. now apply record_counts in H.
  - intros locations w out w' ev H. unfold process_locations in H.
    apply bind_inv in H. destruct H as (? & ? & ? & ? & H1 & H & ->).
    injection H1 as _ <- <-.
    apply bind_inv in H. destruct H as (? & ? & ? & ? & H2 & H & ->).
    injection H2 as _ <- <-.
    apply bind_inv in H. destruct H as (outs & w1 & evl & ? & Hl & H & ->).
    apply bind_inv in H. destruct H as (? & ? & ? & ? & H3 & H & ->).
    injection H3 as _ <- <-. injection H as _ _ <-.
    destruct (process_loop_counts _ _ _ _ _ _ _ Hl) as (_ & _ & _ & Hsleep).
    rewrite !count_app, Hsleep.
    change (count is_sleep [StProgress 0 1]) with 0.
    change (count is_sleep [StEmpty]) with 0.
    change (count is_sleep [StText _]) with 0.
    change (count is_sleep []) with 0.
    change (count followed_by_sleep [StProgress 0 1]) with 0.
    change (count followed_by_sleep [StEmpty]) with 0.
    change (count followed_by_sleep [StText _]) with 0.
    change (count followed_by_sleep []) with 0. lia.
Qed.

End Batch2.

Section MoreMain.
Context {F : PyFloat} {R : PyRepr} {G : GoogleMaps}.

Local Ltac emits_step :=
  first
    [ apply emits_ret
    | apply emits_raise
    | apply emits_lift
    | apply emits_emit; reflexivity
    | apply emits_call; intros; reflexivity
    | apply emits_bind; [|intros]
    | apply emits_try_except; [|intros]
    | match goal with
      | |- emits _ (if ?b then _ else _) => destruct b
      | |- emits _ (match ?x with _ => _ end) => destruct x
      end ].

Lemma assign_ids_idle (locations : list dict) : emits idle (assign_ids locations).
Proof.
  apply (emits_weaken is_log idle); [|apply assign_ids_is_log].
  intros [] H; try discriminate; reflexivity.
Qed.

Lemma main_idle_without_button (uploaded_file : option (outcome json)) :
  emits idle (main uploaded_file false).
Proof.
  unfold main. repeat first [ apply assign_ids_idle | emits_step ].
Qed.

Lemma main_idle_without_file (button : bool) : emits idle (main None button).
Proof. unfold main. repeat emits_step. Qed.

(** X17: without an uploaded file, or as long as the update button is not
    pressed, a run of [main] makes no call to the service and offers no
    download, whatever the upload is. *)
Theorem main_waits_for_button (uploaded_file : option (outcome json))
    (button : bool) (w : world) r w' ev :
  main uploaded_file button w = (r, w', ev) ->
  uploaded_file = None \/ button = false ->
  Forall (fun e => is_remote_call e = false /\ is_download e = false) ev.
Proof.
  intros Hrun Hor.
  assert (H : Forall (fun e => idle e = true) ev).
  { destruct Hor as [-> | ->].
    - eapply main_idle_without_file, Hrun.
    - eapply main_idle_without_button, Hrun. }
  eapply Forall_impl; [|exact H]. intros e He. unfold idle in He.
  apply andb_true_iff in He. destruct He as [H1 H2].
  split; [now destruct (is_remote_call e)|now destruct (is_download e)].
Qed.

Lemma download_at_end_prepend button r ev1 ev2 :
  Forall (fun e => is_download e = false) ev1 ->
  download_at_end button r ev2 -> download_at_end button r (ev1 ++ ev2).
Proof.
  intros H1 [H2|(Hr & Hb & before & data & -> & Hbefore & Hc)].
  - left. apply Forall_app. now split.
  - right. split; [exact Hr|]. split; [exact Hb|].
    exists (ev1 ++ before), data. rewrite app_assoc. split; [reflexivity|].
    split; [apply Forall_app; now split|exact Hc].
Qed.

Lemma download_at_end_bind {A} button (m : M A) (k : A -> M unit) w r w' ev :
  emits (fun e => negb (is_download e)) m ->
  (forall a w0 w1 ev1 r2 w2 ev2,
      m w0 = (Ret a, w1, ev1) -> k a w1 = (r2, w2, ev2) ->
      download_at_end button r2 ev2) ->
  bind m k w = (r, w', ev) -> download_at_end button r ev.
Proof.
  intros Hm Hk H. apply bind_inv_any in H.
  assert (Hno : forall w0 r0 w1 ev1, m w0 = (r0, w1, ev1) ->
                  Forall (fun e => is_download e = false) ev1).
  { intros w0 r0 w1 ev1 H0. eapply Forall_impl; [|eapply Hm, H0].
    intros e He. cbv beta in He. now destruct (is_download e). }
  destruct H as [(e & H & _)|(a & w1 & ev1 & ev2 & H1 & H2 & ->)].
  - left. eapply Hno, H.
  - apply download_at_end_prepend; [eapply Hno, H1|eapply Hk; eassumption].
Qed.

Lemma emits_no_download {A} p (m : M A) :
  (forall e, p e = true -> is_download e = false) ->
  emits p m -> emits (fun e => negb (is_download e)) m.
Proof.
  intros Hp. apply emits_weaken. intros e He. now rewrite (Hp e He).
Qed.

Lemma process_locations_canonical (locations : list dict) w out w' ev :
  process_locations locations w = (Ret out, w', ev) -> Forall canonical out.
Proof.
  intros H. apply process_locations_inv in H.
  induction H as [|l o ls os (w1 & l' & w2 & ev' & Hu) _ IH]; constructor; [|exact IH].
  now apply (update_location_info_shape _ _ _ _ _ _ Hu).
Qed.

Lemma main_download_at_end (uploaded_file : option (outcome json)) button w r w' ev :
  main uploaded_file button w = (r, w', ev) -> download_at_end button r ev.
Proof.
  unfold main.
  apply download_at_end_bind; [apply emits_emit; reflexivity|]. intros _ _ w1 _ r1 w1' ev1 _.
  apply download_at_end_bind; [apply emits_emit; reflexivity|]. intros _ _ w2 _ r2 w2' ev2 _.
  apply download_at_end_bind; [apply emits_emit; reflexivity|]. intros _ _ w3 _ r3 w3' ev3 _.
  destruct uploaded_file as [file|];
    [|intros [= _ _ <-]; left; repeat constructor].
  intros H. apply try_except_inv in H.
  assert (Hbody : forall rb wb evb,
             bind (lift file)
               (fun locations_data =>
                  bind (lift (preprocess_locations locations_data))
                    (fun locations =>
                       bind (emit (StSuccess
                                     ("Loaded " ++ str_of_nat (List.length locations)
                                      ++ " locations from the uploaded file.")))
                         (fun _ =>
                            bind (assign_ids locations)
                              (fun locations0 =>
                                 bind (emit (StButton "Update Locations"))
                                   (fun _ =>
                                      if button
                                      then
                                        bind (process_locations locations0)
                                          (fun updated_locations =>
                                             bind (emit (StSuccess
                                                           "Location data has been updated successfully."))
                                               (fun _ =>
                                                  emit (StDownloadButton updated_locations
                                                          "updated_locations.json")))
                                      else ret tt))))) w3
             = (rb, wb, evb) ->
             download_at_end button rb evb /\
             (forall e, rb = Raise e -> Forall (fun e => is_download e = false) evb)).
  { intros rb wb evb Hb.
    assert (Hd : download_at_end button rb evb).
    { revert Hb.
      apply download_at_end_bind; [apply emits_lift|]. intros data _ w4 _ r4 w4' ev4 _.
      apply download_at_end_bind; [apply emits_lift|]. intros locs _ w5 _ r5 w5' ev5 _.
      apply download_at_end_bind; [apply emits_emit; reflexivity|].
      intros _ _ w6 _ r6 w6' ev6 _.
      apply download_at_end_bind.
      { apply (emits_no_download is_log); [|apply assign_ids_is_log].
        intros [] He; try discriminate; reflexivity. }
      intros locs' _ w7 _ r7 w7' ev7 _.
      apply download_at_end_bind; [apply emits_emit; reflexivity|].
      intros _ _ w8 _ r8 w8' ev8 _.
      destruct button; [|intros [= _ _ <-]; left; constructor].
      apply download_at_end_bind.
      { apply (emits_no_download processing); [|apply process_locations_processing].
        intros [] He; try discriminate; reflexivity. }
      intros updated w9 w10 ev9 r10 w10' ev10 Hproc.
      apply download_at_end_bind; [apply emits_emit; reflexivity|].
      intros _ _ w11 _ r11 w11' ev11 _ [= <- _ <-].
      right. split; [reflexivity|]. split; [reflexivity|].
      exists [], updated. split; [reflexivity|]. split; [constructor|].
      eapply process_locations_canonical, Hproc. }
    split; [exact Hd|]. intros e ->.
    destruct Hd as [Hd|(Hr & _)]; [exact Hd|discriminate]. }
  destruct H as [(a & H & ->)|(e & w4 & ev4 & ev5 & H1 & H2 & ->)].
  - now apply Hbody in H.
  - apply Hbody in H1. destruct H1 as [_ Hno]. left.
    apply Forall_app. split; [now apply (Hno e)|].
    destruct e; injection H2 as _ _ <-; repeat constructor.
Qed.

(** X18: [main] offers a download only as the last thing of a run that
    returned after the button was pressed: a run that raises, at whatever
    record, leaves no download behind; and the records of the download are
    all in canonical shape. *)
Theorem main_download_is_last (uploaded_file : option (outcome json))
    (button : bool) (w : world) r w' ev data file_name :
  main uploaded_file button w = (r, w', ev) ->
  In (StDownloadButton data file_name) ev ->
  r = Ret tt /\ button = true /\ file_name = "updated_locations.json" /\
  Forall canonical data /\
  exists before,
    ev = before ++ [StDownloadButton data file_name] /\
    Forall (fun e => is_download e = false) before.
Proof.
  intros Hrun Hin.
  destruct (main_download_at_end _ _ _ _ _ _ Hrun)
    as [Hno|(Hr & Hb & before & data0 & -> & Hbefore & Hc)].
  - rewrite Forall_forall in Hno. now specialize (Hno _ Hin).
  - apply in_app_or in Hin. destruct Hin as [Hin|[Hin|[]]].
    + rewrite Forall_forall in Hbefore. now specialize (Hbefore _ Hin).
    + injection Hin as <- <-. repeat split; auto. now exists before.
Qed.

End MoreMain.

(** ** Examples *)

Section Examples.
Import Demo.
#[local] Existing Instances demo_float demo_repr demo_maps.

(** The end-to-end example: one record with a name, a city and a state. *)
Example acme_end_to_end :
  exists ev,
    main (Some (Ret (JList [JDict acme_record]))) true tt = (Ret tt, tt, ev) /\
    last ev StEmpty
    = (StDownloadButton
          [[("id", JStr "1"); ("name", JStr "Acme Store");
            ("lat", JStr "302672"); ("lng", JStr "-977431");
            ("category", JStr ""); ("address", JStr "1 Main Street");
            ("address2", JStr ""); ("city", JStr "Austin");
            ("state", JStr "TX"); ("postal", JStr "78701");
            ("phone", JStr "(512) 555-0100");
            ("web", JStr "https://acme.example");
            ("hours1", JStr (join (String "010" "") ["Monday: 9-5"; "Tuesday: 9-5"]));
            ("hours2", JStr ""); ("hours3", JStr "");
            ("featured", JStr "no"); ("features", JStr "");
            ("date", JStr "")]]
          "updated_locations.json").
Proof.
  eexists. split; vm_compute; reflexivity.
Qed.

Lemma acme_ids_fit : ids_fit [acme_record].
Proof. unfold ids_fit. apply below_bound_of_digits. vm_compute. reflexivity. Defined.

Lemma pipeline_output_canonical_witness :
  exists locations,
    preprocess_locations (JList (map JDict [acme_record])) = Ret locations /\
    Forall canonical locations /\
    exists ids w1 ev1 out w2 ev2,
      assign_ids locations tt = (Ret ids, w1, ev1) /\
      process_locations ids w1 = (Ret out, w2, ev2).
Proof.
  destruct (pipeline_output_canonical (G := demo_maps) [acme_record] tt)
    as (locations & Hp & _ & Hc & _ & Hrun).
  exists locations. split; [assumption|]. split; [assumption|].
  apply Hrun.
  - repeat constructor.
  - repeat constructor. exists "". split; [reflexivity|discriminate].
  - exact acme_ids_fit.
Defined.

(** C1, as stated, fails: a record without [featured] leaves the pipeline
    with the value "no" there, not with the empty text. *)
Lemma missing_featured_comes_out_no :
  lookup acme_record "featured" = None /\
  exists locations ids ev1 out ev2,
    preprocess_locations (JList (map JDict [acme_record])) = Ret locations /\
    assign_ids locations tt = (Ret ids, tt, ev1) /\
    process_locations ids tt = (Ret out, tt, ev2) /\
    map (fun o => lookup o "featured") out = [Some (JStr "no")] /\
    ~ Forall (fun o => forall field, lookup acme_record field = None ->
                                     lookup o field = Some (JStr "")) out.
Proof.
  split; [reflexivity|]. do 5 eexists.
  split; [vm_compute; reflexivity|]. split; [vm_compute; reflexivity|].
  split; [vm_compute; reflexivity|]. split; [reflexivity|].
  intros H. inversion H as [|? ? Ho _]. specialize (Ho "featured" eq_refl).
  discriminate.
Qed.

(** C2, as stated, fails: two records with the ID 5 both keep it. *)
Lemma duplicate_ids_survive :
  exists ev,
    assign_ids duplicate_batch tt = (Ret duplicate_batch, tt, ev) /\
    ~ NoDup (map id_text duplicate_batch).
Proof.
  eexists. split; [vm_compute; reflexivity|].
  intros H. inversion H as [|? ? Hnotin _]. apply Hnotin. now left.
Qed.

Lemma readable_mixed_batch : Forall readable_id mixed_batch.
Proof.
  repeat constructor.
  - exists "5". split; [reflexivity|]. intros _. now exists 5%N.
  - exists "". split; [reflexivity|]. discriminate.
Defined.

Lemma mixed_batch_ids_fit : ids_fit mixed_batch.
Proof. unfold ids_fit. apply below_bound_of_digits. vm_compute. reflexivity. Defined.

Lemma assign_ids_spec_witness :
  Forall readable_id mixed_batch /\ ids_fit mixed_batch /\
  exists out ev,
    assign_ids mixed_batch tt = (Ret out, tt, ev) /\
    nth_error out 1 = Some [("name", JStr "B"); ("id", JStr "6")].
Proof.
  split; [exact readable_mixed_batch|]. split; [exact mixed_batch_ids_fit|].
  destruct (assign_ids_spec (G := demo_maps) mixed_batch tt readable_mixed_batch
              mixed_batch_ids_fit)
    as (out & ev & E & _ & Hnth & _).
  exists out, ev. split; [exact E|].
  exact (Hnth 1%nat [("name", JStr "B")] eq_refl).
Defined.

Lemma merge_precedence_witness :
  lookup (merge_details bare_record acme_details) "address"
  = Some (JStr "1 Main Street") /\
  lookup (merge_details bare_record bare_details) "city" = Some (JStr "Austin").
Proof.
  split.
  - apply (merge_precedence bare_record acme_details);
      [left; reflexivity|discriminate].
  - apply (merge_precedence bare_record bare_details) with (extracted := "");
      [right; left; reflexivity|reflexivity].
Defined.

(** C4: a place whose details carry no opening hours: the merge replaces
    the hours of the record by the empty text, where the prior value was to
    be kept. *)
Theorem hours1_lost_without_weekday_text :
  exists location' out ev,
    update_location_info bare_record tt = (Ret (location', out), tt, ev) /\
    In (CallPlace "bare" (inr {| result := Some bare_details |})) ev /\
    opening_hours bare_details = None /\
    lookup bare_record "hours1" = Some (JStr "Mon-Fri 9-5") /\
    lookup out "hours1" = Some (JStr "").
Proof.
  do 3 eexists. split; [vm_compute; reflexivity|].
  split; [do 3 right; left; reflexivity|]. repeat split.
Qed.

Lemma nothing_found_keeps_fields_witness :
  exists location' out ev,
    update_location_info unknown_record tt = (Ret (location', out), tt, ev) /\
    lookup out "hours1" = Some (JStr "Daily 8-8") /\
    lookup out "phone" = Some (JStr "555-0199").
Proof.
  do 3 eexists. split; [vm_compute; reflexivity|].
  assert (H : update_location_info unknown_record tt
              = (Ret (finish_location unknown_record,
                      reorder (finish_location unknown_record)), tt,
                 [Log INFO "Processing location ID: 9 - Nowhere";
                  CallFindPlace "Nowhere in , " (inr {| candidates := [] |});
                  Sleep;
                  Log WARNING
                    "No place found using Find Place API for location ID: 9."]))
    by (vm_compute; reflexivity).
  assert (Hnone : forall query answer,
             In (CallFindPlace query answer)
                [Log INFO "Processing location ID: 9 - Nowhere";
                 CallFindPlace "Nowhere in , " (inr {| candidates := [] |});
                 Sleep;
                 Log WARNING
                   "No place found using Find Place API for location ID: 9."] ->
             nothing_found answer).
  { intros query answer [Hin|[Hin|[Hin|[Hin|[]]]]]; try discriminate.
    injection Hin as _ <-. reflexivity. }
  destruct (nothing_found_keeps_fields (G := demo_maps) unknown_record tt _ _ _ _ H Hnone) as [_ Hf].
  split; [exact (Hf "hours1" ltac:(simpl; tauto))
         |exact (Hf "phone" ltac:(simpl; tauto))].
Defined.

Lemma coordinates_present_no_geocode_witness :
  exists location' out w' ev,
    update_location_info bare_record tt = (Ret (location', out), w', ev) /\
    Forall (fun e => is_geocode_call e = false) ev /\
    lookup out "lat" = Some (JStr "30.1") /\
    lookup out "lng" = Some (JStr "-97.7").
Proof.
  exact (coordinates_present_no_geocode (G := demo_maps) bare_record tt eq_refl eq_refl).
Defined.

Lemma text_address_half_located : text_address half_located_record.
Proof. repeat split. Defined.

Lemma geocode_overwrites_both_witness :
  truthy (get half_located_record "lng" JNull) = true /\
  exists location' out w' ev,
    update_location_info half_located_record tt = (Ret (location', out), w', ev) /\
    lookup out "lat" = Some (JStr "302672") /\
    lookup out "lng" = Some (JStr "-977431").
Proof.
  split; [reflexivity|].
  destruct (geocode_overwrites_both (G := demo_maps) half_located_record tt
              text_address_half_located (or_introl eq_refl))
    as (location' & out & w' & ev & full_address & answer & E & Hin & _ & Hres).
  exists location', out, w', ev. split; [exact E|].
  assert (Ha : answer = inr [ {| geo_lat := 302672%Z : num;
                                 geo_lng := (-977431)%Z : num |} ]).
  { vm_compute in E. injection E as _ _ _ <-.
    destruct Hin as [Hin|[Hin|Hin]]; try discriminate.
    - now injection Hin as _ <-.
    - repeat (destruct Hin as [Hin|Hin]; try discriminate). destruct Hin. }
  exact (Hres _ _ Ha).
Defined.

Lemma enrichment_postconditions_witness :
  exists location' out ev,
    update_location_info unknown_record tt = (Ret (location', out), tt, ev) /\
    lookup out "featured" = Some (JStr "no") /\
    exists s, lookup out "lat" = Some (JStr s).
Proof.
  do 3 eexists. split; [vm_compute; reflexivity|].
  assert (H : update_location_info unknown_record tt
              = (Ret (finish_location unknown_record,
                      reorder (finish_location unknown_record)), tt,
                 [Log INFO "Processing location ID: 9 - Nowhere";
                  CallFindPlace "Nowhere in , " (inr {| candidates := [] |});
                  Sleep;
                  Log WARNING
                    "No place found using Find Place API for location ID: 9."]))
    by (vm_compute; reflexivity).
  destruct (enrichment_postconditions (G := demo_maps) unknown_record tt _ _ _ _ H)
    as (Hlat & _ & _ & Hfeat & _).
  split; [exact (Hfeat (or_introl eq_refl))|exact Hlat].
Defined.

Lemma normalization_idempotent_witness :
  canonical (reorder acme_record) /\
  reorder (reorder acme_record) = reorder acme_record /\
  preprocess_locations (JList (map JDict [reorder acme_record]))
  = Ret [reorder acme_record].
Proof.
  split; [reflexivity|].
  destruct (normalization_idempotent (reorder acme_record) [reorder acme_record])
    as (_ & H1 & H2 & _).
  split; [exact (H1 eq_refl)|]. apply H2. repeat constructor.
Defined.

(** C7, as stated, fails: an upload that is an empty object is no list
    of objects, yet no error is shown and a download is produced. *)
Lemma empty_object_upload_downloads :
  list_of_objects (Ret (JDict [])) = false /\
  exists ev,
    main (Some (Ret (JDict []))) true tt = (Ret tt, tt, ev) /\
    existsb is_error_shown ev = false /\
    existsb is_download ev = true.
Proof.
  split; [reflexivity|]. eexists. split; [vm_compute; reflexivity|].
  split; reflexivity.
Qed.

Lemma malformed_upload_run_witness :
  list_of_objects (Ret (JInt 3)) = false /\
  exists r ev,
    main (Some (Ret (JInt 3))) true tt = (r, tt, intro_events ++ ev) /\
    Forall (fun e => is_remote_call e = false) (intro_events ++ ev) /\
    r = Raise TypeError /\ ev = [].
Proof.
  split; [reflexivity|].
  destruct (malformed_upload_run (G := demo_maps) (Ret (JInt 3)) true tt eq_refl)
    as (r & ev & E & Hq & _ & _ & _ & Hshape & _).
  exists r, ev. split; [assumption|]. split; [assumption|].
  destruct (Hshape (JInt 3) eq_refl ltac:(discriminate) ltac:(discriminate))
    as (Hev & [[_ Hr]|(items & Hi & _)]); [auto|discriminate].
Defined.

End Examples.

(** ** Further examples *)

Import Demo MoreDemo.
#[local] Existing Instances demo_float demo_repr.

Lemma calls_of_one_record_witness :
  exists location' out w' ev geo answer details,
    @update_location_info _ _ demo_maps half_located_record tt
    = (Ret (location', out), w', ev) /\
    filter is_remote_call ev
    = geo ++ CallFindPlace "Acme Store in Austin, TX" answer :: details.
Proof.
  destruct (@update_location_info _ _ demo_maps half_located_record tt)
    as [[[[location' out]|e] w'] ev] eqn:E; [|vm_compute in E; discriminate].
  destruct (calls_of_one_record (G := demo_maps) half_located_record tt _ _ _ _ E)
    as (geo & answer & details & H & _).
  exists location', out, w', ev, geo, answer, details. split; [reflexivity|exact H].
Defined.

Lemma geocode_address_composition_witness :
  exists r w' ev address answer,
    @update_location_info _ _ demo_maps nameless_place tt = (r, w', ev) /\
    In (CallGeocode address answer) ev /\
    address = "USA".
Proof.
  destruct (@update_location_info _ _ demo_maps nameless_place tt)
    as [[r w'] ev] eqn:E.
  assert (Hin : In (CallGeocode "USA" (inr [])) ev).
  { vm_compute in E. injection E as _ _ <-. right. left. reflexivity. }
  exists r, w', ev, "USA", (inr []). split; [reflexivity|]. split; [exact Hin|].
  exact (proj2 (geocode_address_composition (G := demo_maps) nameless_place tt
                  _ _ _ _ _ E Hin) eq_refl).
Defined.

Lemma coordinates_kept_without_result_witness :
  exists location' out w' ev,
    @update_location_info _ _ demo_maps lost_record tt
    = (Ret (location', out), w', ev) /\
    lookup out "lat" = Some (JStr "") /\
    lookup out "lng" = Some (JStr "2.5").
Proof.
  destruct (@update_location_info _ _ demo_maps lost_record tt)
    as [[[[location' out]|e] w'] ev] eqn:E; [|vm_compute in E; discriminate].
  exists location', out, w', ev. split; [reflexivity|].
  apply (coordinates_kept_without_result (G := demo_maps) lost_record tt _ _ _ _ E).
  intros address c rest Hin. vm_compute in E. injection E as _ _ _ <-.
  repeat (destruct Hin as [Hin|Hin]; [discriminate|]). destruct Hin.
Defined.

Lemma no_details_keeps_fields_witness :
  exists location' out w' ev,
    @update_location_info _ _ failing_maps unknown_record tt
    = (Ret (location', out), w', ev) /\
    In (CallPlace "gone" (inl (ApiError "NOT_FOUND"))) ev /\
    lookup out "hours1" = Some (JStr "Daily 8-8").
Proof.
  destruct (@update_location_info _ _ failing_maps unknown_record tt)
    as [[[[location' out]|e] w'] ev] eqn:E; [|vm_compute in E; discriminate].
  exists location', out, w', ev. split; [reflexivity|].
  assert (Hev : ev = [Log INFO "Processing location ID: 9 - Nowhere";
                      CallFindPlace "Nowhere in , "
                        (inr {| candidates :=
                                  [ {| cand_place_id := Some "gone";
                                       cand_formatted_address := None;
                                       cand_opening_hours := None |} ] |});
                      Sleep; CallPlace "gone" (inl (ApiError "NOT_FOUND"));
                      Log ERROR
                        "API error during place_details for place_id gone: NOT_FOUND";
                      Log WARNING
                        "No details found for place_id gone for location ID: 9."]).
  { pose proof E as E'. vm_compute in E'. now injection E' as _ _ _ <-. }
  split; [rewrite Hev; do 3 right; left; reflexivity|].
  apply (no_details_keeps_fields (G := failing_maps) unknown_record tt _ _ _ _ E).
  - intros place_id answer Hin. rewrite Hev in Hin.
    destruct Hin as [Hin|[Hin|[Hin|[Hin|[Hin|[Hin|[]]]]]]]; try discriminate.
    now injection Hin as _ <-.
  - unfold merged_fields. simpl. tauto.
Defined.

Lemma details_reach_output_witness :
  exists location' out w' ev,
    @update_location_info _ _ demo_maps half_located_record tt
    = (Ret (location', out), w', ev) /\
    lookup out "phone" = Some (JStr "(512) 555-0100").
Proof.
  destruct (@update_location_info _ _ demo_maps half_located_record tt)
    as [[[[location' out]|e] w'] ev] eqn:E; [|vm_compute in E; discriminate].
  exists location', out, w', ev. split; [reflexivity|].
  assert (Hin : In (CallPlace "acme" (inr {| result := Some acme_details |})) ev).
  { pose proof E as E'. vm_compute in E'. injection E' as _ _ _ <-.
    do 6 right. left. reflexivity. }
  exact (details_reach_output (G := demo_maps) half_located_record tt _ _ _ _ _ _
           E Hin eq_refl "phone" ltac:(unfold merged_fields; simpl; tauto)).
Defined.

Lemma assign_ids_frame_witness :
  exists out w' ev,
    @assign_ids _ _ demo_maps mixed_batch tt = (Ret out, w', ev) /\
    Forall2 (fun l o => lookup o "name" = lookup l "name") mixed_batch out.
Proof.
  destruct (@assign_ids _ _ demo_maps mixed_batch tt)
    as [[[out|e] w'] ev] eqn:E; [|vm_compute in E; discriminate].
  exists out, w', ev. split; [reflexivity|].
  eapply Forall2_impl; [|exact (assign_ids_frame (G := demo_maps) mixed_batch tt _ _ _ E)].
  intros l o (H & _). apply H. discriminate.
Defined.

Lemma assign_ids_idempotent_witness :
  exists out w' ev,
    @assign_ids _ _ demo_maps mixed_batch tt = (Ret out, w', ev) /\
    @assign_ids _ _ demo_maps out w' = (Ret out, w', []).
Proof.
  destruct (@assign_ids _ _ demo_maps mixed_batch tt)
    as [[[out|e] w'] ev] eqn:E; [|vm_compute in E; discriminate].
  exists out, w', ev. split; [reflexivity|].
  exact (assign_ids_idempotent (G := demo_maps) mixed_batch tt _ _ _ E).
Defined.

Lemma process_locations_keeps_ids_witness :
  exists out w' ev,
    @process_locations _ _ demo_maps located_batch tt = (Ret out, w', ev) /\
    map id_text out = [Some "7"; Some "9"].
Proof.
  destruct (@process_locations _ _ demo_maps located_batch tt)
    as [[[out|e] w'] ev] eqn:E; [|vm_compute in E; discriminate].
  exists out, w', ev. split; [reflexivity|].
  exact (proj1 (process_locations_keeps_ids (G := demo_maps) located_batch tt _ _ _ E)).
Defined.

Lemma process_locations_progress_witness :
  exists out w' ev,
    @process_locations _ _ demo_maps located_batch tt = (Ret out, w', ev) /\
    filter is_progress ev = [StProgress 0 1; StProgress 1 2; StProgress 2 2].
Proof.
  destruct (@process_locations _ _ demo_maps located_batch tt)
    as [[[out|e] w'] ev] eqn:E; [|vm_compute in E; discriminate].
  exists out, w', ev. split; [reflexivity|].
  exact (proj1 (proj2 (process_locations_progress (G := demo_maps) located_batch tt
                         _ _ _ E))).
Defined.

Lemma sleeps_follow_calls_witness :
  exists res w' ev,
    @update_location_info _ _ demo_maps lost_record tt = (Ret res, w', ev) /\
    count is_sleep ev = count followed_by_sleep ev.
Proof.
  destruct (@update_location_info _ _ demo_maps lost_record tt)
    as [[[res|e] w'] ev] eqn:E; [|vm_compute in E; discriminate].
  exists res, w', ev. split; [reflexivity|].
  exact (proj1 (sleeps_follow_calls (G := demo_maps)) lost_record tt _ _ _ E).
Defined.

Lemma main_waits_for_button_witness :
  exists r w' ev,
    @main _ _ demo_maps (Some (Ret (JList [JDict acme_record]))) false tt = (r, w', ev) /\
    Forall (fun e => is_remote_call e = false /\ is_download e = false) ev.
Proof.
  destruct (@main _ _ demo_maps (Some (Ret (JList [JDict acme_record]))) false tt)
    as [[r w'] ev] eqn:E.
  exists r, w', ev. split; [reflexivity|].
  exact (main_waits_for_button (G := demo_maps) _ _ _ _ _ _ E (or_intror eq_refl)).
Defined.

Lemma main_download_is_last_witness :
  exists r w' ev data,
    @main _ _ demo_maps (Some (Ret (JList []))) true tt = (r, w', ev) /\
    In (StDownloadButton data "updated_locations.json") ev /\
    r = Ret tt /\ Forall canonical data.
Proof.
  destruct (@main _ _ demo_maps (Some (Ret (JList []))) true tt)
    as [[r w'] ev] eqn:E.
  assert (Hin : In (StDownloadButton [] "updated_locations.json") ev).
  { pose proof E as E'. vm_compute in E'. injection E' as _ _ <-.
    do 9 right. left. reflexivity. }
  exists r, w', ev, []. split; [reflexivity|]. split; [exact Hin|].
  destruct (main_download_is_last (G := demo_maps) _ _ _ _ _ _ _ _ E Hin)
    as (Hr & _ & _ & Hc & _).
  split; assumption.
Defined.

(** The limit of the digits: [int] reads 4300 nines and refuses 4301, which
    [isdigit] accepts all the same, and [str] refuses the number after the
    one of 4300 nines. *)
Example int_digit_limit :
  isdigit (nines 4301) = true /\ py_int (nines 4301) = None /\
  py_int (nines 4300) = Some (int_str_bound - 1)%N /\
  str_of_N int_str_bound = None.
Proof. split; [|split; [|split]]; vm_compute; reflexivity. Qed.

(** A batch that [assign_ids] can read and that it leaves in the second
    pass: the first record without an ID gets the number of 4300 nines, and
    [str] raises on the number for the second one. *)
Example crowded_batch_raises :
  Forall readable_id crowded_batch /\
  exists ev,
    @assign_ids _ _ demo_maps crowded_batch tt = (Raise ValueError, tt, ev) /\
    count is_info ev = 1.
Proof.
  split.
  - repeat constructor.
    + eexists. split; [reflexivity|]. intros _. eexists. vm_compute. reflexivity.
    + exists "". split; [reflexivity|]. discriminate.
    + exists "". split; [reflexivity|]. discriminate.
  - eexists. split; [vm_compute; reflexivity|]. vm_compute. reflexivity.
Qed.
